(** * unixtool: decoding a byte-swapped SysV file system image

    A shallow embedding of [unixtool.c] (TI/LMI SYSV disk tool) and the
    properties of its decode engine: the byte-order primitives, the block
    device read, the inode decoder, the block resolver with its one- and
    two-level indirection, the directory scan, the path walk of [unix_ls] and
    [unix_read], the copy loop of [unix_read] and the superblock check of
    [main].

    Conventions of the embedding.
    - C integers are [Z]; where the C type matters the wrap-around is written
      out ([u16], [u32] for the unsigned types, [s32] for [int]).  An [int]
      product that leaves the range of [int] is modelled as wrapping, which is
      what the usual two's-complement targets compute.
    - Octets are [Byte.byte]; buffers, the image and C strings are
      [list byte].  The host is little-endian (the tool swaps every on-disk
      word), so a [uint16_t]/[uint32_t] overlaid on a buffer is loaded with
      [le16]/[le32].
    - Automatic arrays that the code does not initialise hold indeterminate
      octets; they are the fields of a [Garbage] record every function takes.
    - [printf]/[perror] output and the system calls on the image are recorded
      in an event log, in program order. *)

From Stdlib Require Import String Ascii ZArith List Lia Bool.
From Stdlib Require Import Strings.Byte.
From coqutil Require Import Z.bitblast.
Import ListNotations.
Local Open Scope string_scope.
Local Open Scope list_scope.
Local Open Scope Z_scope.

(** ** Machine integers and octets *)

Definition u16 (x : Z) : Z := x mod 2 ^ 16.
Definition u32 (x : Z) : Z := x mod 2 ^ 32.

(** Conversion to [int] (32-bit, two's complement). *)
Definition s32 (x : Z) : Z := (x + 2 ^ 31) mod 2 ^ 32 - 2 ^ 31.

Definition b2z (b : byte) : Z := Z.of_N (Byte.to_N b).

Definition z2b (z : Z) : byte :=
  match Byte.of_N (Z.to_N (z mod 256)) with
  | Some b => b
  | None => x00
  end.

(** [buf[i]] for an octet buffer; outside the buffer the model reads 0. *)
Definition byte_at (buf : list byte) (i : Z) : Z :=
  if i <? 0 then 0 else b2z (nth (Z.to_nat i) buf x00).

(** Little-endian loads of the host: a [uint16_t] / [uint32_t] lvalue at octet
    offset [off] of [buf]. *)
Definition le16 (buf : list byte) (off : Z) : Z :=
  Z.lor (byte_at buf off) (Z.shiftl (byte_at buf (off + 1)) 8).

Definition le32 (buf : list byte) (off : Z) : Z :=
  Z.lor (Z.lor (byte_at buf off) (Z.shiftl (byte_at buf (off + 1)) 8))
        (Z.lor (Z.shiftl (byte_at buf (off + 2)) 16)
               (Z.shiftl (byte_at buf (off + 3)) 24)).

(** The value the format stores at [off]: a big-endian 32-bit / 16-bit word. *)
Definition be32 (buf : list byte) (off : Z) : Z :=
  Z.lor (Z.lor (Z.shiftl (byte_at buf off) 24)
               (Z.shiftl (byte_at buf (off + 1)) 16))
        (Z.lor (Z.shiftl (byte_at buf (off + 2)) 8) (byte_at buf (off + 3))).

Definition be16 (buf : list byte) (off : Z) : Z :=
  Z.lor (Z.shiftl (byte_at buf off) 8) (byte_at buf (off + 1)).

(** [swap_word]: swap the octets of a 32-bit word. *)
Definition swap_word (inp : Z) : Z :=
  let out := Z.shiftr (Z.land inp 0xFF000000) 24 in
  let out := Z.lor out (Z.shiftr (Z.land inp 0x00FF0000) 8) in
  let out := Z.lor out (Z.shiftl (Z.land inp 0x0000FF00) 8) in
  let out := Z.lor out (Z.shiftl (Z.land inp 0x000000FF) 24) in
  out.

(** [swap_hword]: swap the octets of a 16-bit word. *)
Definition swap_hword (inp : Z) : Z :=
  let out := Z.shiftl (Z.land inp 0x00FF) 8 in
  let out := Z.lor out (Z.shiftr (Z.land inp 0xFF00) 8) in
  u16 out.

(** ** The event log *)

Inductive arg : Type :=
| ArgI (z : Z)            (* a %d, %o or %X argument *)
| ArgS (s : list byte).   (* a %s argument *)

Inductive event : Type :=
| Lseek (off : Z)                          (* lseek(disk_fd, off, SEEK_SET) *)
| Read (n : Z)                             (* read(disk_fd, _, n) *)
| Write (bs : list byte)                   (* a write(file_fd, ...) of bs *)
| Printf (fmt : string) (args : list arg)
| Perror (s : string).

(** ** The backing image *)

(** The image is a flat octet store.  [faulty pos] tells whether a [read]
    issued at file offset [pos] fails (an I/O error of the device). *)
Record Disk : Type := {
  image : list byte;
  faulty : Z -> bool
}.

(** [lseek(disk_fd, off, SEEK_SET)] on a regular file: fails for a negative
    offset only. *)
Definition lseek (off : Z) : Z := if off <? 0 then -1 else off.

(** [read(disk_fd, _, n)] at file offset [pos]: [None] for an error, else the
    octets transferred, fewer than [n] when the image ends first.  Every read
    of the tool directly follows an [lseek], so the file offset is not kept as
    state. *)
Definition read (d : Disk) (pos n : Z) : option (list byte) :=
  if faulty d pos then None
  else Some (firstn (Z.to_nat n) (skipn (Z.to_nat pos) (image d))).

(** The effect of a read of [bs] on the buffer it is given: the first
    [length bs] octets are replaced, the rest is left as it was. *)
Definition fill (buf bs : list byte) : list byte :=
  bs ++ skipn (length bs) buf.

(** ** Inodes *)

(** [Inode], the in-memory representation. *)
Record Inode : Type := {
  mode : Z;
  type : Z;
  nlink : Z;
  uid : Z;
  gid : Z;
  size : Z;
  addr : list Z;
  atime : Z;
  mtime : Z;
  ctime : Z
}.

(** Indeterminate contents of the uninitialised automatic objects. *)
Record Garbage : Type := {
  g_raw_inode : list byte;              (* InodeODR raw_inode, read_inode *)
  g_indirect_block : list byte;         (* indirect_block[256] *)
  g_first_indirect_block : list byte;   (* first_indirect_block[256] *)
  g_second_indirect_block : list byte;  (* second_indirect_block[256] *)
  g_dir_buffer : list byte;             (* dir_buffer[1024] *)
  g_file_buffer : list byte;            (* file_buffer[1024] *)
  g_past_dir_buffer : list byte;        (* what follows dir_buffer in memory *)
  g_past_permbuf : list byte;           (* what follows permbuf in memory *)
  g_file_inode : Inode                  (* Inode file_inode, unix_read *)
}.

Definition INODE_FT_FIFO : Z := 1.
Definition INODE_FT_CHAR : Z := 2.
Definition INODE_FT_DIR : Z := 4.
Definition INODE_FT_BLK : Z := 6.
Definition INODE_FT_FILE : Z := 8.

(** Field offsets of the packed [InodeODR]. *)
Definition odr_mode : Z := 0.
Definition odr_nlink : Z := 2.
Definition odr_uid : Z := 4.
Definition odr_gid : Z := 6.
Definition odr_size : Z := 8.
Definition odr_addr : Z := 12.
Definition odr_atime : Z := 52.
Definition odr_mtime : Z := 56.
Definition odr_ctime : Z := 60.

(** A function of the tool either goes on with a value or makes its caller
    return [rv]. *)
Inductive result (A : Type) : Type :=
| Ok (a : A)
| Fail (rv : Z).
Arguments Ok {A} a.
Arguments Fail {A} rv.

(** The [while (x < 13)] loop of [read_inode]. *)
Fixpoint read_addr (raw : list byte) (x : Z) (n : nat) : list Z :=
  match n with
  | O => []
  | S n' =>
      let a := Z.shiftl (byte_at raw (odr_addr + x * 3)) 16 in
      let a := Z.lor a (Z.shiftl (byte_at raw (odr_addr + (x * 3 + 1))) 8) in
      let a := Z.lor a (byte_at raw (odr_addr + (x * 3 + 2))) in
      a :: read_addr raw (x + 1) n'
  end.

(** The decoding part of [read_inode]. *)
Definition decode_inode (raw : list byte) : Inode :=
  let raw_mode := le16 raw odr_mode in
  let m := Z.shiftr (Z.land raw_mode 0xFF00) 8 in
  let m := Z.lor m (Z.shiftl (Z.land raw_mode 0x000F) 8) in
  {| mode := m;
     type := Z.shiftr (Z.land raw_mode 0x00F0) 4;
     nlink := swap_hword (le16 raw odr_nlink);
     uid := swap_hword (le16 raw odr_uid);
     gid := swap_hword (le16 raw odr_gid);
     size := swap_word (le32 raw odr_size);
     addr := read_addr raw 0 13;
     atime := swap_word (le32 raw odr_atime);
     mtime := swap_word (le32 raw odr_mtime);
     ctime := swap_word (le32 raw odr_ctime) |}.

(** [read_inode(number, inode)]. *)
Definition read_inode (d : Disk) (g : Garbage) (number : Z)
  : result Inode * list event :=
  let inode_disk_offset := 0x7C0 + s32 (number * 0x40) in
  let seek_res := lseek inode_disk_offset in
  if seek_res <? 0 then
    (Fail (-1), [Lseek inode_disk_offset; Perror "read_inode():lseek()"])
  else
    match read d inode_disk_offset 0x40 with
    | None =>
        (Fail (-1),
         [Lseek inode_disk_offset; Read 0x40; Perror "read_inode():read()"])
    | Some bs =>
        (Ok (decode_inode (fill (g_raw_inode g) bs)),
         [Lseek inode_disk_offset; Read 0x40])
    end.

(** ** The block device *)

(** [disk_block_read(adr, buf)]: the result is the count [read] returned. *)
Definition disk_block_read (d : Disk) (adr : Z) (buf : list byte)
  : Z * list byte * list event :=
  let off := s32 (adr * 0x400) in
  let seek_res := lseek off in
  if seek_res <? 0 then
    (-1, buf, [Lseek off; Perror "unixtool: disk lseek()"])
  else
    match read d off 1024 with
    | None => (-1, buf, [Lseek off; Read 1024; Perror "unixtool: disk read()"])
    | Some bs => (Z.of_nat (length bs), fill buf bs, [Lseek off; Read 1024])
    end.

(** ** The block resolver *)

(** Element [k] of a [uint32_t] array overlaid on [buf]. *)
Definition word_at (buf : list byte) (k : Z) : Z := le32 buf (4 * k).

(** [inode->addr[k]]. *)
Definition addr_at (inode : Inode) (k : Z) : Z := nth (Z.to_nat k) (addr inode) 0.

(** [inode_block_read(adr, inode, buf)].  The callers pass [adr >= 0]. *)
Definition inode_block_read (d : Disk) (g : Garbage) (adr : Z) (inode : Inode)
    (buf : list byte) : Z * list byte * list event :=
  if adr <? 10 then
    (* Direct *)
    let block := s32 (addr_at inode adr) in
    if block >? 0 then
      let '(rv, buf', l) := disk_block_read d block buf in
      (rv, buf',
       Printf "inode_block_read(%d) => disk_block_read(%d)\n"
              [ArgI adr; ArgI block] :: l)
    else (0, buf, []) (* EOF *)
  else if adr <? 266 then
    (* One-level indirection *)
    let indirect_offset := adr - 10 in
    let '(rv, indirect_block, l1) :=
      disk_block_read d (s32 (addr_at inode 10)) (g_indirect_block g) in
    if rv <? 0 then (rv, buf, l1)
    else
      let block := s32 (swap_word (word_at indirect_block indirect_offset)) in
      let '(rv', buf', l2) := disk_block_read d block buf in
      (rv', buf',
       l1 ++ Printf "inode_block_read(%d) => %d(%d) => disk_block_read(%d)\n"
                    [ArgI adr; ArgI (addr_at inode 10); ArgI indirect_offset;
                     ArgI block] :: l2)
  else if adr <? 65802 then
    (* Two-level indirection *)
    let first_indirect_offset := Z.quot (adr - 266) 256 in
    let second_indirect_offset := (adr - 266) - first_indirect_offset * 256 in
    let '(rv, first_indirect_block, l1) :=
      disk_block_read d (s32 (addr_at inode 11)) (g_first_indirect_block g) in
    if rv <? 0 then (rv, buf, l1)
    else
      let first := swap_word (word_at first_indirect_block first_indirect_offset) in
      let '(rv, second_indirect_block, l2) :=
        disk_block_read d (s32 first) (g_second_indirect_block g) in
      if rv <? 0 then (rv, buf, l1 ++ l2)
      else
        let block :=
          s32 (swap_word (word_at second_indirect_block second_indirect_offset)) in
        let '(rv', buf', l3) := disk_block_read d block buf in
        (rv', buf',
         l1 ++ l2 ++
         Printf "inode_block_read(%d) => %d(%d) => %d(%d) => disk_block_read(%d)\n"
                [ArgI adr; ArgI (addr_at inode 11); ArgI first_indirect_offset;
                 ArgI first; ArgI second_indirect_offset; ArgI block] :: l3)
  else (-1, buf, [Printf "Further indirection required\n" []]).

(** ** C strings *)

Definition is_nul (b : byte) : bool := Byte.eqb b x00.
Definition is_slash (b : byte) : bool := Byte.eqb b x2f.

(** The octets of the C string that starts at the head of [s]; the end of the
    list counts as the terminator. *)
Fixpoint cstr (s : list byte) : list byte :=
  match s with
  | [] => []
  | b :: s' => if is_nul b then [] else b :: cstr s'
  end.

Definition strlen (s : list byte) : Z := Z.of_nat (length (cstr s)).

(** [strncmp(s1, s2, n)]. *)
Fixpoint strncmp (s1 s2 : list byte) (n : nat) : Z :=
  match n with
  | O => 0
  | S n' =>
      let c1 := hd x00 s1 in
      let c2 := hd x00 s2 in
      if negb (Byte.eqb c1 c2) then b2z c1 - b2z c2
      else if is_nul c1 then 0
      else strncmp (tl s1) (tl s2) n'
  end.

(** The successive results of [strtok(path, "/")], [strtok(NULL, "/")], ...:
    the maximal non-empty runs of octets other than ['/'].  [cur] is the token
    being collected, last octet first. *)
Fixpoint strtok_from (s cur : list byte) : list (list byte) :=
  match s with
  | [] => match cur with [] => [] | _ => [rev cur] end
  | c :: s' =>
      if is_slash c then
        match cur with
        | [] => strtok_from s' []
        | _ => rev cur :: strtok_from s' []
        end
      else strtok_from s' (c :: cur)
  end.

Definition strtok_all (path : list byte) : list (list byte) :=
  strtok_from (cstr path) [].

Fixpoint take_while (p : byte -> bool) (s : list byte) : list byte :=
  match s with
  | [] => []
  | b :: s' => if p b then b :: take_while p s' else []
  end.

Fixpoint drop_while (p : byte -> bool) (s : list byte) : list byte :=
  match s with
  | [] => []
  | b :: s' => if p b then drop_while p s' else s
  end.

(** What [path] holds as a C string once [strtok] has put a terminator after
    the first token: the leading slashes and the first token. *)
Definition path_after_strtok (path : list byte) : list byte :=
  let p := cstr path in
  take_while is_slash p
  ++ take_while (fun b => negb (is_slash b)) (drop_while is_slash p).

(** ** Directory entries *)

(** The memory a [Dirent *] into [dir_buffer] can reach: the buffer and what
    follows it. *)
Definition dir_mem (g : Garbage) (dir_buffer : list byte) : list byte :=
  dir_buffer ++ g_past_dir_buffer g.

(** [dir_entry->inode] and [dir_entry->name] for [dir_entry = dir_buffer + x]. *)
Definition dirent_inode (g : Garbage) (dir_buffer : list byte) (x : Z) : Z :=
  le16 (dir_mem g dir_buffer) (16 * x).

Definition dirent_name (g : Garbage) (dir_buffer : list byte) (x : Z) : list byte :=
  skipn (Z.to_nat (16 * x + 2)) (dir_mem g dir_buffer).

(** ** Loops *)

(** One iteration of a C loop either goes on with a new state or leaves the
    loop with a result; both add to the log. *)
Inductive step (St R : Type) : Type :=
| Continue (s : St)
| Done (r : R).
Arguments Continue {St R} s.
Arguments Done {St R} r.

(** [fuel] bounds the number of iterations; [None] when it is used up. *)
Fixpoint loop {St R : Type} (fuel : nat)
    (body : St -> option (step St R * list event)) (s : St)
  : option (R * list event) :=
  match fuel with
  | O => None
  | S fuel' =>
      match body s with
      | None => None
      | Some (Done r, l) => Some (r, l)
      | Some (Continue s', l) =>
          match loop fuel' body s' with
          | None => None
          | Some (r, l') => Some (r, l ++ l')
          end
      end
  end.

(** Enough iterations for a scan of one directory block (64 entries), and for
    a walk over the logical blocks of an inode (the resolver fails from block
    65802 on). *)
Definition scan_fuel : nat := 65.
Definition block_fuel : nat := Z.to_nat 65803.

(** ** [unix_ls] *)

(** How the scan of one directory block for [pathpart] ends. *)
Inductive scan_exit : Type :=
| ScanReturn (rv : Z)
    (* the function returns [rv] *)
| ScanFound (x : Z) (dir_inode_number : Z) (dir_inode : Inode) (dirblock : Z)
    (* an entry matched; [break] with these values *)
| ScanEnd (x : Z).
    (* the loop condition failed at [x] *)

(** One test of [while (dir_entry->inode != 0 && x < 64)] and one run of the
    body, in the path walk of [unix_ls]; [dir_inode_number] is 0 when the scan
    starts. *)
Definition ls_scan_body (d : Disk) (g : Garbage) (pathpart dir_buffer : list byte)
    (dir_inode : Inode) (dirblock : Z) (x : Z)
  : option (step Z scan_exit * list event) :=
  if negb (dirent_inode g dir_buffer x =? 0) && (x <? 64) then
    if strlen pathpart >? 14 then
      (* Very funny. *)
      Some (Done (ScanReturn 0),
            [Printf "unixtool: No such file or directory (in image).\n" []])
    else if strncmp pathpart (dirent_name g dir_buffer x) 14 =? 0 then
      (* FOUND! *)
      match read_inode d g (swap_hword (dirent_inode g dir_buffer x)) with
      | (Fail rv, l) => Some (Done (ScanReturn rv), l)
      | (Ok next_dir_inode, l) =>
          if type next_dir_inode =? INODE_FT_DIR then
            (* Subdirectory *)
            let dir_inode_number := swap_hword (dirent_inode g dir_buffer x) in
            match read_inode d g dir_inode_number with
            | (Fail rv, l') =>
                Some (Done (ScanReturn rv),
                      l ++ l' ++ [Printf "subdirectory read_inode() blew it!\n" []])
            | (Ok dir_inode', l') =>
                Some (Done (ScanFound x dir_inode_number dir_inode' 0), l ++ l')
            end
          else Some (Done (ScanFound x 0 dir_inode dirblock), l)
      end
    else Some (Continue (x + 1), [])
  else Some (Done (ScanEnd x), []).

(** How the [while (!done)] loop over the blocks of a directory ends. *)
Inductive block_exit : Type :=
| BlockReturn (rv : Z)
| BlockDone (dir_inode_number : Z) (dir_inode : Inode) (dirblock : Z)
            (dir_buffer : list byte).

(** One run of the body of [while (!done)] in the path walk of [unix_ls]; the
    state is [dirblock] and the content of [dir_buffer]. *)
Definition ls_block_body (d : Disk) (g : Garbage) (pathpart : list byte)
    (dir_inode : Inode) (st : Z * list byte)
  : option (step (Z * list byte) block_exit * list event) :=
  let '(dirblock, dir_buffer) := st in
  let '(rv, dir_buffer, l) := inode_block_read d g dirblock dir_inode dir_buffer in
  if rv <? 0 then Some (Done (BlockReturn rv), l)
  else if rv =? 0 then Some (Done (BlockReturn 0), l) (* EOF, we are done *)
  else
    match loop scan_fuel (ls_scan_body d g pathpart dir_buffer dir_inode dirblock) 0 with
    | None => None
    | Some (ScanReturn rv', l') => Some (Done (BlockReturn rv'), l ++ l')
    | Some (ScanFound x dir_inode_number dir_inode' dirblock', l') =>
        (* x < 64 here: done *)
        Some (Done (BlockDone dir_inode_number dir_inode' dirblock' dir_buffer),
              l ++ l')
    | Some (ScanEnd x, l') =>
        if x <? 64 then
          (* We are done! *)
          Some (Done (BlockDone 0 dir_inode dirblock dir_buffer), l ++ l')
        else
          (* Read next block *)
          Some (Continue (dirblock + 1, dir_buffer), l ++ l')
    end.

(** How the walk over the components of the path ends. *)
Inductive ls_walk_exit : Type :=
| LsReturn (rv : Z)
| LsWalked (dir_inode : Inode) (dirblock : Z) (dir_buffer : list byte).

(** The [while (pathpart != NULL)] loop of [unix_ls] over the tokens of the
    path. *)
Fixpoint ls_walk (d : Disk) (g : Garbage) (parts : list (list byte))
    (dir_inode : Inode) (dirblock : Z) (dir_buffer : list byte)
  : option (ls_walk_exit * list event) :=
  match parts with
  | [] => Some (LsWalked dir_inode dirblock dir_buffer, [])
  | pathpart :: parts' =>
      let l0 := [Printf "pathpart: %s\n" [ArgS pathpart]] in
      match loop block_fuel (ls_block_body d g pathpart dir_inode)
                 (dirblock, dir_buffer) with
      | None => None
      | Some (BlockReturn rv, l) => Some (LsReturn rv, l0 ++ l)
      | Some (BlockDone dir_inode_number dir_inode' dirblock' dir_buffer', l) =>
          if dir_inode_number =? 0 then
            Some (LsReturn (-1),
                  l0 ++ l ++
                  [Printf "unixtool: No such file or directory (in image, path search).\n" []])
          else
            match ls_walk d g parts' dir_inode' dirblock' dir_buffer' with
            | None => None
            | Some (r, l') => Some (r, l0 ++ l ++ l')
            end
      end
  end.

(** [permbuf] for an inode: the type glyph and the nine permission letters.
    The masks are the octal 0400, 0200, 0100, 0040, 0020, 0010, 0004, 0002
    and 0001 of the source. *)
Definition permbuf (file_inode : Inode) : list byte :=
  let t := type file_inode in
  let m := mode file_inode in
  let glyph :=
    if t =? INODE_FT_DIR then "d"%byte
    else if t =? INODE_FT_CHAR then "c"%byte
    else if t =? INODE_FT_BLK then "b"%byte
    else if t =? INODE_FT_FIFO then "p"%byte
    else "-"%byte in
  let bit (mask : Z) (c : byte) := if Z.land m mask =? 0 then "-"%byte else c in
  [glyph; bit 256 "r"%byte; bit 128 "w"%byte; bit 64 "x"%byte;
   bit 32 "r"%byte; bit 16 "w"%byte; bit 8 "x"%byte;
   bit 4 "r"%byte; bit 2 "w"%byte; bit 1 "x"%byte].

(** The line [unix_ls] prints for the entry at [x], whose inode is
    [file_inode].  [permbuf] is a [char[10]] filled with ten octets and no
    terminator, and the name field of an entry has none when the name has 14
    octets: [%s] prints each up to the first NUL in the memory that follows.
    The date is kept as the time stamp it is formatted from: [localtime] and
    [strftime] do not fail on a 32-bit time. *)
Definition ls_line (g : Garbage) (dir_buffer : list byte) (x : Z)
    (file_inode : Inode) : event :=
  Printf "%s  %2d %.6o  %.6o  %7d %s %s\n"
         [ArgS (cstr (permbuf file_inode ++ g_past_permbuf g));
          ArgI (nlink file_inode);
          ArgI (uid file_inode); ArgI (gid file_inode); ArgI (size file_inode);
          ArgI (mtime file_inode); ArgS (cstr (dirent_name g dir_buffer x))].

(** How the scan of one block ends while the directory is printed. *)
Inductive print_exit : Type :=
| PrintReturn (rv : Z)
| PrintEnd (x : Z).

(** One test of [while (dir_entry->inode != 0 && x < 64)] and one run of the
    body, in the printing part of [unix_ls]. *)
Definition ls_print_body (d : Disk) (g : Garbage) (dir_buffer : list byte) (x : Z)
  : option (step Z print_exit * list event) :=
  if negb (dirent_inode g dir_buffer x =? 0) && (x <? 64) then
    match read_inode d g (swap_hword (dirent_inode g dir_buffer x)) with
    | (Fail rv, l) => Some (Done (PrintReturn rv), l)
    | (Ok file_inode, l) =>
        Some (Continue (x + 1), l ++ [ls_line g dir_buffer x file_inode])
    end
  else Some (Done (PrintEnd x), []).

(** One run of the body of the [while (!done)] loop that prints the loaded
    directory; the loop ends with the value [unix_ls] returns. *)
Definition ls_list_body (d : Disk) (g : Garbage) (dir_inode : Inode)
    (st : Z * list byte)
  : option (step (Z * list byte) Z * list event) :=
  let '(dirblock, dir_buffer) := st in
  let '(rv, dir_buffer, l) := inode_block_read d g dirblock dir_inode dir_buffer in
  if rv <? 0 then Some (Done rv, l)
  else if rv =? 0 then Some (Done 0, l) (* EOF, we are done *)
  else
    match loop scan_fuel (ls_print_body d g dir_buffer) 0 with
    | None => None
    | Some (PrintReturn rv', l') => Some (Done rv', l ++ l')
    | Some (PrintEnd x, l') =>
        if x <? 64 then Some (Done 0, l ++ l') (* We are done! *)
        else Some (Continue (dirblock + 1, dir_buffer), l ++ l')
    end.

(** [unix_ls(path)]: the value returned and the log, [None] if a loop ran out
    of fuel. *)
Definition unix_ls (d : Disk) (g : Garbage) (path : list byte)
  : option (Z * list event) :=
  if negb (Byte.eqb (hd x00 path) x2f) then
    Some (-1, [Printf "unixtool: ls: Invalid path\n" []])
  else
    (* Load the root directory *)
    match read_inode d g 2 with
    | (Fail rv, l) => Some (rv, l)
    | (Ok dir_inode, l) =>
        (* Walk path *)
        match ls_walk d g (strtok_all path) dir_inode 0 (g_dir_buffer g) with
        | None => None
        | Some (LsReturn rv, l') => Some (rv, l ++ l')
        | Some (LsWalked dir_inode' dirblock dir_buffer, l') =>
            (* Print loaded directory *)
            match loop block_fuel (ls_list_body d g dir_inode')
                       (dirblock, dir_buffer) with
            | None => None
            | Some (rv, l'') =>
                Some (rv,
                      l ++ l' ++
                      Printf "%s:\n" [ArgS (path_after_strtok path)] :: l'')
            end
        end
    end.

(** ** The host file [unix_read] writes *)

(** The host side as [unix_read] sees it: the content of the file at the
    destination path if there is one, whether [open] fails, and the file
    offsets at which a [write] fails. *)
Record Host : Type := {
  dest : option (list byte);
  open_fails : bool;
  write_fails : Z -> bool
}.

Inductive oflag : Type := O_RDWR | O_CREAT | O_TRUNC.

Definition has_flag (f : oflag) (flags : list oflag) : bool :=
  existsb (fun f' =>
             match f, f' with
             | O_RDWR, O_RDWR | O_CREAT, O_CREAT | O_TRUNC, O_TRUNC => true
             | _, _ => false
             end) flags.

(** [open(filename, flags, 0660)]: the content of the file once it is open
    (the offset is 0), [None] when [open] fails.  An existing file keeps its
    content unless [O_TRUNC] is given; a missing one is created empty with
    [O_CREAT]. *)
Definition host_open (h : Host) (flags : list oflag) : option (list byte) :=
  if open_fails h then None
  else
    match dest h with
    | Some c => Some (if has_flag O_TRUNC flags then [] else c)
    | None => if has_flag O_CREAT flags then Some [] else None
    end.

(** An open file: its content and the file offset. *)
Record File : Type := {
  contents : list byte;
  pos : Z
}.

(** [write(file_fd, bs, length bs)] at the file offset: the octets replace
    what the file holds there and extend it past its end. *)
Definition host_write (h : Host) (f : File) (bs : list byte) : option File :=
  if write_fails h (pos f) then None
  else
    Some {| contents :=
              firstn (Z.to_nat (pos f)) (contents f) ++ bs
              ++ skipn (Z.to_nat (pos f) + length bs) (contents f);
            pos := pos f + Z.of_nat (length bs) |}.

(** The host once the file is closed or the process left. *)
Definition host_with (h : Host) (f : File) : Host :=
  {| dest := Some (contents f);
     open_fails := open_fails h;
     write_fails := write_fails h |}.

(** ** [unix_read] *)

(** What the path walk of [unix_read] carries from one component to the
    next. *)
Record read_state : Type := {
  rs_dir_inode : Inode;
  rs_file_inode : Inode;
  rs_dirblock : Z;
  rs_dir_buffer : list byte;
  rs_dir_inode_number : Z;
  rs_file_inode_number : Z
}.

(** How the scan of one directory block ends in [unix_read]. *)
Inductive rscan_exit : Type :=
| RScanReturn (rv : Z)
| RScanFound (x : Z) (st : read_state)
| RScanEnd (x : Z).

(** One test of [while (dir_entry->inode != 0 && x < 64)] and one run of the
    body, in the path walk of [unix_read]; [st] is the state when the scan
    starts ([dir_inode_number] just set to 0). *)
Definition read_scan_body (d : Disk) (g : Garbage) (pathpart : list byte)
    (st : read_state) (x : Z)
  : option (step Z rscan_exit * list event) :=
  let dir_buffer := rs_dir_buffer st in
  if negb (dirent_inode g dir_buffer x =? 0) && (x <? 64) then
    if strlen pathpart >? 14 then
      (* Very funny. *)
      Some (Done (RScanReturn 0),
            [Printf "unixtool: No such file or directory (in image).\n" []])
    else if strncmp pathpart (dirent_name g dir_buffer x) 14 =? 0 then
      (* FOUND! *)
      match read_inode d g (swap_hword (dirent_inode g dir_buffer x)) with
      | (Fail rv, l) => Some (Done (RScanReturn rv), l)
      | (Ok file_inode, l) =>
          let number := swap_hword (dirent_inode g dir_buffer x) in
          let file_inode_number :=
            if type file_inode =? INODE_FT_FILE then number (* Regular file *)
            else rs_file_inode_number st in
          if type file_inode =? INODE_FT_DIR then
            (* Subdirectory *)
            match read_inode d g number with
            | (Fail rv, l') => Some (Done (RScanReturn rv), l ++ l')
            | (Ok dir_inode, l') =>
                Some (Done (RScanFound x
                              {| rs_dir_inode := dir_inode;
                                 rs_file_inode := file_inode;
                                 rs_dirblock := 0;
                                 rs_dir_buffer := dir_buffer;
                                 rs_dir_inode_number := number;
                                 rs_file_inode_number := file_inode_number |}),
                      l ++ l')
            end
          else
            Some (Done (RScanFound x
                          {| rs_dir_inode := rs_dir_inode st;
                             rs_file_inode := file_inode;
                             rs_dirblock := rs_dirblock st;
                             rs_dir_buffer := dir_buffer;
                             rs_dir_inode_number := rs_dir_inode_number st;
                             rs_file_inode_number := file_inode_number |}),
                  l)
      end
    else Some (Continue (x + 1), [])
  else Some (Done (RScanEnd x), []).

(** How the loop over the blocks of a directory ends in [unix_read]. *)
Inductive rblock_exit : Type :=
| RBlockReturn (rv : Z)
| RBlockDone (st : read_state).

(** One run of the body of [while (!done)] in the path walk of [unix_read]. *)
Definition read_block_body (d : Disk) (g : Garbage) (pathpart : list byte)
    (st : read_state)
  : option (step read_state rblock_exit * list event) :=
  let '(rv, dir_buffer, l) :=
    inode_block_read d g (rs_dirblock st) (rs_dir_inode st) (rs_dir_buffer st) in
  if rv <? 0 then Some (Done (RBlockReturn rv), l)
  else if rv =? 0 then Some (Done (RBlockReturn 0), l) (* EOF, we are done *)
  else
    let st0 :=
      {| rs_dir_inode := rs_dir_inode st;
         rs_file_inode := rs_file_inode st;
         rs_dirblock := rs_dirblock st;
         rs_dir_buffer := dir_buffer;
         rs_dir_inode_number := 0;
         rs_file_inode_number := rs_file_inode_number st |} in
    match loop scan_fuel (read_scan_body d g pathpart st0) 0 with
    | None => None
    | Some (RScanReturn rv', l') => Some (Done (RBlockReturn rv'), l ++ l')
    | Some (RScanFound x st', l') => Some (Done (RBlockDone st'), l ++ l')
    | Some (RScanEnd x, l') =>
        if x <? 64 then Some (Done (RBlockDone st0), l ++ l') (* We are done! *)
        else
          (* Read next block *)
          Some (Continue
                  {| rs_dir_inode := rs_dir_inode st0;
                     rs_file_inode := rs_file_inode st0;
                     rs_dirblock := rs_dirblock st0 + 1;
                     rs_dir_buffer := rs_dir_buffer st0;
                     rs_dir_inode_number := rs_dir_inode_number st0;
                     rs_file_inode_number := rs_file_inode_number st0 |},
                l ++ l')
    end.

(** How the walk over the components of the path ends in [unix_read]. *)
Inductive read_walk_exit : Type :=
| RdReturn (rv : Z)
| RdWalked (st : read_state).

(** The [while (pathpart != NULL)] loop of [unix_read]. *)
Fixpoint read_walk (d : Disk) (g : Garbage) (parts : list (list byte))
    (st : read_state) : option (read_walk_exit * list event) :=
  match parts with
  | [] => Some (RdWalked st, [])
  | pathpart :: parts' =>
      if negb (rs_file_inode_number st =? 0) then
        (* We already found a regular file? Something went wrong. *)
        Some (RdReturn 0,
              [Printf "unixtool: No such file or directory (found regular file early in image).\n" []])
      else
        let l0 := [Printf "pathpart: %s\n" [ArgS pathpart]] in
        match loop block_fuel (read_block_body d g pathpart) st with
        | None => None
        | Some (RBlockReturn rv, l) => Some (RdReturn rv, l0 ++ l)
        | Some (RBlockDone st', l) =>
            if (rs_dir_inode_number st' =? 0) && (rs_file_inode_number st' =? 0)
            then
              Some (RdReturn (-1),
                    l0 ++ l ++
                    [Printf "unixtool: No such file or directory (in image, path search).\n" []])
            else
              (* Otherwise obtain next part and carry on *)
              match read_walk d g parts' st' with
              | None => None
              | Some (r, l') => Some (r, l0 ++ l ++ l')
              end
        end
  end.

(** How the copy loop ends: with a return from the function, or normally with
    the number of octets written. *)
Inductive copy_exit : Type :=
| CopyReturn (rv : Z) (f : File)
| CopyEnd (x : Z) (f : File).

(** One test of [while (x < file_inode.size)] and one run of the body; the
    state is [x], [fileblock], the content of [file_buffer] and the open
    file. *)
Definition read_copy_body (d : Disk) (g : Garbage) (h : Host) (file_inode : Inode)
    (st : Z * Z * list byte * File)
  : option (step (Z * Z * list byte * File) copy_exit * list event) :=
  let '(x, fileblock, file_buffer, f) := st in
  if x <? size file_inode then
    let osize :=
      if u32 (size file_inode - x) <? 1024 then s32 (u32 (size file_inode - x))
      else 1024 in
    let '(rv, file_buffer, l) :=
      inode_block_read d g fileblock file_inode file_buffer in
    if rv <? 0 then Some (Done (CopyReturn rv f), l)
    else if rv =? 0 then
      (* EOF, we are done early? *)
      Some (Done (CopyReturn (-1) f),
            l ++ [Printf "unixtool: Unexpected end-of-file\n" []])
    else
      let out := firstn (Z.to_nat osize) file_buffer in
      match host_write h f out with
      | None =>
          Some (Done (CopyReturn (-1) f), l ++ [Perror "unixtool:write()"])
      | Some f' =>
          Some (Continue (u32 (x + osize), fileblock + 1, file_buffer, f'),
                l ++ [Write out])
      end
  else Some (Done (CopyEnd x f), []).

(** Enough iterations to copy [size] octets in blocks of 1024. *)
Definition copy_fuel (size : Z) : nat := S (Z.to_nat (size / 1024 + 1)).

(** The last part of [unix_read] ("Do the deed!"): copy the blocks of
    [file_inode] to the open file [f]. *)
Definition read_copy (d : Disk) (g : Garbage) (h : Host) (file_inode : Inode)
    (f : File) : option (Z * File * list event) :=
  let l1 := Printf "Copying %d bytes\n" [ArgI (size file_inode)] in
  match loop (copy_fuel (size file_inode)) (read_copy_body d g h file_inode)
             (0, 0, g_file_buffer g, f) with
  | None => None
  | Some (CopyReturn rv f', l) => Some (rv, f', l1 :: l)
  | Some (CopyEnd x f', l) =>
      Some (0, f',
            l1 :: l ++
            [Printf "Wrote %d of %d bytes\n" [ArgI x; ArgI (size file_inode)]])
  end.

(** The variables of [unix_read] when the walk starts, the root loaded. *)
Definition read_state0 (g : Garbage) (dir_inode : Inode) : read_state :=
  {| rs_dir_inode := dir_inode;
     rs_file_inode := g_file_inode g;
     rs_dirblock := 0;
     rs_dir_buffer := g_dir_buffer g;
     rs_dir_inode_number := 0;
     rs_file_inode_number := 0 |}.

(** [unix_read(path, filename)]: the value returned, the host afterwards and
    the log, [None] if a loop ran out of fuel. *)
Definition unix_read (d : Disk) (g : Garbage) (h : Host) (path : list byte)
  : option (Z * Host * list event) :=
  (* Fast checks *)
  if negb (Byte.eqb (hd x00 path) x2f) then
    Some (-1, h, [Printf "unixtool: read: Invalid path\n" []])
  else
    (* Open target *)
    match host_open h [O_RDWR; O_CREAT] with
    | None => Some (-1, h, [Perror "unixtool:open()"])
    | Some c =>
        let f := {| contents := c; pos := 0 |} in
        (* Load the root directory *)
        match read_inode d g 2 with
        | (Fail rv, l) => Some (rv, host_with h f, l)
        | (Ok dir_inode, l) =>
            (* Walk path *)
            match read_walk d g (strtok_all path) (read_state0 g dir_inode) with
            | None => None
            | Some (RdReturn rv, l') => Some (rv, host_with h f, l ++ l')
            | Some (RdWalked st', l') =>
                if rs_file_inode_number st' =? 0 then
                  Some (0, host_with h f,
                        l ++ l' ++
                        [Printf "unixtool: No such file or directory (in image, file read).\n" []])
                else
                  match read_copy d g h (rs_file_inode st') f with
                  | None => None
                  | Some (rv, f', l'') => Some (rv, host_with h f', l ++ l' ++ l'')
                  end
            end
        end
    end.

(** ** [main] *)

(** The members of the packed [SuperBlock] and their sizes in octets. *)
Definition SuperBlock_members : list (string * Z) :=
  [("isize", 2); ("fsize", 4); ("nfree", 2); ("free", 4 * 50); ("ninode", 2);
   ("inode", 2 * 100); ("flock", 1); ("ilock", 1); ("fmod", 1);
   ("readonly", 1); ("time", 4); ("dinfo", 2 * 4); ("tfree", 4);
   ("tinode", 2); ("fname", 6); ("fpack", 6); ("fill", 572); ("magic", 4);
   ("type", 4)].

Definition sizeof_SuperBlock : Z :=
  fold_right (fun m acc => snd m + acc) 0 SuperBlock_members.

Fixpoint offsetof (members : list (string * Z)) (name : string) : Z :=
  match members with
  | [] => 0
  | (n, sz) :: members' =>
      if String.eqb n name then 0 else sz + offsetof members' name
  end.

(** [superblock->magic]: the 32-bit word at the offset of [magic], as the host
    loads it. *)
Definition superblock_magic (superblock_buffer : list byte) : Z :=
  le32 superblock_buffer (offsetof SuperBlock_members "magic").

Definition bytes (s : string) : list byte := list_byte_of_string s.

Definition dquote : string := String (ascii_of_nat 34) EmptyString.

Definition see_help : string :=
  String.append "See "
    (String.append dquote
       (String.append "unixtool help"
          (String.append dquote " for usage information.\n"))).

Definition usage : list event :=
  [Printf "TI/LMI unixtool v0.0.1\n\n" [];
   Printf "Usage: unixtool <command> <image file> [parameters]...\n\n" [];
   Printf " Commands:\n\n" [];
   Printf "   help       Prints this information\n\n" [];
   Printf "   ls         Lists the given directory\n" [];
   Printf "                Parameters: <directory>\n\n" [];
   Printf "   read       Copy path from image file to destination\n" [];
   Printf "                Parameters: <source path> <destination>\n\n" []].

Definition bad_magic_fmt : string :=
  "unixtool: Bad superblock magic: Expected 0x207E18FD, got 0x%.8X\n".

(** [main(argc, argv)].  [disk] is what [open(disk_fname, O_RDWR)] gives:
    the image, or [None] when it fails.  [superblock_buffer] has static
    storage, so it starts zeroed.  [argv[4]] names the destination that [h]
    describes. *)
Definition main (argv : list (list byte)) (disk : option Disk) (h : Host)
    (g : Garbage) : option (Z * Host * list event) :=
  let argc := Z.of_nat (length argv) in
  let arg_at (k : nat) := nth k argv [] in
  (* Sigh. *)
  if negb (sizeof_SuperBlock =? 1024) then
    Some (-1, h,
          [Printf "SOMETHING IS BROKEN: SUPERBLOCK SIZE %ld\n"
                  [ArgI sizeof_SuperBlock]])
  else if (argc <? 2) || (strncmp (arg_at 1%nat) (bytes "help") 4 =? 0)
          || (strncmp (arg_at 1%nat) (bytes "-?") 2 =? 0) then
    Some (0, h, usage)
  else if argc <? 3 then
    Some (-1, h,
          [Printf (String.append
                     "unixtool: Band image file name is required; " see_help)
                  []])
  else
    (* We have a disk filename, so open it. *)
    match disk with
    | None => Some (-1, h, [Perror "unixtool: disk open()"])
    | Some d =>
        (* Read in and check superblock *)
        let '(rv, superblock_buffer, l) :=
          disk_block_read d 1 (repeat x00 1024) in
        if rv <? 0 then Some (rv, h, l)
        else if negb (superblock_magic superblock_buffer =? 0x207E18FD) then
          Some (-1, h,
                l ++
                [Printf bad_magic_fmt [ArgI (superblock_magic superblock_buffer)]])
        else
          (* Select option (or bail) *)
          if strncmp (arg_at 1%nat) (bytes "ls") 2 =? 0 then
            if argc <? 4 then
              Some (-1, h, l ++ [Printf "unixtool: ls: directory path is required\n" []])
            else
              match unix_ls d g (arg_at 3%nat) with
              | None => None
              | Some (rv', l') => Some (rv', h, l ++ l')
              end
          else if strncmp (arg_at 1%nat) (bytes "read") 4 =? 0 then
            if argc <? 4 then
              Some (-1, h, l ++ [Printf "unixtool: read: source path is required\n" []])
            else if argc <? 5 then
              Some (-1, h,
                    l ++ [Printf "unixtool: read: destination path is required\n" []])
            else
              match unix_read d g h (arg_at 3%nat) with
              | None => None
              | Some (rv', h', l') => Some (rv', h', l ++ l')
              end
          else
            Some (-1, h,
                  l ++ [Printf (String.append "unixtool: Unknown parameters; " see_help) []])
    end.

(** ** Synthetic images *)

(** The encoder side of the format, used to build the images the scenarios
    run on. *)
Module Fixture.

Definition enc16 (v : Z) : list byte := [z2b (Z.shiftr v 8); z2b v].

Definition enc24 (v : Z) : list byte :=
  [z2b (Z.shiftr v 16); z2b (Z.shiftr v 8); z2b v].

Definition enc32 (v : Z) : list byte :=
  [z2b (Z.shiftr v 24); z2b (Z.shiftr v 16); z2b (Z.shiftr v 8); z2b v].

(** [bs] cut or zero-padded to [n] octets. *)
Definition pad (n : nat) (bs : list byte) : list byte :=
  firstn n (bs ++ repeat x00 n).

(** The 64-octet on-disk inode: the mode word holds the type in its upper
    4 bits and the mode in its lower 12. *)
Definition enc_inode (i : Inode) : list byte :=
  enc16 (Z.lor (Z.shiftl (type i) 12) (mode i)) ++ enc16 (nlink i)
  ++ enc16 (uid i) ++ enc16 (gid i) ++ enc32 (size i)
  ++ pad 40 (flat_map enc24 (addr i))
  ++ enc32 (atime i) ++ enc32 (mtime i) ++ enc32 (ctime i).

Definition enc_dirent_raw (ino : Z) (name : list byte) : list byte :=
  enc16 ino ++ pad 14 name.

Definition enc_dirent (ino : Z) (name : string) : list byte :=
  enc_dirent_raw ino (bytes name).

(** [img] with [bs] stored from octet [off] on. *)
Definition put (off : nat) (bs img : list byte) : list byte :=
  firstn off img ++ bs ++ skipn (off + length bs) img.

Definition put_inode (number : Z) (i : Inode) (img : list byte) : list byte :=
  put (Z.to_nat (0x7C0 + number * 0x40)) (enc_inode i) img.

Definition put_block (p : Z) (bs img : list byte) : list byte :=
  put (Z.to_nat (p * 1024)) (pad 1024 bs) img.

Definition blank (blocks : nat) : list byte := repeat x00 (blocks * 1024).

(** The superblock magic as the tool expects to find it: the host loads
    0x207E18FD from the four octets at offset 1016 of block 1. *)
Definition put_magic (img : list byte) : list byte :=
  put (1024 + 1016) [xfd; x18; x7e; x20] img.

Definition mk_inode (t m sz : Z) (addrs : list Z) : Inode :=
  {| mode := m; type := t; nlink := 1; uid := 0; gid := 0; size := sz;
     addr := addrs ++ repeat 0 (13 - length addrs);
     atime := 0; mtime := 0; ctime := 0 |}.

Definition no_fault : Z -> bool := fun _ => false.

Definition garbage0 : Garbage :=
  {| g_raw_inode := repeat xaa 64;
     g_indirect_block := repeat xaa 1024;
     g_first_indirect_block := repeat xaa 1024;
     g_second_indirect_block := repeat xaa 1024;
     g_dir_buffer := repeat xaa 1024;
     g_file_buffer := repeat xaa 1024;
     g_past_dir_buffer := repeat xaa 16;
     g_past_permbuf := [x00];
     g_file_inode := mk_inode 0 0 0 [] |}.

(** Octet [k mod 251] repeated: recognisable file content. *)
Definition pattern (start : Z) (n : nat) : list byte :=
  map (fun k => z2b ((start + Z.of_nat k) mod 251)) (seq 0 n).

(** The image of the path scenario: the root (inode 2, block 5) holds
    [bin -> 10], [bin] (a directory, block 6) holds [sh -> 42], and inode 42
    is a regular file of 1500 octets in blocks 7 and 8. *)
Definition scenario_image : list byte :=
  Eval vm_compute in
    put_magic
      (put_inode 2 (mk_inode INODE_FT_DIR 493 48 [5])
      (put_inode 10 (mk_inode INODE_FT_DIR 493 48 [6])
      (put_inode 42 (mk_inode INODE_FT_FILE 420 1500 [7; 8])
      (put_block 5 (enc_dirent 2 "." ++ enc_dirent 2 ".." ++ enc_dirent 10 "bin")
      (put_block 6 (enc_dirent 10 "." ++ enc_dirent 2 ".." ++ enc_dirent 42 "sh")
      (put_block 7 (pattern 0 1024)
      (put_block 8 (pattern 1024 1024)
      (blank 9)))))))).

Definition scenario_disk : Disk :=
  {| image := scenario_image; faulty := no_fault |}.

Definition host0 : Host :=
  {| dest := None; open_fails := false; write_fails := no_fault |}.

(** An image with indirection.  Inode 5 is a regular file of 11564 octets:
    logical blocks 0..9 are the physical blocks 7..16, block 4 is its
    indirect block with the entries 17, 18, 0, 0, ..., and block 5 its
    double-indirect block, whose entry 0 names block 6 with the entries
    19, 0, 0, ....  Inode 6 has a hole at logical block 2 though its size
    asks for three blocks; inode 7 is inode 5 with a size of 13 blocks;
    inode 8 is a file of 12 blocks without an indirect block.  Block 0
    holds octets 0xB0. *)
Definition file_addrs : list Z := [7; 8; 9; 10; 11; 12; 13; 14; 15; 16; 4; 5].

Definition fill_blocks (ps : list Z) (img : list byte) : list byte :=
  fold_right (fun p acc => put_block p (pattern (p * 7) 1024) acc) img ps.

Definition indirect_image : list byte :=
  put_magic
    (put_inode 2 (mk_inode INODE_FT_DIR 493 80 [3])
    (put_inode 5 (mk_inode INODE_FT_FILE 420 11564 file_addrs)
    (put_inode 6 (mk_inode INODE_FT_FILE 420 3000 [7; 8])
    (put_inode 7 (mk_inode INODE_FT_FILE 420 13312 file_addrs)
    (put_inode 8 (mk_inode INODE_FT_FILE 420 12288
                           [7; 8; 9; 10; 11; 12; 13; 14; 15; 16])
    (put_block 0 (repeat xb0 1024)
    (put_block 3 (enc_dirent 2 "." ++ enc_dirent 5 "big"
                  ++ enc_dirent 6 "holed" ++ enc_dirent 7 "toolong"
                  ++ enc_dirent 8 "noind")
    (put_block 4 (enc32 17 ++ enc32 18)
    (put_block 5 (enc32 6)
    (put_block 6 (enc32 19)
    (fill_blocks [7; 8; 9; 10; 11; 12; 13; 14; 15; 16; 17; 18; 19]
    (blank 20)))))))))))).

Definition indirect_disk : Disk :=
  {| image := indirect_image; faulty := no_fault |}.

Definition inode5 : Inode := mk_inode INODE_FT_FILE 420 11564 file_addrs.

(** An image that ends in the middle of block 1. *)
Definition short_disk : Disk :=
  {| image := repeat x11 1500; faulty := no_fault |}.

(** The image of the listing scenario: the only block of the root (block 3)
    holds the entries (5, "foo"), (0, empty) and, after them, a stale entry
    (9, "hidden"). *)
Definition foo_image : list byte :=
  Eval vm_compute in
    put_magic
      (put_inode 2 (mk_inode INODE_FT_DIR 493 32 [3])
      (put_inode 5 (mk_inode INODE_FT_FILE 420 0 [])
      (put_block 3 (enc_dirent 5 "foo" ++ enc_dirent 0 EmptyString
                    ++ enc_dirent 9 "hidden")
      (blank 4)))).

Definition foo_disk : Disk := {| image := foo_image; faulty := no_fault |}.

(** The name of the [k]-th entry of the full block: "e00", ..., "e63". *)
Definition full_name (k : nat) : list byte :=
  ["e"%byte; z2b (48 + Z.of_nat k / 10); z2b (48 + Z.of_nat k mod 10)].

(** An image whose root has two blocks: block 3 is full, 64 entries for
    inode 5 and none with inode number 0, and block 4 holds (5, "last") and
    then an entry with inode number 0. *)
Definition full_image : list byte :=
  Eval vm_compute in
    put_magic
      (put_inode 2 (mk_inode INODE_FT_DIR 493 1040 [3; 4])
      (put_inode 5 (mk_inode INODE_FT_FILE 420 0 [])
      (put_block 3 (flat_map (fun k => enc_dirent_raw 5 (full_name k)) (seq 0 64))
      (put_block 4 (enc_dirent 5 "last")
      (blank 5))))).

Definition full_disk : Disk := {| image := full_image; faulty := no_fault |}.

(** An image whose root has one block (block 3), all zero: the block begins
    with an entry with inode number 0. *)
Definition empty_root_image : list byte :=
  Eval vm_compute in
    put_magic (put_inode 2 (mk_inode INODE_FT_DIR 493 0 [3]) (blank 4)).

Definition empty_root_disk : Disk :=
  {| image := empty_root_image; faulty := no_fault |}.

(** A component of 15 octets, and a path made of it. *)
Definition long_name : list byte := repeat "a"%byte 15.

Definition long_path : list byte := "/"%byte :: long_name.

(** The image of the superblock scenario: the path scenario image with the
    magic of block 1 set to 0x00000000. *)
Definition bad_magic_image : list byte :=
  Eval vm_compute in put (1024 + 1016) [x00; x00; x00; x00] scenario_image.

Definition bad_magic_disk : Disk :=
  {| image := bad_magic_image; faulty := no_fault |}.

(** The command lines [unixtool ls img /] and [unixtool read img /bin/sh out]. *)
Definition argv_ls : list (list byte) :=
  [bytes "unixtool"; bytes "ls"; bytes "img"; bytes "/"].

Definition argv_read : list (list byte) :=
  [bytes "unixtool"; bytes "read"; bytes "img"; bytes "/bin/sh"; bytes "out"].

Definition inode6 : Inode := mk_inode INODE_FT_FILE 420 3000 [7; 8].

(** The address map of inodes 5 and 6: logical block [k] is block [7 + k]. *)
Definition phys5 (k : Z) : Z := 7 + k.

(** A destination just created: empty, at offset 0. *)
Definition file0 : File := {| contents := []; pos := 0 |}.

(** A host where the destination exists and holds 2000 octets 0xEE. *)
Definition host_old : Host :=
  {| dest := Some (repeat xee 2000); open_fails := false;
     write_fails := no_fault |}.

(** An inode whose fields all differ from their byte-swapped values, and an
    image that holds it as inode 3. *)
Definition stamped_inode : Inode :=
  {| mode := 420; type := INODE_FT_FILE; nlink := 2; uid := 258; gid := 772;
     size := 66051;
     addr := [7; 8; 66051] ++ repeat 0 10;
     atime := 16909060; mtime := 84281096; ctime := 151653132 |}.

Definition stamped_image : list byte :=
  Eval vm_compute in put_inode 3 stamped_inode (blank 3).

Definition stamped_disk : Disk :=
  {| image := stamped_image; faulty := no_fault |}.

(** The image of the path scenario with a [bin] whose only block is full:
    64 entries, among them [sh -> 42], none with inode number 0 and none
    named nope. *)
Definition full_bin_image : list byte :=
  Eval vm_compute in
    put_magic
      (put_inode 2 (mk_inode INODE_FT_DIR 493 48 [5])
      (put_inode 10 (mk_inode INODE_FT_DIR 493 1024 [6])
      (put_inode 42 (mk_inode INODE_FT_FILE 420 1500 [7; 8])
      (put_block 5 (enc_dirent 2 "." ++ enc_dirent 2 ".." ++ enc_dirent 10 "bin")
      (put_block 6 (enc_dirent 10 "." ++ enc_dirent 2 ".." ++ enc_dirent 42 "sh"
                    ++ flat_map (fun k => enc_dirent_raw 42 (full_name k))
                                (seq 3 61))
      (put_block 7 (pattern 0 1024)
      (put_block 8 (pattern 1024 1024)
      (blank 9)))))))).

Definition full_bin_disk : Disk :=
  {| image := full_bin_image; faulty := no_fault |}.

End Fixture.

(** ** Specification-side notions *)

(** Block [p] of the image can be read in full: it lies inside the image, its
    octet offset is a non-negative [int], and the device reads it. *)
Definition readable (d : Disk) (p : Z) : Prop :=
  0 <= p /\ p * 1024 < 2 ^ 31 /\
  p * 1024 + 1024 <= Z.of_nat (length (image d)) /\
  faulty d (p * 1024) = false.

(** The 1024 octets of block [p]. *)
Definition block_of (d : Disk) (p : Z) : list byte :=
  firstn 1024 (skipn (Z.to_nat (p * 1024)) (image d)).

(** An inode as [read_inode] produces it: 13 addresses of 24 bits and a
    32-bit size. *)
Definition wf_inode (i : Inode) : Prop :=
  length (addr i) = 13%nat /\
  Forall (fun a => 0 <= a < 2 ^ 24) (addr i) /\
  0 <= size i < 2 ^ 32.

(** The seek offsets in a log, in order: which parts of the image were
    read. *)
Fixpoint seeks (l : list event) : list Z :=
  match l with
  | [] => []
  | Lseek off :: l' => off :: seeks l'
  | _ :: l' => seeks l'
  end.

(** The octets written to the destination in a log, in order. *)
Fixpoint written (l : list event) : list byte :=
  match l with
  | [] => []
  | Write bs :: l' => bs ++ written l'
  | _ :: l' => written l'
  end.

(** [r], a result of [inode_block_read] with buffer [buf], is the read of
    physical block [p] after the indirect blocks [indirect]: the value and the
    buffer are those of [disk_block_read d p buf], and the image was accessed
    at the indirect blocks, in this order, and then for block [p]. *)
Definition resolved_to (d : Disk) (buf : list byte) (indirect : list Z) (p : Z)
    (r : Z * list byte * list event) : Prop :=
  fst r = fst (disk_block_read d p buf) /\
  seeks (snd r)
  = map (fun b => b * 1024) indirect ++ seeks (snd (disk_block_read d p buf)).

(** The events of the decode engine proper: everything but a write to the
    destination and the complaint about the superblock magic. *)
Definition plain (e : event) : bool :=
  match e with
  | Write _ => false
  | Printf fmt _ => negb (String.eqb fmt bad_magic_fmt)
  | _ => true
  end.

(** The same, writes allowed. *)
Definition no_magic (e : event) : bool :=
  match e with
  | Printf fmt _ => negb (String.eqb fmt bad_magic_fmt)
  | _ => true
  end.

(** The open destination [f] after the octets [w] were written to it from
    offset 0 on, [old] being its content when it was opened. *)
Definition file_is (old w : list byte) (f : File) : Prop :=
  contents f = w ++ skipn (length w) old /\ pos f = Z.of_nat (length w).

(** The open file an exit of the copy loop leaves. *)
Definition copy_file (r : copy_exit) : File :=
  match r with
  | CopyReturn _ f => f
  | CopyEnd _ f => f
  end.

(** The address map of [inode] gives physical block [p] for logical block
    [k]: directly, through the indirect block, or through the two levels of
    the double-indirect block, the indirect blocks being readable. *)
Definition maps_to (d : Disk) (inode : Inode) (k p : Z) : Prop :=
  (0 <= k < 10 /\ p = addr_at inode k) \/
  (10 <= k < 266 /\ readable d (addr_at inode 10) /\
   p = swap_word (le32 (image d) (addr_at inode 10 * 1024 + 4 * (k - 10)))) \/
  (266 <= k < 65802 /\ readable d (addr_at inode 11) /\
   let firstOffset := (k - 266) / 256 in
   let secondOffset := (k - 266) - firstOffset * 256 in
   let first :=
     swap_word (le32 (image d) (addr_at inode 11 * 1024 + 4 * firstOffset)) in
   readable d first /\
   p = swap_word (le32 (image d) (first * 1024 + 4 * secondOffset))).

(** The address map supplies a block for logical block [k]: it gives a
    non-zero physical block that can be read. *)
Definition supplies (d : Disk) (inode : Inode) (phys : Z -> Z) (k : Z) : Prop :=
  maps_to d inode k (phys k) /\ phys k <> 0 /\ readable d (phys k).

(** The content of the logical blocks [k], [k + 1], ..., [k + j - 1]. *)
Definition file_blocks (d : Disk) (phys : Z -> Z) (k : Z) (j : nat) : list byte :=
  flat_map (fun i => block_of d (phys (k + Z.of_nat i))) (seq 0 j).

(** The sizes of the writes in a log, in order. *)
Fixpoint write_sizes (l : list event) : list Z :=
  match l with
  | [] => []
  | Write bs :: l' => Z.of_nat (length bs) :: write_sizes l'
  | _ :: l' => write_sizes l'
  end.

(** The directory scan as the specification words it: the entries of a
    directory block in order, stopping at the first entry with inode number 0
    or after 64 entries, whichever comes first.  An entry is its inode number
    (big-endian on disk) and its 14-octet name field. *)
Definition entry_inode (buffer : list byte) (k : nat) : Z :=
  be16 buffer (16 * Z.of_nat k).

Definition entry_name (buffer : list byte) (k : nat) : list byte :=
  firstn 14 (skipn (16 * k + 2) buffer).

Fixpoint scan_from (buffer : list byte) (k n : nat) : list (Z * list byte) :=
  match n with
  | O => []
  | S n' =>
      if entry_inode buffer k =? 0 then []
      else (entry_inode buffer k, entry_name buffer k) :: scan_from buffer (S k) n'
  end.

Definition scanBlock (buffer : list byte) : list (Z * list byte) :=
  scan_from buffer 0 64.

(** The inode [read_inode] produces for [number] when the device reads the
    record (what lies past the end of the image is left as it was in
    [raw_inode]). *)
Definition loaded_inode (d : Disk) (g : Garbage) (number : Z) : Inode :=
  decode_inode
    (fill (g_raw_inode g)
          (firstn 64 (skipn (Z.to_nat (0x7C0 + number * 0x40)) (image d)))).

(** What the printing scan logs for the entry at index [k]: the read of its
    inode and its line. *)
Definition ls_entry_log (d : Disk) (g : Garbage) (dir_buffer : list byte) (k : nat)
  : list event :=
  [Lseek (0x7C0 + entry_inode dir_buffer k * 0x40); Read 0x40;
   ls_line g dir_buffer (Z.of_nat k)
           (loaded_inode d g (entry_inode dir_buffer k))].

(** The names on the lines of a listing in a log, in order. *)
Fixpoint listed (l : list event) : list (list byte) :=
  match l with
  | [] => []
  | Printf "%s  %2d %.6o  %.6o  %7d %s %s\n" [_; _; _; _; _; _; ArgS name] :: l' =>
      name :: listed l'
  | _ :: l' => listed l'
  end.

(** The messages of the path walks. *)
Definition msg_pathpart (pathpart : list byte) : event :=
  Printf "pathpart: %s\n" [ArgS pathpart].

Definition msg_name_too_long : event :=
  Printf "unixtool: No such file or directory (in image).\n" [].

Definition msg_not_found : event :=
  Printf "unixtool: No such file or directory (in image, path search).\n" [].

Definition msg_file_early : event :=
  Printf "unixtool: No such file or directory (found regular file early in image).\n" [].

(** The name-too-long outcome of an operation: it returns 0 and its last
    message is "No such file or directory (in image)". *)
Definition name_too_long_outcome (r : option (Z * list event)) : Prop :=
  exists l, r = Some (0, l ++ [msg_name_too_long]).

(** The outcome of [main] on an image it rejects for its superblock: it
    returns -1, the only accesses to the image are the seek to block 1 and
    its read, the last message is the complaint about the magic, and the
    host is as it was. *)
Definition invalid_image_outcome (h : Host)
    (r : option (Z * Host * list event)) : Prop :=
  exists m,
    r = Some (-1, h, [Lseek 1024; Read 1024; Printf bad_magic_fmt [ArgI m]]).

(** A path component as [strtok] yields it and a directory can hold it: no
    NUL in it and at most 14 octets. *)
Definition proper_name (name : list byte) : Prop :=
  cstr name = name /\ (length name <= 14)%nat.

(** Among the entries the scan of the block [buf] yields, [name] first occurs
    at index [k], with inode number [number]. *)
Definition block_has (buf name : list byte) (k : nat) (number : Z) : Prop :=
  (k < length (scanBlock buf))%nat /\
  (forall j, (j < k)%nat -> cstr (entry_name buf j) <> name) /\
  cstr (entry_name buf k) = name /\
  entry_inode buf k = number.

(** None of the entries the scan of the block [buf] yields is named [name]. *)
Definition block_lacks (buf name : list byte) : Prop :=
  forall j, (j < length (scanBlock buf))%nat -> cstr (entry_name buf j) <> name.

(** A lookup of [name] in [dir] passes over the logical blocks below [b]: the
    address map [phys] of [dir] supplies each of them, each is full (64
    entries, none with inode number 0), and none of its entries is named
    [name]. *)
Definition passes (d : Disk) (dir : Inode) (phys : Z -> Z) (name : list byte)
    (b : nat) : Prop :=
  forall i, (i < b)%nat ->
    supplies d dir phys (Z.of_nat i) /\
    length (scanBlock (block_of d (phys (Z.of_nat i)))) = 64%nat /\
    block_lacks (block_of d (phys (Z.of_nat i))) name.

(** The lookup of [name] in [dir] meets it in logical block [b]: the blocks
    before are passed over, block [b] is supplied, and [name] is the name of
    one of the entries its scan yields, the first with this name having inode
    number [number]. *)
Definition found_in (d : Disk) (dir : Inode) (phys : Z -> Z) (b : nat)
    (name : list byte) (number : Z) : Prop :=
  passes d dir phys name b /\
  supplies d dir phys (Z.of_nat b) /\
  exists k, block_has (block_of d (phys (Z.of_nat b))) name k number.

(** Directory [dir] contains the entry [name -> number], in any of its
    blocks. *)
Definition has_entry (d : Disk) (dir : Inode) (name : list byte) (number : Z)
  : Prop :=
  exists phys b, found_in d dir phys b name number.

(** The lookup of [name] in [dir] ends at a free slot without meeting it:
    after the blocks it passes over comes a block that is not full and has
    no entry named [name] before its first entry with inode number 0. *)
Definition ends_at_slot (d : Disk) (dir : Inode) (phys : Z -> Z) (b : nat)
    (name : list byte) : Prop :=
  passes d dir phys name b /\
  supplies d dir phys (Z.of_nat b) /\
  (length (scanBlock (block_of d (phys (Z.of_nat b)))) < 64)%nat /\
  block_lacks (block_of d (phys (Z.of_nat b))) name.

Definition lacks_entry (d : Disk) (dir : Inode) (name : list byte) : Prop :=
  exists phys b, ends_at_slot d dir phys b name.

(** The lookup of [name] in [dir] runs off the end of the directory without
    meeting it: every block of [dir] is full and has no entry named [name],
    and for the logical block after them the resolver returns 0 (end of
    data). *)
Definition ends_at_eof (d : Disk) (g : Garbage) (dir : Inode) (phys : Z -> Z)
    (b : nat) (name : list byte) : Prop :=
  passes d dir phys name b /\
  forall buf, fst (fst (inode_block_read d g (Z.of_nat b) dir buf)) = 0.

Definition lacks_entry_full (d : Disk) (g : Garbage) (dir : Inode)
    (name : list byte) : Prop :=
  exists phys b, ends_at_eof d g dir phys b name.

(** The accesses of [read_inode] for inode [number]. *)
Definition inode_read_log (number : Z) : list event :=
  [Lseek (0x7C0 + number * 0x40); Read 0x40].

(** What a lookup logs when it finds an entry for inode [number]: the inode
    is read, and read once more when it is a directory. *)
Definition found_log (d : Disk) (g : Garbage) (number : Z) : list event :=
  inode_read_log number
  ++ (if type (loaded_inode d g number) =? INODE_FT_DIR
      then inode_read_log number else []).

(** What the lookup of [unix_ls] leaves when it finds an entry for inode
    [number] in the block [buf], logical block [dirblock] of [dir]: a
    directory becomes the current directory, anything else leaves
    [dir_inode_number] 0. *)
Definition ls_found (d : Disk) (g : Garbage) (dir : Inode) (dirblock : Z)
    (buf : list byte) (number : Z) : block_exit :=
  let ino := loaded_inode d g number in
  if type ino =? INODE_FT_DIR then BlockDone number ino 0 buf
  else BlockDone 0 dir dirblock buf.

(** The same for [unix_read], from the state [st] in which the block was
    read: a directory becomes the current directory, a regular file the file
    to copy. *)
Definition read_found (d : Disk) (g : Garbage) (st : read_state)
    (buf : list byte) (number : Z) : read_state :=
  let ino := loaded_inode d g number in
  {| rs_dir_inode := if type ino =? INODE_FT_DIR then ino else rs_dir_inode st;
     rs_file_inode := ino;
     rs_dirblock := if type ino =? INODE_FT_DIR then 0 else rs_dirblock st;
     rs_dir_buffer := buf;
     rs_dir_inode_number := if type ino =? INODE_FT_DIR then number else 0;
     rs_file_inode_number :=
       if type ino =? INODE_FT_FILE then number else rs_file_inode_number st |}.

(** The state of [unix_read] when the scan of a block it read into [buf]
    starts, and when it goes on to the next block. *)
Definition read_scanning (st : read_state) (buf : list byte) : read_state :=
  {| rs_dir_inode := rs_dir_inode st;
     rs_file_inode := rs_file_inode st;
     rs_dirblock := rs_dirblock st;
     rs_dir_buffer := buf;
     rs_dir_inode_number := 0;
     rs_file_inode_number := rs_file_inode_number st |}.

Definition read_next_block (st : read_state) (buf : list byte) : read_state :=
  {| rs_dir_inode := rs_dir_inode st;
     rs_file_inode := rs_file_inode st;
     rs_dirblock := rs_dirblock st + 1;
     rs_dir_buffer := buf;
     rs_dir_inode_number := 0;
     rs_file_inode_number := rs_file_inode_number st |}.

(** The state of [unix_read] in a directory just entered: the directory is
    the current one, no block of it was passed, no regular file was found. *)
Definition in_dir (st : read_state) (dir : Inode) : Prop :=
  rs_dir_inode st = dir /\ rs_dirblock st = 0 /\
  length (rs_dir_buffer st) = 1024%nat /\ rs_file_inode_number st = 0.

(** Decision procedures for the two cases of a lookup in a block. *)
Fixpoint bytes_eqb (a b : list byte) : bool :=
  match a, b with
  | [], [] => true
  | x :: a', y :: b' => Byte.eqb x y && bytes_eqb a' b'
  | _, _ => false
  end.

Definition names_differ (buf name : list byte) (m : nat) : bool :=
  forallb (fun j => negb (bytes_eqb (cstr (entry_name buf j)) name)) (seq 0 m).

Definition block_lacksb (buf name : list byte) : bool :=
  names_differ buf name (length (scanBlock buf)).

Definition block_hasb (buf name : list byte) (k : nat) (number : Z) : bool :=
  (k <? length (scanBlock buf))%nat && names_differ buf name k
  && bytes_eqb (cstr (entry_name buf k)) name && (entry_inode buf k =? number).

(** The log of a walk that met nothing to complain about: accesses to the
    image, the trace lines of the resolver and the echo of the components. *)
Definition walk_trace (e : event) : bool :=
  match e with
  | Lseek _ | Read _ => true
  | Printf fmt _ =>
      String.prefix "inode_block_read(" fmt || String.eqb fmt "pathpart: %s\n"
  | _ => false
  end.

(** What the walk of [unix_read] keeps of its variables: the block number is
    not negative, and the file inode was loaded once its number is set. *)
Definition walk_inv (st : read_state) : Prop :=
  0 <= rs_dirblock st /\
  (rs_file_inode_number st = 0 \/ wf_inode (rs_file_inode st)).

(** The complaint of [unix_read] when the path names no regular file. *)
Definition msg_file_read : event :=
  Printf "unixtool: No such file or directory (in image, file read).\n" [].

(** The values the operations of the tool return. *)
Definition status (rv : Z) : Prop := rv = 0 \/ rv = -1.

(** * Properties *)

(** ** Integers and octets *)

Lemma s32_small (x : Z) : - 2 ^ 31 <= x < 2 ^ 31 -> s32 x = x.
Proof.
  intros H. unfold s32. rewrite Z.mod_small; lia.
Qed.

Lemma b2z_range (b : byte) : 0 <= b2z b < 256.
Proof.
  unfold b2z. pose proof (Byte.to_N_bounded b). lia.
Qed.

Lemma byte_at_range (buf : list byte) (i : Z) : 0 <= byte_at buf i < 256.
Proof.
  unfold byte_at. destruct (i <? 0); [lia | apply b2z_range].
Qed.

Lemma land_ones8 (x : Z) : 0 <= x < 256 -> x = Z.land x (Z.ones 8).
Proof.
  intros H. rewrite Z.land_ones by lia. symmetry. apply Z.mod_small. lia.
Qed.

(** Bitwise equalities between words built from octets: bit-blast, decide the
    comparisons of bit indices, drop the bits at negative indices. *)
Ltac bool_tidy :=
  rewrite ?andb_false_r, ?andb_true_r, ?orb_false_r, ?orb_false_l,
    ?andb_false_l, ?andb_true_l, ?orb_true_r, ?orb_true_l.

Ltac octet_bits :=
  Z.bitblast;
  rewrite ?Z.land_spec, ?Z.testbit_ones_nonneg by lia;
  repeat match goal with
         | |- context [?a <? ?b] => destruct (Z.ltb_spec a b); try lia
         end;
  bool_tidy; simpl; bool_tidy; try reflexivity;
  repeat match goal with
         | |- context [Z.testbit ?x ?i] => rewrite (Z.testbit_neg_r x i) by lia
         end;
  bool_tidy; simpl; bool_tidy; try reflexivity.

Lemma swap_word_octets (a b c e : Z) :
  0 <= a < 256 -> 0 <= b < 256 -> 0 <= c < 256 -> 0 <= e < 256 ->
  swap_word (Z.lor (Z.lor a (Z.shiftl b 8)) (Z.lor (Z.shiftl c 16) (Z.shiftl e 24)))
  = Z.lor (Z.lor (Z.shiftl a 24) (Z.shiftl b 16)) (Z.lor (Z.shiftl c 8) e).
Proof.
  intros Ha Hb Hc He.
  rewrite (land_ones8 a Ha), (land_ones8 b Hb), (land_ones8 c Hc), (land_ones8 e He).
  unfold swap_word.
  change 0xFF000000 with (Z.shiftl (Z.ones 8) 24).
  change 0x00FF0000 with (Z.shiftl (Z.ones 8) 16).
  change 0x0000FF00 with (Z.shiftl (Z.ones 8) 8).
  change 0x000000FF with (Z.ones 8).
  octet_bits.
Qed.

Lemma swap_hword_octets (a b : Z) :
  0 <= a < 256 -> 0 <= b < 256 ->
  swap_hword (Z.lor a (Z.shiftl b 8)) = Z.lor (Z.shiftl a 8) b.
Proof.
  intros Ha Hb.
  rewrite (land_ones8 a Ha), (land_ones8 b Hb).
  unfold swap_hword, u16.
  change 0xFF00 with (Z.shiftl (Z.ones 8) 8).
  change 0x00FF with (Z.ones 8).
  rewrite <- Z.land_ones by lia.
  octet_bits.
Qed.

(** Swapping what the little-endian host loads gives the big-endian word of
    the format. *)
Lemma swap_word_le32 (buf : list byte) (off : Z) :
  swap_word (le32 buf off) = be32 buf off.
Proof.
  unfold le32, be32. apply swap_word_octets; apply byte_at_range.
Qed.

Lemma swap_hword_le16 (buf : list byte) (off : Z) :
  swap_hword (le16 buf off) = be16 buf off.
Proof.
  unfold le16, be16. apply swap_hword_octets; apply byte_at_range.
Qed.

Lemma lor_lt_pow2 (n x y : Z) :
  0 <= n -> 0 <= x < 2 ^ n -> 0 <= y < 2 ^ n -> 0 <= Z.lor x y < 2 ^ n.
Proof.
  intros Hn Hx Hy.
  assert (H0 : 0 <= Z.lor x y) by (apply Z.lor_nonneg; lia).
  split; [assumption|].
  destruct (Z.eq_dec (Z.lor x y) 0) as [E|E]; [rewrite E; lia|].
  assert (Hpos : 0 < n).
  { destruct (Z.eq_dec n 0) as [->|]; [|lia].
    change (2 ^ 0) with 1 in *.
    assert (x = 0) by lia. assert (y = 0) by lia. subst. contradiction. }
  apply Z.log2_lt_pow2; [lia|].
  rewrite Z.log2_lor by lia.
  apply Z.max_lub_lt.
  - destruct (Z.eq_dec x 0) as [->|]; [simpl; lia|]. apply Z.log2_lt_pow2; lia.
  - destruct (Z.eq_dec y 0) as [->|]; [simpl; lia|]. apply Z.log2_lt_pow2; lia.
Qed.

Lemma shiftl_octet_lt (x k n : Z) :
  0 <= x < 256 -> 0 <= k -> k + 8 <= n -> 0 <= Z.shiftl x k < 2 ^ n.
Proof.
  intros Hx Hk Hn. rewrite Z.shiftl_mul_pow2 by lia.
  assert (0 < 2 ^ k) by (apply Z.pow_pos_nonneg; lia).
  assert (2 ^ (k + 8) <= 2 ^ n) by (apply Z.pow_le_mono_r; lia).
  rewrite Z.pow_add_r in * by lia. change (2 ^ 8) with 256 in *. nia.
Qed.

Lemma octet_lt (x n : Z) : 0 <= x < 256 -> 8 <= n -> 0 <= x < 2 ^ n.
Proof.
  intros Hx Hn. pose proof (shiftl_octet_lt x 0 n Hx ltac:(lia) ltac:(lia)) as H.
  rewrite Z.shiftl_0_r in H. exact H.
Qed.

Ltac octet_bound :=
  repeat apply lor_lt_pow2;
  first [apply shiftl_octet_lt | apply octet_lt | idtac]; lia.

Lemma be32_range (buf : list byte) (off : Z) : 0 <= be32 buf off < 2 ^ 32.
Proof.
  unfold be32.
  pose proof (byte_at_range buf off).
  pose proof (byte_at_range buf (off + 1)).
  pose proof (byte_at_range buf (off + 2)).
  pose proof (byte_at_range buf (off + 3)).
  octet_bound.
Qed.

Lemma be16_range (buf : list byte) (off : Z) : 0 <= be16 buf off < 2 ^ 16.
Proof.
  unfold be16.
  pose proof (byte_at_range buf off).
  pose proof (byte_at_range buf (off + 1)).
  octet_bound.
Qed.

(** ** Reads *)

Lemma byte_at_nth (buf : list byte) (i : nat) :
  byte_at buf (Z.of_nat i) = b2z (nth i buf x00).
Proof.
  unfold byte_at. destruct (Z.ltb_spec (Z.of_nat i) 0); [lia|].
  rewrite Nat2Z.id. reflexivity.
Qed.

Lemma byte_at_app_l (a b : list byte) (i : Z) :
  i < Z.of_nat (length a) -> byte_at (a ++ b) i = byte_at a i.
Proof.
  intros H. unfold byte_at. destruct (Z.ltb_spec i 0); [reflexivity|].
  rewrite app_nth1 by lia. reflexivity.
Qed.

Lemma byte_at_firstn (n : nat) (a : list byte) (i : Z) :
  i < Z.of_nat n -> byte_at (firstn n a) i = byte_at a i.
Proof.
  intros H. unfold byte_at. destruct (Z.ltb_spec i 0); [reflexivity|].
  f_equal. rewrite <- (firstn_skipn n a) at 2.
  destruct (Nat.lt_ge_cases (Z.to_nat i) (length (firstn n a))) as [Hlt|Hge].
  - rewrite app_nth1 by assumption. reflexivity.
  - rewrite length_firstn in Hge.
    assert (Hn : (length a <= Z.to_nat i)%nat) by lia.
    rewrite !nth_overflow; try reflexivity.
    + rewrite length_app, length_firstn, length_skipn. lia.
    + rewrite length_firstn. lia.
Qed.

Lemma byte_at_skipn (n : nat) (a : list byte) (i : Z) :
  0 <= i -> byte_at (skipn n a) i = byte_at a (Z.of_nat n + i).
Proof.
  intros H. unfold byte_at.
  destruct (Z.ltb_spec i 0); [lia|].
  destruct (Z.ltb_spec (Z.of_nat n + i) 0); [lia|].
  f_equal. rewrite nth_skipn. f_equal. lia.
Qed.

(** A read that lies inside the image and does not fail transfers [n] octets,
    those of the image from [pos] on. *)
Lemma read_inside (d : Disk) (pos n : Z) :
  0 <= pos -> 0 <= n -> pos + n <= Z.of_nat (length (image d)) ->
  faulty d pos = false ->
  exists bs, read d pos n = Some bs /\ Z.of_nat (length bs) = n /\
             bs = firstn (Z.to_nat n) (skipn (Z.to_nat pos) (image d)) /\
             forall i, 0 <= i < n -> byte_at bs i = byte_at (image d) (pos + i).
Proof.
  intros Hp Hn Hlen Hf. unfold read. rewrite Hf.
  eexists. split; [reflexivity|]. split; [|split; [reflexivity|]].
  - rewrite length_firstn, length_skipn. lia.
  - intros i Hi. rewrite byte_at_firstn by lia. rewrite byte_at_skipn by lia.
    f_equal. lia.
Qed.

Lemma byte_at_fill (buf bs : list byte) (i : Z) :
  i < Z.of_nat (length bs) -> byte_at (fill buf bs) i = byte_at bs i.
Proof.
  intros H. unfold fill. apply byte_at_app_l. assumption.
Qed.

Lemma le16_ext (a b : list byte) (o o' : Z) :
  byte_at a o = byte_at b o' -> byte_at a (o + 1) = byte_at b (o' + 1) ->
  le16 a o = le16 b o'.
Proof.
  intros H0 H1. unfold le16. rewrite H0, H1. reflexivity.
Qed.

Lemma le32_ext (a b : list byte) (o o' : Z) :
  byte_at a o = byte_at b o' -> byte_at a (o + 1) = byte_at b (o' + 1) ->
  byte_at a (o + 2) = byte_at b (o' + 2) ->
  byte_at a (o + 3) = byte_at b (o' + 3) ->
  le32 a o = le32 b o'.
Proof.
  intros H0 H1 H2 H3. unfold le32. rewrite H0, H1, H2, H3. reflexivity.
Qed.

(** ** The inode decoder *)

Lemma length_read_addr (raw : list byte) (n : nat) (x : Z) :
  length (read_addr raw x n) = n.
Proof.
  revert x. induction n as [|n IH]; intros x; simpl; [reflexivity|].
  rewrite IH. reflexivity.
Qed.

Lemma nth_read_addr (raw : list byte) (n : nat) (x : Z) (j : nat) :
  (j < n)%nat ->
  nth j (read_addr raw x n) 0
  = Z.lor (Z.lor (Z.shiftl (byte_at raw (odr_addr + (x + Z.of_nat j) * 3)) 16)
                 (Z.shiftl (byte_at raw (odr_addr + ((x + Z.of_nat j) * 3 + 1))) 8))
          (byte_at raw (odr_addr + ((x + Z.of_nat j) * 3 + 2))).
Proof.
  revert x j. induction n as [|n IH]; intros x j Hj; [lia|].
  destruct j as [|j]; simpl read_addr; simpl nth.
  - replace (x + Z.of_nat 0) with x by lia. reflexivity.
  - rewrite IH by lia. replace (x + 1 + Z.of_nat j) with (x + Z.of_nat (S j)) by lia.
    reflexivity.
Qed.

Lemma addr24_range (a b c : Z) :
  0 <= a < 256 -> 0 <= b < 256 -> 0 <= c < 256 ->
  0 <= Z.lor (Z.lor (Z.shiftl a 16) (Z.shiftl b 8)) c < 2 ^ 24.
Proof.
  intros Ha Hb Hc.
  octet_bound.
Qed.

Lemma shiftr_land_FF00 (r : Z) :
  Z.shiftr (Z.land r 0xFF00) 8 = Z.land (Z.shiftr r 8) 0xFF.
Proof.
  change 0xFF00 with (Z.shiftl (Z.ones 8) 8). change 0xFF with (Z.ones 8).
  octet_bits.
Qed.

Lemma shiftr_land_00F0 (r : Z) :
  Z.shiftr (Z.land r 0x00F0) 4 = Z.land (Z.shiftr r 4) 0x0F.
Proof.
  change 0x00F0 with (Z.shiftl (Z.ones 4) 4). change 0x0F with (Z.ones 4).
  octet_bits.
Qed.

(** The raw inode after a full read holds the octets of the image. *)
Lemma raw_inode_octets (d : Disk) (g : Garbage) (off : Z) (bs : list byte) :
  Z.of_nat (length bs) = 64 ->
  (forall i, 0 <= i < 64 -> byte_at bs i = byte_at (image d) (off + i)) ->
  forall i, 0 <= i < 64 ->
    byte_at (fill (g_raw_inode g) bs) i = byte_at (image d) (off + i).
Proof.
  intros Hlen Hbs i Hi. rewrite byte_at_fill by lia. apply Hbs. assumption.
Qed.

(** What [read_inode] does when the record lies inside the image and the
    device reads it. *)
Lemma read_inode_inside (d : Disk) (g : Garbage) (n : Z) :
  0 <= n < 2 ^ 16 ->
  0x7C0 + n * 0x40 + 0x40 <= Z.of_nat (length (image d)) ->
  faulty d (0x7C0 + n * 0x40) = false ->
  exists raw,
    read_inode d g n
    = (Ok (decode_inode raw), [Lseek (0x7C0 + n * 0x40); Read 0x40]) /\
    forall i, 0 <= i < 64 -> byte_at raw i = byte_at (image d) (0x7C0 + n * 0x40 + i).
Proof.
  intros Hn Hlen Hf. unfold read_inode.
  change (2 ^ 16) with 65536 in Hn.
  rewrite s32_small by (change (2 ^ 31) with 2147483648; lia).
  unfold lseek.
  destruct (Z.ltb_spec (0x7C0 + n * 0x40) 0) as [Hneg|_]; [lia|].
  destruct (Z.ltb_spec (0x7C0 + n * 0x40) 0) as [Hneg|_]; [lia|].
  destruct (read_inside d (0x7C0 + n * 0x40) 0x40) as (bs & Hr & Hl & _ & Hb);
    try lia; try assumption.
  rewrite Hr. eexists. split; [reflexivity|].
  apply raw_inode_octets; assumption.
Qed.

(** Every inode [decode_inode] produces has 13 addresses of 24 bits and a
    32-bit size. *)
Lemma decode_inode_wf (raw : list byte) : wf_inode (decode_inode raw).
Proof.
  unfold wf_inode, decode_inode; cbn [addr size]. split; [|split].
  - apply length_read_addr.
  - apply Forall_forall. intros a Ha.
    apply (In_nth _ _ 0) in Ha. destruct Ha as (j & Hj & <-).
    rewrite length_read_addr in Hj. rewrite nth_read_addr by assumption.
    apply addr24_range; apply byte_at_range.
  - rewrite swap_word_le32. apply be32_range.
Qed.

(** The mode word in terms of its two octets on disk. *)
Lemma mode_of_octets (a b : Z) :
  0 <= a < 256 -> 0 <= b < 256 ->
  let raw16 := Z.lor a (Z.shiftl b 8) in
  Z.lor (Z.land (Z.shiftr raw16 8) 0xFF) (Z.shiftl (Z.land raw16 0x0F) 8)
  = Z.lor b (Z.shiftl (Z.land a 0x0F) 8) /\
  Z.land (Z.shiftr raw16 4) 0x0F = Z.shiftr a 4.
Proof.
  intros Ha Hb raw16. unfold raw16.
  rewrite (land_ones8 a Ha), (land_ones8 b Hb).
  change 0xFF with (Z.ones 8). change 0x0F with (Z.ones 4).
  split; octet_bits.
Qed.

(** C3: reading inode [n] decodes the 64-octet record at image offset
    [0x7C0 + n * 0x40].  Mode and type are cut out of the 16-bit mode word
    [raw16] as the host loads it, that is, the mode is the second octet of
    the record with the low four bits of the first above it, and the type the
    high four bits of the first octet.  [nlink], [uid] and [gid] are the
    16-bit words of the record in big-endian order (the byte-swapped host
    words), [size] and the three time stamps the 32-bit words in big-endian
    order, and address [k] is [(b0 << 16) | (b1 << 8) | b2] for the three
    octets at [3k], [3k+1], [3k+2] of the address area. *)
Theorem read_inode_decodes (d : Disk) (g : Garbage) (n : Z) :
  0 <= n < 2 ^ 16 ->
  0x7C0 + n * 0x40 + 0x40 <= Z.of_nat (length (image d)) ->
  faulty d (0x7C0 + n * 0x40) = false ->
  exists ino : Inode,
    read_inode d g n = (Ok ino, [Lseek (0x7C0 + n * 0x40); Read 0x40]) /\
    (let off := 0x7C0 + n * 0x40 in
     let raw16 := le16 (image d) off in
     mode ino
     = Z.lor (Z.land (Z.shiftr raw16 8) 0xFF) (Z.shiftl (Z.land raw16 0x0F) 8) /\
     type ino = Z.land (Z.shiftr raw16 4) 0x0F /\
     mode ino
     = Z.lor (byte_at (image d) (off + 1))
             (Z.shiftl (Z.land (byte_at (image d) off) 0x0F) 8) /\
     type ino = Z.shiftr (byte_at (image d) off) 4 /\
     nlink ino = be16 (image d) (off + 2) /\
     uid ino = be16 (image d) (off + 4) /\
     gid ino = be16 (image d) (off + 6) /\
     size ino = be32 (image d) (off + 8) /\
     atime ino = be32 (image d) (off + 52) /\
     mtime ino = be32 (image d) (off + 56) /\
     ctime ino = be32 (image d) (off + 60) /\
     length (addr ino) = 13%nat /\
     forall k, 0 <= k < 13 ->
       let b0 := byte_at (image d) (off + 12 + 3 * k) in
       let b1 := byte_at (image d) (off + 12 + 3 * k + 1) in
       let b2 := byte_at (image d) (off + 12 + 3 * k + 2) in
       addr_at ino k = Z.lor (Z.lor (Z.shiftl b0 16) (Z.shiftl b1 8)) b2).
Proof.
  intros Hn Hlen Hf.
  destruct (read_inode_inside d g n Hn Hlen Hf) as (raw & Hr & Hb).
  exists (decode_inode raw). split; [exact Hr|].
  assert (H16 : forall o, 0 <= o -> o + 1 < 64 ->
                  le16 raw o = le16 (image d) (0x7C0 + n * 0x40 + o)).
  { intros o Ho1 Ho2. apply le16_ext.
    - apply Hb; lia.
    - rewrite Hb by lia. f_equal. lia. }
  assert (H32 : forall o, 0 <= o -> o + 3 < 64 ->
                  le32 raw o = le32 (image d) (0x7C0 + n * 0x40 + o)).
  { intros o Ho1 Ho2. apply le32_ext.
    - apply Hb; lia.
    - rewrite Hb by lia. f_equal. lia.
    - rewrite Hb by lia. f_equal. lia.
    - rewrite Hb by lia. f_equal. lia. }
  cbv zeta. unfold decode_inode;
    cbn [mode type nlink uid gid size addr atime mtime ctime].
  unfold odr_mode, odr_nlink, odr_uid, odr_gid, odr_size, odr_atime, odr_mtime,
    odr_ctime.
  rewrite !H16 by lia. rewrite !H32 by lia.
  rewrite Z.add_0_r. rewrite shiftr_land_FF00, shiftr_land_00F0.
  rewrite !swap_hword_le16, !swap_word_le32.
  destruct (mode_of_octets (byte_at (image d) (1984 + n * 64))
              (byte_at (image d) (1984 + n * 64 + 1))
              (byte_at_range _ _) (byte_at_range _ _)) as [Hmode Htype].
  cbv zeta in Hmode, Htype.
  fold (le16 (image d) (1984 + n * 64)) in Hmode, Htype.
  split; [reflexivity|]. split; [reflexivity|].
  split; [exact Hmode|]. split; [exact Htype|].
  do 7 (split; [reflexivity|]).
  split; [apply length_read_addr|].
  intros k Hk. unfold addr_at; cbn [addr].
  rewrite nth_read_addr by lia.
  rewrite Z2Nat.id by lia. unfold odr_addr.
  rewrite !Hb by lia.
  replace (1984 + n * 64 + (12 + (0 + k) * 3)) with (1984 + n * 64 + 12 + 3 * k)
    by lia.
  replace (1984 + n * 64 + (12 + ((0 + k) * 3 + 1)))
    with (1984 + n * 64 + 12 + 3 * k + 1) by lia.
  replace (1984 + n * 64 + (12 + ((0 + k) * 3 + 2)))
    with (1984 + n * 64 + 12 + 3 * k + 2) by lia.
  reflexivity.
Qed.

(** C3 on inode 3 of the image with the stamped inode: every field comes
    back as it was encoded, 16-bit and 32-bit words in big-endian order. *)
Lemma read_inode_decodes_witness :
  exists ino : Inode,
    read_inode Fixture.stamped_disk Fixture.garbage0 3
    = (Ok ino, [Lseek (0x7C0 + 3 * 0x40); Read 0x40]) /\
    mode ino = 420 /\ type ino = INODE_FT_FILE /\
    nlink ino = 2 /\ uid ino = 258 /\ gid ino = 772 /\
    size ino = 66051 /\
    atime ino = 16909060 /\ mtime ino = 84281096 /\ ctime ino = 151653132 /\
    addr_at ino 0 = 7 /\ addr_at ino 2 = 66051.
Proof.
  destruct (read_inode_decodes Fixture.stamped_disk Fixture.garbage0 3)
    as (ino & Hr & _ & _ & Hm & Ht & Hn & Hu & Hg & Hs & Hat & Hmt & Hct & _ & Ha).
  - vm_compute. split; [discriminate | reflexivity].
  - vm_compute. discriminate.
  - reflexivity.
  - exists ino. split; [exact Hr|].
    rewrite Hm, Ht, Hn, Hu, Hg, Hs, Hat, Hmt, Hct, (Ha 0), (Ha 2) by lia.
    vm_compute. repeat split; reflexivity.
Defined.

(** ** The block device *)

Lemma length_block_of (d : Disk) (p : Z) :
  0 <= p -> p * 1024 + 1024 <= Z.of_nat (length (image d)) ->
  length (block_of d p) = 1024%nat.
Proof.
  intros Hp Hlen. unfold block_of. rewrite length_firstn, length_skipn. lia.
Qed.

Lemma byte_at_block_of (d : Disk) (p i : Z) :
  0 <= p -> 0 <= i < 1024 ->
  byte_at (block_of d p) i = byte_at (image d) (p * 1024 + i).
Proof.
  intros Hp Hi. unfold block_of.
  rewrite byte_at_firstn by lia. rewrite byte_at_skipn by lia.
  f_equal. lia.
Qed.

(** What [disk_block_read] does for an index whose octet offset is a
    non-negative [int]. *)
Lemma disk_block_read_unfold (d : Disk) (adr : Z) (buf : list byte) :
  0 <= adr -> adr * 1024 < 2 ^ 31 ->
  disk_block_read d adr buf
  = match read d (adr * 1024) 1024 with
    | None =>
        (-1, buf, [Lseek (adr * 1024); Read 1024; Perror "unixtool: disk read()"])
    | Some bs =>
        (Z.of_nat (length bs), fill buf bs, [Lseek (adr * 1024); Read 1024])
    end.
Proof.
  intros H0 H1. unfold disk_block_read.
  change (adr * 0x400) with (adr * 1024).
  rewrite s32_small by (change (2 ^ 31) with 2147483648 in *; lia).
  unfold lseek.
  destruct (Z.ltb_spec (adr * 1024) 0); [lia|].
  destruct (Z.ltb_spec (adr * 1024) 0); [lia|]. reflexivity.
Qed.

(** A readable block is read in full. *)
Lemma disk_block_read_readable (d : Disk) (p : Z) (buf : list byte) :
  readable d p ->
  disk_block_read d p buf
  = (1024, fill buf (block_of d p), [Lseek (p * 1024); Read 1024]).
Proof.
  intros (Hp & Hoff & Hlen & Hf).
  rewrite disk_block_read_unfold by assumption.
  unfold read. rewrite Hf.
  change (firstn (Z.to_nat 1024) (skipn (Z.to_nat (p * 1024)) (image d)))
    with (block_of d p).
  rewrite length_block_of by assumption. reflexivity.
Qed.

Lemma word_at_fill_block (d : Disk) (p k : Z) (junk : list byte) :
  readable d p -> 0 <= k < 256 ->
  word_at (fill junk (block_of d p)) k = le32 (image d) (p * 1024 + 4 * k).
Proof.
  intros (Hp & Hoff & Hlen & Hf) Hk. unfold word_at.
  pose proof (length_block_of d p Hp Hlen) as Hl.
  apply le32_ext; rewrite byte_at_fill by lia;
    rewrite byte_at_block_of by lia; f_equal; lia.
Qed.

(** ** The block resolver *)

Lemma wf_inode_addr_at (ino : Inode) (k : Z) :
  wf_inode ino -> 0 <= addr_at ino k < 2 ^ 24.
Proof.
  intros (_ & Ha & _). unfold addr_at.
  destruct (Nat.lt_ge_cases (Z.to_nat k) (length (addr ino))) as [Hlt|Hge].
  - rewrite Forall_forall in Ha. apply Ha. apply nth_In. assumption.
  - rewrite nth_overflow by assumption. change (2 ^ 24) with 16777216. lia.
Qed.

Lemma s32_addr_at (ino : Inode) (k : Z) :
  wf_inode ino -> s32 (addr_at ino k) = addr_at ino k.
Proof.
  intros H. pose proof (wf_inode_addr_at ino k H) as Hr.
  change (2 ^ 24) with 16777216 in Hr.
  apply s32_small. change (2 ^ 31) with 2147483648. lia.
Qed.

(** The three ranges of [inode_block_read], with the indirect blocks
    readable. *)
Lemma inode_block_read_direct (d : Disk) (g : Garbage) (ino : Inode) (i : Z)
    (buf : list byte) :
  wf_inode ino -> i < 10 ->
  inode_block_read d g i ino buf
  = if addr_at ino i =? 0 then (0, buf, [])
    else
      let '(rv, buf', l) := disk_block_read d (addr_at ino i) buf in
      (rv, buf',
       Printf "inode_block_read(%d) => disk_block_read(%d)\n"
              [ArgI i; ArgI (addr_at ino i)] :: l).
Proof.
  intros Hwf Hi. unfold inode_block_read.
  destruct (Z.ltb_spec i 10); [|lia].
  rewrite s32_addr_at by assumption.
  pose proof (wf_inode_addr_at ino i Hwf) as Hr.
  destruct (Z.eqb_spec (addr_at ino i) 0) as [E|E].
  - rewrite E. reflexivity.
  - destruct (Z.gtb_spec (addr_at ino i) 0); [reflexivity | lia].
Qed.

Lemma inode_block_read_single (d : Disk) (g : Garbage) (ino : Inode) (i : Z)
    (buf : list byte) :
  wf_inode ino -> 10 <= i < 266 -> readable d (addr_at ino 10) ->
  let p := swap_word (le32 (image d) (addr_at ino 10 * 1024 + 4 * (i - 10))) in
  inode_block_read d g i ino buf
  = let '(rv, buf', l) := disk_block_read d (s32 p) buf in
    (rv, buf',
     [Lseek (addr_at ino 10 * 1024); Read 1024;
      Printf "inode_block_read(%d) => %d(%d) => disk_block_read(%d)\n"
             [ArgI i; ArgI (addr_at ino 10); ArgI (i - 10); ArgI (s32 p)]] ++ l).
Proof.
  intros Hwf Hi Hr p. unfold inode_block_read.
  destruct (Z.ltb_spec i 10); [lia|].
  destruct (Z.ltb_spec i 266); [|lia].
  rewrite s32_addr_at by assumption.
  rewrite disk_block_read_readable by assumption.
  destruct (Z.ltb_spec 1024 0); [lia|].
  rewrite word_at_fill_block by (assumption || lia).
  fold p. destruct (disk_block_read d (s32 p) buf) as [[rv buf'] l].
  reflexivity.
Qed.

Lemma inode_block_read_double (d : Disk) (g : Garbage) (ino : Inode) (i : Z)
    (buf : list byte) :
  wf_inode ino -> 266 <= i < 65802 -> readable d (addr_at ino 11) ->
  let firstOffset := (i - 266) / 256 in
  let secondOffset := (i - 266) - firstOffset * 256 in
  let first := swap_word (le32 (image d) (addr_at ino 11 * 1024 + 4 * firstOffset)) in
  readable d first ->
  let p := swap_word (le32 (image d) (first * 1024 + 4 * secondOffset)) in
  inode_block_read d g i ino buf
  = let '(rv, buf', l) := disk_block_read d (s32 p) buf in
    (rv, buf',
     [Lseek (addr_at ino 11 * 1024); Read 1024; Lseek (first * 1024); Read 1024;
      Printf "inode_block_read(%d) => %d(%d) => %d(%d) => disk_block_read(%d)\n"
             [ArgI i; ArgI (addr_at ino 11); ArgI firstOffset; ArgI first;
              ArgI secondOffset; ArgI (s32 p)]] ++ l).
Proof.
  intros Hwf Hi Hr firstOffset secondOffset first Hr1 p. unfold inode_block_read.
  destruct (Z.ltb_spec i 10); [lia|].
  destruct (Z.ltb_spec i 266); [lia|].
  destruct (Z.ltb_spec i 65802); [|lia].
  rewrite s32_addr_at by assumption.
  rewrite disk_block_read_readable by assumption.
  destruct (Z.ltb_spec 1024 0); [lia|].
  rewrite Z.quot_div_nonneg by lia. fold firstOffset. fold secondOffset.
  assert (Hfo : 0 <= firstOffset < 256).
  { unfold firstOffset. split; [apply Z.div_pos; lia|].
    apply Z.div_lt_upper_bound; lia. }
  assert (Hso : 0 <= secondOffset < 256).
  { unfold secondOffset, firstOffset.
    pose proof (Z.mod_pos_bound (i - 266) 256 ltac:(lia)).
    pose proof (Z.div_mod (i - 266) 256 ltac:(lia)). lia. }
  rewrite word_at_fill_block by (assumption || lia).
  fold first.
  assert (Hs : s32 first = first).
  { destruct Hr1 as (? & ? & _). apply s32_small.
    change (2 ^ 31) with 2147483648 in *. lia. }
  rewrite Hs.
  rewrite disk_block_read_readable by assumption.
  destruct (Z.ltb_spec 1024 0); [lia|].
  rewrite word_at_fill_block by (assumption || lia).
  fold p. destruct (disk_block_read d (s32 p) buf) as [[rv buf'] l].
  reflexivity.
Qed.

Lemma seeks_app (l l' : list event) : seeks (l ++ l') = seeks l ++ seeks l'.
Proof.
  induction l as [|e l IH]; [reflexivity|].
  destruct e; simpl; rewrite IH; reflexivity.
Qed.

(** C1: block resolution follows the range arithmetic.  Below 10 the
    physical block is [inode.addr[i]] and no indirect block is read (an
    address of 0 ends the data).  In [10, 266) exactly one indirect block is
    read, at [inode.addr[10]], and the physical block is the byte-swapped
    entry [i - 10].  In [266, 65802) exactly two are read, the block at
    [inode.addr[11]] and the one its entry [(i - 266) / 256] names, and the
    physical block is the byte-swapped entry
    [(i - 266) - ((i - 266) / 256) * 256] of the latter.  From 65802 on the
    resolution fails with "Further indirection required". *)
Theorem inode_block_read_ranges (d : Disk) (g : Garbage) (ino : Inode) (i : Z)
    (buf : list byte) :
  wf_inode ino -> 0 <= i ->
  (i < 10 ->
     if addr_at ino i =? 0 then inode_block_read d g i ino buf = (0, buf, [])
     else resolved_to d buf [] (addr_at ino i) (inode_block_read d g i ino buf))
  /\
  (10 <= i < 266 -> readable d (addr_at ino 10) ->
     let entry := le32 (image d) (addr_at ino 10 * 1024 + 4 * (i - 10)) in
     resolved_to d buf [addr_at ino 10] (s32 (swap_word entry))
                 (inode_block_read d g i ino buf))
  /\
  (266 <= i < 65802 -> readable d (addr_at ino 11) ->
     let firstOffset := (i - 266) / 256 in
     let secondOffset := (i - 266) - firstOffset * 256 in
     let first :=
       swap_word (le32 (image d) (addr_at ino 11 * 1024 + 4 * firstOffset)) in
     readable d first ->
     let entry := le32 (image d) (first * 1024 + 4 * secondOffset) in
     resolved_to d buf [addr_at ino 11; first] (s32 (swap_word entry))
                 (inode_block_read d g i ino buf))
  /\
  (65802 <= i ->
     inode_block_read d g i ino buf
     = (-1, buf, [Printf "Further indirection required\n" []])).
Proof.
  intros Hwf Hi. split; [|split; [|split]].
  - intros Hlt. rewrite inode_block_read_direct by assumption.
    destruct (addr_at ino i =? 0); [reflexivity|].
    destruct (disk_block_read d (addr_at ino i) buf) as [[rv buf'] l] eqn:E.
    unfold resolved_to. rewrite E. split; reflexivity.
  - intros Hr Hrd entry. rewrite inode_block_read_single by assumption.
    fold entry.
    destruct (disk_block_read d (s32 (swap_word entry)) buf) as [[rv buf'] l] eqn:E.
    unfold resolved_to. rewrite E. split; reflexivity.
  - intros Hr Hrd firstOffset secondOffset first Hrd1 entry.
    rewrite inode_block_read_double by assumption.
    fold firstOffset. fold secondOffset. fold first. fold entry.
    destruct (disk_block_read d (s32 (swap_word entry)) buf) as [[rv buf'] l] eqn:E.
    unfold resolved_to. rewrite E. split; reflexivity.
  - intros Hge. unfold inode_block_read.
    destruct (Z.ltb_spec i 10); [lia|].
    destruct (Z.ltb_spec i 266); [lia|].
    destruct (Z.ltb_spec i 65802); [lia|]. reflexivity.
Qed.

(** Closed side conditions on the synthetic images. *)
Ltac by_compute := vm_compute; first [reflexivity | discriminate | lia].

Ltac solve_readable := unfold readable; repeat split; by_compute.

Ltac solve_wf_inode :=
  unfold wf_inode; split; [reflexivity|]; split;
  [repeat constructor; by_compute | split; by_compute].

(** C1 on inode 5 of the image with indirection: logical block 10 is entry 0
    of the indirect block 4, which names block 17; logical block 266 goes
    through blocks 5 and 6 to block 19; logical block 65802 is refused. *)
Lemma inode_block_read_ranges_witness :
  let d := Fixture.indirect_disk in
  let g := Fixture.garbage0 in
  let buf := g_file_buffer Fixture.garbage0 in
  resolved_to d buf [4] 17 (inode_block_read d g 10 Fixture.inode5 buf) /\
  resolved_to d buf [5; 6] 19 (inode_block_read d g 266 Fixture.inode5 buf) /\
  inode_block_read d g 65802 Fixture.inode5 buf
  = (-1, buf, [Printf "Further indirection required\n" []]).
Proof.
  intros d g buf.
  assert (Hwf : wf_inode Fixture.inode5) by solve_wf_inode.
  split; [|split].
  - destruct (inode_block_read_ranges d g Fixture.inode5 10 buf Hwf ltac:(lia))
      as (_ & H & _ & _).
    specialize (H ltac:(lia) ltac:(solve_readable)). cbv zeta in H.
    match type of H with
    | resolved_to _ _ _ ?p _ => replace p with 17 in H by by_compute
    end.
    exact H.
  - destruct (inode_block_read_ranges d g Fixture.inode5 266 buf Hwf ltac:(lia))
      as (_ & _ & H & _).
    specialize (H ltac:(lia) ltac:(solve_readable)). cbv zeta in H.
    specialize (H ltac:(solve_readable)).
    match type of H with
    | resolved_to _ _ [_; ?f] ?p _ =>
        replace p with 19 in H by by_compute;
        replace f with 6 in H by by_compute
    end.
    exact H.
  - destruct (inode_block_read_ranges d g Fixture.inode5 65802 buf Hwf ltac:(lia))
      as (_ & _ & _ & H).
    exact (H ltac:(lia)).
Defined.

(** C2, evaluated on the code: a zero address is the end of the data on the
    direct path only.  For an index in [10, 266) whose entry in the indirect
    block is 0, and for an index in [266, 65802) whose entry in the
    second-level block is 0, [inode_block_read] seeks to offset 0 and returns
    the 1024 octets of physical block 0 as the data of the logical block; it
    does not return 0.  (A first-level entry of 0 makes block 0 the
    second-level block.) *)
Theorem inode_block_read_zero_entry (d : Disk) (g : Garbage) (ino : Inode)
    (i : Z) (buf : list byte) :
  wf_inode ino ->
  (0 <= i < 10 -> addr_at ino i = 0 ->
     inode_block_read d g i ino buf = (0, buf, []))
  /\
  (10 <= i < 266 -> readable d (addr_at ino 10) -> readable d 0 ->
     swap_word (le32 (image d) (addr_at ino 10 * 1024 + 4 * (i - 10))) = 0 ->
     exists l,
       inode_block_read d g i ino buf = (1024, fill buf (block_of d 0), l) /\
       seeks l = [addr_at ino 10 * 1024; 0])
  /\
  (266 <= i < 65802 -> readable d (addr_at ino 11) -> readable d 0 ->
     let firstOffset := (i - 266) / 256 in
     let secondOffset := (i - 266) - firstOffset * 256 in
     let first :=
       swap_word (le32 (image d) (addr_at ino 11 * 1024 + 4 * firstOffset)) in
     readable d first ->
     swap_word (le32 (image d) (first * 1024 + 4 * secondOffset)) = 0 ->
     exists l,
       inode_block_read d g i ino buf = (1024, fill buf (block_of d 0), l) /\
       seeks l = [addr_at ino 11 * 1024; first * 1024; 0]).
Proof.
  intros Hwf. split; [|split].
  - intros Hi Ha. rewrite inode_block_read_direct by (assumption || lia).
    rewrite Ha. reflexivity.
  - intros Hi Hr H0 He. rewrite inode_block_read_single by assumption.
    rewrite He. change (s32 0) with 0.
    rewrite disk_block_read_readable by assumption.
    eexists. split; reflexivity.
  - intros Hi Hr H0 firstOffset secondOffset first Hr1 He.
    rewrite inode_block_read_double by assumption.
    fold firstOffset. fold secondOffset. fold first.
    rewrite He. change (s32 0) with 0.
    rewrite disk_block_read_readable by assumption.
    eexists. split; reflexivity.
Qed.

(** C2 on inode 5 of the image with indirection: entry 2 of its indirect
    block is 0, and logical block 12 comes back as the content of block 0. *)
Lemma inode_block_read_zero_entry_witness :
  let d := Fixture.indirect_disk in
  let buf := g_file_buffer Fixture.garbage0 in
  exists l,
    inode_block_read d Fixture.garbage0 12 Fixture.inode5 buf
    = (1024, fill buf (block_of d 0), l) /\
    seeks l = [4 * 1024; 0].
Proof.
  intros d buf.
  assert (Hwf : wf_inode Fixture.inode5) by solve_wf_inode.
  destruct (inode_block_read_zero_entry d Fixture.garbage0 Fixture.inode5 12 buf Hwf)
    as (_ & H & _).
  apply H.
  - lia.
  - solve_readable.
  - solve_readable.
  - by_compute.
Defined.

(** C8, as the code has it: for a block index whose octet offset is a
    non-negative [int], [disk_block_read] seeks to [adr * 1024] and asks for
    1024 octets.  It returns -1, with the buffer untouched, when the read
    fails; otherwise it returns the number of octets transferred, which is
    1024 when the block lies inside the image and less, down to 0, when the
    image ends first, and only that many leading octets of the buffer are
    replaced.  A negative index makes the seek fail. *)
Theorem disk_block_read_count (d : Disk) (adr : Z) (buf : list byte) :
  - 2 ^ 21 <= adr < 2 ^ 21 ->
  let off := adr * 1024 in
  let n := Z.min 1024 (Z.max 0 (Z.of_nat (length (image d)) - off)) in
  (adr < 0 ->
     disk_block_read d adr buf
     = (-1, buf, [Lseek off; Perror "unixtool: disk lseek()"]))
  /\
  (0 <= adr -> faulty d off = true ->
     disk_block_read d adr buf
     = (-1, buf, [Lseek off; Read 1024; Perror "unixtool: disk read()"]))
  /\
  (0 <= adr -> faulty d off = false ->
     exists bs,
       disk_block_read d adr buf
       = (n, bs ++ skipn (Z.to_nat n) buf, [Lseek off; Read 1024]) /\
       Z.of_nat (length bs) = n /\
       forall i, 0 <= i < n -> byte_at bs i = byte_at (image d) (off + i)).
Proof.
  intros Hadr off n. change (2 ^ 21) with 2097152 in Hadr.
  split; [|split].
  - intros Hneg. unfold disk_block_read.
    change (adr * 0x400) with off.
    rewrite s32_small by (unfold off; change (2 ^ 31) with 2147483648; lia).
    unfold lseek. destruct (Z.ltb_spec off 0); [|unfold off in *; lia].
    reflexivity.
  - intros Hpos Hf.
    rewrite disk_block_read_unfold
      by (try change (2 ^ 31) with 2147483648; lia).
    fold off. unfold read. rewrite Hf. reflexivity.
  - intros Hpos Hf.
    rewrite disk_block_read_unfold
      by (try change (2 ^ 31) with 2147483648; lia).
    fold off. unfold read. rewrite Hf.
    set (bs := firstn (Z.to_nat 1024) (skipn (Z.to_nat off) (image d))).
    assert (Hl : Z.of_nat (length bs) = n).
    { unfold bs, n. rewrite length_firstn, length_skipn. unfold off in *. lia. }
    exists bs. split; [|split].
    + unfold fill. rewrite <- Hl. rewrite Nat2Z.id. reflexivity.
    + exact Hl.
    + intros i Hi. unfold bs. rewrite byte_at_firstn by lia.
      rewrite byte_at_skipn by lia. f_equal. unfold off in *. lia.
Qed.

(** C8 on an image of 1500 octets: block 1 is read short, as 476 octets. *)
Lemma disk_block_read_count_witness :
  exists bs,
    disk_block_read Fixture.short_disk 1 (repeat xaa 1024)
    = (476, bs ++ skipn 476 (repeat xaa 1024), [Lseek 1024; Read 1024]) /\
    Z.of_nat (length bs) = 476.
Proof.
  destruct (disk_block_read_count Fixture.short_disk 1 (repeat xaa 1024))
    as (_ & _ & H).
  - split; by_compute.
  - destruct (H ltac:(lia) eq_refl) as (bs & Hr & Hl & _).
    exists bs. split; [exact Hr | exact Hl].
Defined.

(** C8 as stated fails: a short read is returned as a success, with the
    buffer only partly filled.  On an image of 1500 octets, reading block 1
    into a buffer of octets 0xAA returns 476, and the buffer holds 476 octets
    of the image followed by 548 octets of its old content. *)
Lemma disk_block_read_short_read :
  disk_block_read Fixture.short_disk 1 (repeat xaa 1024)
  = (476, repeat x11 476 ++ repeat xaa 548, [Lseek 1024; Read 1024]).
Proof.
  vm_compute. reflexivity.
Qed.

(** ** Loops *)

Lemma flat_map_seq_shift {A : Type} (f : nat -> list A) (l : list nat) :
  flat_map f (map S l) = flat_map (fun j => f (S j)) l.
Proof.
  induction l as [|j l IH]; simpl; [reflexivity|]. rewrite IH. reflexivity.
Qed.

Section LoopFacts.

Context {St R : Type}.
Variable body : St -> option (step St R * list event).

Lemma loop_S (fuel : nat) (s : St) :
  loop (S fuel) body s
  = match body s with
    | None => None
    | Some (Done r, l) => Some (r, l)
    | Some (Continue s', l) =>
        match loop fuel body s' with
        | None => None
        | Some (r, l') => Some (r, l ++ l')
        end
    end.
Proof. reflexivity. Qed.

(** A result does not depend on the fuel left over. *)
Lemma loop_more_fuel (fuel fuel' : nat) (s : St) (r : R) (l : list event) :
  (fuel <= fuel')%nat ->
  loop fuel body s = Some (r, l) -> loop fuel' body s = Some (r, l).
Proof.
  revert fuel' s r l. induction fuel as [|fuel IH]; intros fuel' s r l Hle H.
  - discriminate.
  - destruct fuel' as [|fuel']; [lia|].
    rewrite loop_S in *.
    destruct (body s) as [[[s'|r'] l0]|]; try discriminate; [|exact H].
    destruct (loop fuel body s') as [[r1 l1]|] eqn:E; [|discriminate].
    rewrite (IH fuel' s' r1 l1) by (lia || assumption). exact H.
Qed.

(** Invariants: what holds of the states carries over to the result. *)
Lemma loop_inv (Inv : St -> Prop) (Post : R -> Prop) :
  (forall s s' l, Inv s -> body s = Some (Continue s', l) -> Inv s') ->
  (forall s r l, Inv s -> body s = Some (Done r, l) -> Post r) ->
  forall fuel s r l, Inv s -> loop fuel body s = Some (r, l) -> Post r.
Proof.
  intros Hc Hd. induction fuel as [|fuel IH]; intros s r l Hs H.
  - discriminate.
  - rewrite loop_S in H.
    destruct (body s) as [[[s'|r'] l0]|] eqn:E; try discriminate.
    + destruct (loop fuel body s') as [[r1 l1]|] eqn:E1; [|discriminate].
      inversion H; subst. eapply IH; [eapply Hc; eassumption | eassumption].
    + inversion H; subst. eapply Hd; eassumption.
Qed.

(** A property of the events of every iteration holds of the whole log. *)
Lemma loop_log (p : event -> bool) :
  (forall s st l, body s = Some (st, l) -> forallb p l = true) ->
  forall fuel s r l, loop fuel body s = Some (r, l) -> forallb p l = true.
Proof.
  intros Hb. induction fuel as [|fuel IH]; intros s r l H.
  - discriminate.
  - rewrite loop_S in H.
    destruct (body s) as [[[s'|r'] l0]|] eqn:E; try discriminate.
    + destruct (loop fuel body s') as [[r1 l1]|] eqn:E1; [|discriminate].
      inversion H; subst. rewrite forallb_app.
      rewrite (Hb _ _ _ E), (IH _ _ _ E1). reflexivity.
    + inversion H; subst. eapply Hb; eassumption.
Qed.

(** A loop whose iterations [x0], [x0 + 1], ..., [x0 + m - 1] go on and
    whose iteration [x0 + m] leaves. *)
Lemma loop_count (next : St -> St) (L : St -> list event) (m : nat) :
  forall (s : St) (fuel : nat) (r : R) (l : list event),
    (m < fuel)%nat ->
    (forall j, (j < m)%nat ->
       body (Nat.iter j next s) = Some (Continue (next (Nat.iter j next s)),
                                        L (Nat.iter j next s))) ->
    body (Nat.iter m next s) = Some (Done r, l) ->
    loop fuel body s
    = Some (r, flat_map (fun j => L (Nat.iter j next s)) (seq 0 m) ++ l).
Proof.
  induction m as [|m IH]; intros s fuel r l Hf Hc Hd.
  - destruct fuel as [|fuel]; [lia|]. rewrite loop_S. simpl in Hd. rewrite Hd.
    reflexivity.
  - destruct fuel as [|fuel]; [lia|]. rewrite loop_S.
    pose proof (Hc 0%nat ltac:(lia)) as H0. simpl in H0. rewrite H0.
    rewrite (IH (next s) fuel r l).
    + simpl flat_map. rewrite <- app_assoc.
      rewrite <- seq_shift, flat_map_seq_shift.
      rewrite (flat_map_ext (fun j => L (Nat.iter j next (next s)))
                 (fun j => L (Nat.iter (S j) next s))); [reflexivity|].
      intros j. rewrite Nat.iter_succ_r. reflexivity.
    + lia.
    + intros j Hj. rewrite <- !Nat.iter_succ_r. apply Hc. lia.
    + rewrite <- Nat.iter_succ_r. exact Hd.
Qed.

End LoopFacts.

(** ** The events of the decode engine *)

Lemma plain_no_magic (l : list event) :
  forallb plain l = true -> forallb no_magic l = true.
Proof.
  induction l as [|e l IH]; [reflexivity|]. simpl.
  intros H. apply andb_true_iff in H. destruct H as [He Hl].
  rewrite (IH Hl), andb_true_r. destruct e; try reflexivity; try discriminate.
  exact He.
Qed.

Lemma written_app (l l' : list event) : written (l ++ l') = written l ++ written l'.
Proof.
  induction l as [|e l IH]; [reflexivity|].
  destruct e; simpl; rewrite IH; try reflexivity. apply app_assoc.
Qed.

Lemma plain_written (l : list event) : forallb plain l = true -> written l = [].
Proof.
  induction l as [|e l IH]; [reflexivity|]. simpl.
  intros H. apply andb_true_iff in H. destruct H as [He Hl].
  destruct e; try discriminate; simpl; auto.
Qed.

Lemma read_inode_plain (d : Disk) (g : Garbage) (n : Z) :
  forallb plain (snd (read_inode d g n)) = true.
Proof.
  unfold read_inode. destruct (lseek _ <? 0); [reflexivity|].
  destruct (read d _ _); reflexivity.
Qed.

Lemma disk_block_read_plain (d : Disk) (adr : Z) (buf : list byte) :
  forallb plain (snd (disk_block_read d adr buf)) = true.
Proof.
  unfold disk_block_read. destruct (lseek _ <? 0); [reflexivity|].
  destruct (read d _ _); reflexivity.
Qed.

Lemma inode_block_read_plain (d : Disk) (g : Garbage) (adr : Z) (ino : Inode)
    (buf : list byte) :
  forallb plain (snd (inode_block_read d g adr ino buf)) = true.
Proof.
  unfold inode_block_read.
  repeat match goal with
         | |- context [disk_block_read ?d ?a ?b] =>
             let P := fresh "P" in
             pose proof (disk_block_read_plain d a b) as P;
             destruct (disk_block_read d a b) as [[? ?] ?]; simpl in P
         | |- context [if ?c then _ else _] => destruct c
         end;
    simpl; rewrite ?forallb_app; simpl;
    repeat match goal with H : forallb plain _ = true |- _ => rewrite H; clear H end;
    reflexivity.
Qed.

(** Case analysis on the calls and tests in the equation [H] of a loop body,
    keeping what is known of the logs. *)
Ltac body_cases H :=
  repeat match type of H with
         | context [read_inode ?d ?g ?n] =>
             let P := fresh "P" in
             pose proof (read_inode_plain d g n) as P;
             destruct (read_inode d g n) as [[?|?] ?]; simpl in P
         | context [inode_block_read ?d ?g ?a ?i ?b] =>
             let P := fresh "P" in
             pose proof (inode_block_read_plain d g a i b) as P;
             destruct (inode_block_read d g a i b) as [[? ?] ?]; simpl in P
         | context [if ?c then _ else _] => destruct c
         end.

Ltac log_done H :=
  inversion H; subst; clear H;
  repeat (progress (rewrite ?forallb_app; simpl));
  repeat match goal with P : forallb _ _ = true |- _ => rewrite P; clear P end;
  reflexivity.

Lemma ls_scan_body_plain (d : Disk) (g : Garbage) (pathpart dir_buffer : list byte)
    (dir_inode : Inode) (dirblock x : Z) st l :
  ls_scan_body d g pathpart dir_buffer dir_inode dirblock x = Some (st, l) ->
  forallb plain l = true.
Proof.
  intros H. unfold ls_scan_body in H. body_cases H; log_done H.
Qed.

Lemma read_scan_body_plain (d : Disk) (g : Garbage) (pathpart : list byte)
    (s : read_state) (x : Z) st l :
  read_scan_body d g pathpart s x = Some (st, l) -> forallb plain l = true.
Proof.
  intros H. unfold read_scan_body in H. body_cases H; log_done H.
Qed.

Lemma ls_print_body_plain (d : Disk) (g : Garbage) (dir_buffer : list byte) (x : Z)
    st l :
  ls_print_body d g dir_buffer x = Some (st, l) -> forallb plain l = true.
Proof.
  intros H. unfold ls_print_body in H. body_cases H; log_done H.
Qed.

Lemma ls_block_body_plain (d : Disk) (g : Garbage) (pathpart : list byte)
    (dir_inode : Inode) s st l :
  ls_block_body d g pathpart dir_inode s = Some (st, l) -> forallb plain l = true.
Proof.
  intros H. unfold ls_block_body in H. destruct s as [dirblock dir_buffer].
  body_cases H; try log_done H.
  match type of H with
  | context [loop ?f ?b ?s] =>
      pose proof (loop_log b plain
                    (fun x st l => ls_scan_body_plain _ _ _ _ _ _ x st l) f s) as Q;
      destruct (loop f b s) as [[r l']|]; [|discriminate]
  end.
  specialize (Q r l' eq_refl).
  destruct r; body_cases H; log_done H.
Qed.

Lemma read_block_body_plain (d : Disk) (g : Garbage) (pathpart : list byte)
    (s : read_state) st l :
  read_block_body d g pathpart s = Some (st, l) -> forallb plain l = true.
Proof.
  intros H. unfold read_block_body in H.
  body_cases H; try log_done H.
  match type of H with
  | context [loop ?f ?b ?s] =>
      pose proof (loop_log b plain
                    (fun x st l => read_scan_body_plain _ _ _ _ x st l) f s) as Q;
      destruct (loop f b s) as [[r l']|]; [|discriminate]
  end.
  specialize (Q r l' eq_refl).
  destruct r; body_cases H; log_done H.
Qed.

Lemma ls_list_body_plain (d : Disk) (g : Garbage) (dir_inode : Inode) s st l :
  ls_list_body d g dir_inode s = Some (st, l) -> forallb plain l = true.
Proof.
  intros H. unfold ls_list_body in H. destruct s as [dirblock dir_buffer].
  body_cases H; try log_done H.
  match type of H with
  | context [loop ?f ?b ?s] =>
      pose proof (loop_log b plain
                    (fun x st l => ls_print_body_plain _ _ _ x st l) f s) as Q;
      destruct (loop f b s) as [[r l']|]; [|discriminate]
  end.
  specialize (Q r l' eq_refl).
  destruct r; body_cases H; log_done H.
Qed.

Lemma ls_walk_plain (d : Disk) (g : Garbage) (parts : list (list byte)) :
  forall dir_inode dirblock dir_buffer r l,
    ls_walk d g parts dir_inode dirblock dir_buffer = Some (r, l) ->
    forallb plain l = true.
Proof.
  induction parts as [|pathpart parts IH]; intros dir_inode dirblock dir_buffer r l H.
  - inversion H. reflexivity.
  - cbn [ls_walk] in H.
    match type of H with
    | context [loop ?f ?b ?s] =>
        pose proof (loop_log b plain
                      (fun x st l => ls_block_body_plain _ _ _ _ x st l) f s) as Q;
        destruct (loop f b s) as [[r' l']|]; [|discriminate]
    end.
    specialize (Q r' l' eq_refl).
    destruct r' as [rv|n di db buf]; [log_done H|].
    destruct (n =? 0); [log_done H|].
    destruct (ls_walk d g parts di db buf) as [[r1 l1]|] eqn:E; [|discriminate].
    pose proof (IH _ _ _ _ _ E). log_done H.
Qed.

Lemma read_walk_plain (d : Disk) (g : Garbage) (parts : list (list byte)) :
  forall st r l,
    read_walk d g parts st = Some (r, l) -> forallb plain l = true.
Proof.
  induction parts as [|pathpart parts IH]; intros st r l H.
  - inversion H. reflexivity.
  - cbn [read_walk] in H.
    destruct (negb (rs_file_inode_number st =? 0)); [log_done H|].
    match type of H with
    | context [loop ?f ?b ?s] =>
        pose proof (loop_log b plain
                      (fun x st l => read_block_body_plain _ _ _ x st l) f s) as Q;
        destruct (loop f b s) as [[r' l']|]; [|discriminate]
    end.
    specialize (Q r' l' eq_refl).
    destruct r' as [rv|st']; [log_done H|].
    destruct (_ && _); [log_done H|].
    destruct (read_walk d g parts st') as [[r1 l1]|] eqn:E; [|discriminate].
    pose proof (IH _ _ _ E). log_done H.
Qed.

Lemma unix_ls_plain (d : Disk) (g : Garbage) (path : list byte) rv l :
  unix_ls d g path = Some (rv, l) -> forallb plain l = true.
Proof.
  intros H. unfold unix_ls in H.
  destruct (negb _); [log_done H|].
  body_cases H; [|log_done H].
  destruct (ls_walk _ _ _ _ _ _) as [[r1 l1]|] eqn:E; [|discriminate].
  pose proof (ls_walk_plain _ _ _ _ _ _ _ _ E).
  destruct r1 as [rv1|di db buf]; [log_done H|].
  match type of H with
  | context [loop ?f ?b ?s] =>
      pose proof (loop_log b plain
                    (fun x st l => ls_list_body_plain _ _ _ x st l) f s) as Q;
      destruct (loop f b s) as [[r' l']|]; [|discriminate]
  end.
  specialize (Q r' l' eq_refl). log_done H.
Qed.

(** ** The destination file *)

Lemma host_write_frame (h : Host) (f f' : File) (old w bs : list byte) :
  file_is old w f -> host_write h f bs = Some f' -> file_is old (w ++ bs) f'.
Proof.
  intros [Hc Hp] H. unfold host_write in H.
  destruct (write_fails h (pos f)); [discriminate|].
  inversion H; subst; clear H. unfold file_is; simpl.
  rewrite Hp, Hc, Nat2Z.id. split.
  - rewrite firstn_app, firstn_all, Nat.sub_diag, firstn_O, app_nil_r.
    rewrite <- app_assoc. f_equal. f_equal.
    rewrite skipn_app, skipn_all2 by lia. simpl.
    rewrite skipn_skipn, length_app. f_equal. lia.
  - rewrite length_app. lia.
Qed.

Lemma read_copy_body_frame (d : Disk) (g : Garbage) (h : Host) (ino : Inode)
    (old : list byte) x fileblock file_buffer f st l w :
  read_copy_body d g h ino (x, fileblock, file_buffer, f) = Some (st, l) ->
  file_is old w f ->
  match st with
  | Continue (_, _, _, f') => file_is old (w ++ written l) f'
  | Done r => file_is old (w ++ written l) (copy_file r)
  end /\ forallb no_magic l = true.
Proof.
  intros H Hf. unfold read_copy_body in H.
  destruct (x <? size ino).
  - pose proof (inode_block_read_plain d g fileblock ino file_buffer) as P.
    destruct (inode_block_read d g fileblock ino file_buffer) as [[rv buf'] l0].
    simpl in P. pose proof (plain_written _ P) as W.
    pose proof (plain_no_magic _ P) as N.
    destruct (rv <? 0).
    { inversion H; subst. rewrite W, app_nil_r. split; assumption. }
    destruct (rv =? 0).
    { inversion H; subst. rewrite written_app, W, forallb_app, N. simpl.
      rewrite app_nil_r. split; [assumption | reflexivity]. }
    destruct (host_write h f _) as [f'|] eqn:E.
    + inversion H; subst. rewrite written_app, W, forallb_app, N. simpl.
      rewrite app_nil_r. split; [|reflexivity].
      eapply host_write_frame; eassumption.
    + inversion H; subst. rewrite written_app, W, forallb_app, N. simpl.
      rewrite app_nil_r. split; [assumption | reflexivity].
  - inversion H; subst. simpl. rewrite app_nil_r. split; [assumption | reflexivity].
Qed.

Lemma copy_loop_frame (d : Disk) (g : Garbage) (h : Host) (ino : Inode)
    (old : list byte) (fuel : nat) :
  forall x fileblock file_buffer f r l w,
    loop fuel (read_copy_body d g h ino) (x, fileblock, file_buffer, f) = Some (r, l) ->
    file_is old w f ->
    file_is old (w ++ written l) (copy_file r) /\ forallb no_magic l = true.
Proof.
  induction fuel as [|fuel IH]; intros x fileblock file_buffer f r l w H Hf.
  - discriminate.
  - rewrite loop_S in H.
    destruct (read_copy_body d g h ino (x, fileblock, file_buffer, f))
      as [[[[[[x' fb'] buf'] f']|r'] l0]|] eqn:E; try discriminate.
    + destruct (read_copy_body_frame _ _ _ _ old _ _ _ _ _ _ w E Hf) as [Hf' N].
      destruct (loop fuel _ _) as [[r1 l1]|] eqn:E1; [|discriminate].
      inversion H; subst.
      destruct (IH _ _ _ _ _ _ _ E1 Hf') as [Hf'' N'].
      rewrite written_app, app_assoc, forallb_app, N, N'. split; [assumption|reflexivity].
    + destruct (read_copy_body_frame _ _ _ _ old _ _ _ _ _ _ w E Hf) as [Hf' N].
      inversion H; subst. split; assumption.
Qed.

Lemma read_copy_frame (d : Disk) (g : Garbage) (h : Host) (ino : Inode)
    (old : list byte) (f f' : File) rv l :
  read_copy d g h ino f = Some (rv, f', l) -> file_is old [] f ->
  file_is old (written l) f' /\ forallb no_magic l = true.
Proof.
  intros H Hf. unfold read_copy in H.
  destruct (loop _ _ _) as [[r l0]|] eqn:E; [|discriminate].
  destruct (copy_loop_frame _ _ _ _ old _ _ _ _ _ _ _ [] E Hf) as [Hf' N].
  simpl in Hf'.
  destruct r as [rv' f1|x f1]; inversion H; subst; simpl.
  - split; assumption.
  - rewrite written_app, forallb_app, N. simpl. rewrite app_nil_r.
    split; [assumption | reflexivity].
Qed.

(** What [unix_read] leaves at the destination: the octets it wrote, then
    what the file held beyond them. *)
Lemma unix_read_frame (d : Disk) (g : Garbage) (h h' : Host) (path old : list byte)
    rv l :
  dest h = Some old ->
  unix_read d g h path = Some (rv, h', l) ->
  dest h' = Some (written l ++ skipn (length (written l)) old) /\
  forallb no_magic l = true.
Proof.
  intros Hd H. unfold unix_read in H.
  destruct (negb _).
  { inversion H; subst. split; [exact Hd | reflexivity]. }
  unfold host_open in H. rewrite Hd in H.
  destruct (open_fails h).
  { inversion H; subst. split; [exact Hd | reflexivity]. }
  change (has_flag O_TRUNC [O_RDWR; O_CREAT]) with false in H. cbv iota in H.
  pose proof (read_inode_plain d g 2) as P.
  destruct (read_inode d g 2) as [[dir_inode|rv0] l0]; simpl in P.
  2:{ inversion H; subst. rewrite (plain_written _ P), (plain_no_magic _ P).
      split; reflexivity. }
  destruct (read_walk _ _ _ _) as [[r1 l1]|] eqn:E; [|discriminate].
  pose proof (read_walk_plain _ _ _ _ _ _ E) as P1.
  assert (Pw : forall l2, forallb plain l2 = true ->
                 written (l0 ++ l1 ++ l2) = [] /\
                 forallb no_magic (l0 ++ l1 ++ l2) = true).
  { intros l2 P2. rewrite !written_app, !forallb_app.
    rewrite (plain_written _ P), (plain_written _ P1), (plain_written _ P2).
    rewrite (plain_no_magic _ P), (plain_no_magic _ P1), (plain_no_magic _ P2).
    split; reflexivity. }
  destruct r1 as [rv1|st'].
  { inversion H; subst. destruct (Pw [] eq_refl) as [W N].
    rewrite app_nil_r in W, N. rewrite W, N. split; reflexivity. }
  destruct (rs_file_inode_number st' =? 0).
  { inversion H; subst.
    match goal with
    | |- context [l0 ++ l1 ++ ?l2] => destruct (Pw l2 eq_refl) as [W N]
    end.
    rewrite W, N. split; reflexivity. }
  destruct (read_copy _ _ _ _ _) as [[[rv2 f2] l2]|] eqn:E2; [|discriminate].
  inversion H; subst.
  destruct (read_copy_frame _ _ _ _ old _ _ _ _ E2) as [[Hc Hp] N].
  { split; reflexivity. }
  simpl. rewrite !written_app, !forallb_app.
  rewrite (plain_written _ P), (plain_written _ P1).
  rewrite (plain_no_magic _ P), (plain_no_magic _ P1), N. simpl.
  rewrite Hc. split; reflexivity.
Qed.

(** C10: the destination is opened without truncation.  If the destination
    exists with content [old] and [unix_read] wrote [S] octets with
    [S < length old], then afterwards the destination still has the length of
    [old], its octets from position [S] on are those of [old], and it is not
    equal to the octets written. *)
Theorem unix_read_keeps_tail (d : Disk) (g : Garbage) (h h' : Host)
    (path old : list byte) (rv : Z) (l : list event) :
  dest h = Some old ->
  unix_read d g h path = Some (rv, h', l) ->
  (length (written l) < length old)%nat ->
  exists new,
    dest h' = Some new /\
    firstn (length (written l)) new = written l /\
    skipn (length (written l)) new = skipn (length (written l)) old /\
    length new = length old /\
    new <> written l.
Proof.
  intros Hd H HS.
  destruct (unix_read_frame d g h h' path old rv l Hd H) as [Hn _].
  exists (written l ++ skipn (length (written l)) old).
  split; [exact Hn|]. split; [|split; [|split]].
  - rewrite firstn_app, firstn_all, Nat.sub_diag, firstn_O, app_nil_r. reflexivity.
  - rewrite skipn_app, skipn_all, Nat.sub_diag. reflexivity.
  - rewrite length_app, length_skipn. lia.
  - intros E. apply (f_equal (@length byte)) in E.
    rewrite length_app, length_skipn in E. lia.
Qed.

(** C10 on the path scenario: [/bin/sh] (1500 octets) is read into an existing
    file of 2000 octets 0xEE; the file keeps its length and its last 500
    octets. *)
Lemma unix_read_keeps_tail_witness :
  exists rv h' l new,
    unix_read Fixture.scenario_disk Fixture.garbage0 Fixture.host_old
              (bytes "/bin/sh") = Some (rv, h', l) /\
    length (written l) = 1500%nat /\
    dest h' = Some new /\
    length new = 2000%nat /\
    skipn 1500 new = repeat xee 500.
Proof.
  destruct (unix_read Fixture.scenario_disk Fixture.garbage0 Fixture.host_old
                      (bytes "/bin/sh")) as [[[rv h'] l]|] eqn:E.
  2:{ vm_compute in E. discriminate. }
  assert (HS : length (written l) = 1500%nat).
  { assert (Hc : option_map (fun r => length (written (snd r)))
                   (unix_read Fixture.scenario_disk Fixture.garbage0
                      Fixture.host_old (bytes "/bin/sh")) = Some 1500%nat)
      by (vm_compute; reflexivity).
    rewrite E in Hc. simpl in Hc. injection Hc. auto. }
  destruct (unix_read_keeps_tail Fixture.scenario_disk Fixture.garbage0
              Fixture.host_old h' (bytes "/bin/sh") (repeat xee 2000) rv l
              eq_refl E) as (new & Hn & _ & Hs & Hl & _).
  - rewrite HS, repeat_length. lia.
  - exists rv, h', l, new. split; [reflexivity|]. split; [exact HS|].
    split; [exact Hn|]. split.
    + rewrite Hl. apply repeat_length.
    + rewrite HS in Hs. rewrite Hs. vm_compute. reflexivity.
Defined.

(** ** The copy loop *)

Lemma write_sizes_app (l l' : list event) :
  write_sizes (l ++ l') = write_sizes l ++ write_sizes l'.
Proof.
  induction l as [|e l IH]; [reflexivity|].
  destruct e; simpl; rewrite IH; reflexivity.
Qed.

Lemma plain_write_sizes (l : list event) :
  forallb plain l = true -> write_sizes l = [].
Proof.
  induction l as [|e l IH]; [reflexivity|]. simpl.
  intros H. apply andb_true_iff in H. destruct H as [He Hl].
  destruct e; try discriminate; simpl; auto.
Qed.

Lemma readable_s32 (d : Disk) (p : Z) : readable d p -> s32 p = p.
Proof.
  intros (H0 & H1 & _). apply s32_small.
  change (2 ^ 31) with 2147483648 in *. lia.
Qed.

(** A logical block the address map supplies is read in full, from the
    block the map names. *)
Lemma inode_block_read_supplied (d : Disk) (g : Garbage) (ino : Inode)
    (phys : Z -> Z) (k : Z) (buf : list byte) :
  wf_inode ino -> supplies d ino phys k ->
  exists l,
    inode_block_read d g k ino buf = (1024, fill buf (block_of d (phys k)), l) /\
    forallb plain l = true.
Proof.
  intros Hwf (Hm & Hnz & Hr).
  pose proof (inode_block_read_plain d g k ino buf) as P.
  destruct Hm as [(Hk & Hp) | [(Hk & Hr10 & Hp) | (Hk & Hr11 & Hp)]].
  - rewrite inode_block_read_direct in * by (assumption || lia).
    rewrite <- Hp in *.
    destruct (Z.eqb_spec (phys k) 0); [contradiction|].
    rewrite disk_block_read_readable in * by assumption.
    eexists. split; [reflexivity | exact P].
  - rewrite inode_block_read_single in * by assumption.
    rewrite <- Hp in *. rewrite (readable_s32 d _ Hr) in *.
    rewrite disk_block_read_readable in * by assumption.
    eexists. split; [reflexivity | exact P].
  - cbv zeta in Hp. destruct Hp as (Hr1 & Hp).
    rewrite inode_block_read_double in * by assumption.
    rewrite <- Hp in *. rewrite (readable_s32 d _ Hr) in *.
    rewrite disk_block_read_readable in * by assumption.
    eexists. split; [reflexivity | exact P].
Qed.

Lemma file_blocks_S (d : Disk) (phys : Z -> Z) (k : Z) (j : nat) :
  file_blocks d phys k (S j) = block_of d (phys k) ++ file_blocks d phys (k + 1) j.
Proof.
  unfold file_blocks. simpl seq. simpl flat_map.
  rewrite Z.add_0_r. f_equal.
  rewrite <- seq_shift, flat_map_seq_shift.
  apply flat_map_ext. intros i. f_equal. f_equal. lia.
Qed.

Lemma file_blocks_snoc (d : Disk) (phys : Z -> Z) (k : Z) (j : nat) :
  file_blocks d phys k (S j)
  = file_blocks d phys k j ++ block_of d (phys (k + Z.of_nat j)).
Proof.
  unfold file_blocks. rewrite seq_S, flat_map_app. simpl.
  rewrite app_nil_r. reflexivity.
Qed.

Lemma length_file_blocks (d : Disk) (phys : Z -> Z) (k : Z) (j : nat) :
  (forall i, k <= i < k + Z.of_nat j -> readable d (phys i)) ->
  length (file_blocks d phys k j) = (1024 * j)%nat.
Proof.
  revert k. induction j as [|j IH]; intros k H; [reflexivity|].
  rewrite file_blocks_S, length_app, IH.
  - destruct (H k ltac:(lia)) as (H0 & _ & H1 & _).
    rewrite length_block_of by assumption. lia.
  - intros i Hi. apply H. lia.
Qed.

Lemma u32_small (x : Z) : 0 <= x < 2 ^ 32 -> u32 x = x.
Proof.
  intros H. unfold u32. apply Z.mod_small. assumption.
Qed.

(** One iteration of the copy loop on a block the address map supplies. *)
Lemma read_copy_body_step (d : Disk) (g : Garbage) (h : Host) (ino : Inode)
    (phys : Z -> Z) (old w buf : list byte) (x k : Z) (f : File) :
  wf_inode ino -> (forall pos, write_fails h pos = false) ->
  0 <= x < size ino -> supplies d ino phys k -> file_is old w f ->
  let osize := Z.min 1024 (size ino - x) in
  let out := firstn (Z.to_nat osize) (block_of d (phys k)) in
  exists l f',
    read_copy_body d g h ino (x, k, buf, f)
    = Some (Continue (x + osize, k + 1, fill buf (block_of d (phys k)), f'), l) /\
    file_is old (w ++ out) f' /\
    written l = out /\ write_sizes l = [osize] /\
    forallb no_magic l = true.
Proof.
  intros Hwf Hw Hx Hs Hf osize out.
  pose proof Hwf as (_ & _ & HS). change (2 ^ 32) with 4294967296 in HS.
  destruct (inode_block_read_supplied d g ino phys k buf Hwf Hs) as (l & Hr & P).
  destruct Hs as (_ & _ & Hrd). destruct Hrd as (Hp0 & _ & Hlen & _).
  pose proof (length_block_of d (phys k) Hp0 Hlen) as Hbl.
  unfold read_copy_body.
  destruct (Z.ltb_spec x (size ino)); [|lia].
  rewrite Hr.
  destruct (Z.ltb_spec 1024 0); [lia|].
  destruct (Z.eqb_spec 1024 0); [lia|].
  rewrite (u32_small (size ino - x)) by (change (2 ^ 32) with 4294967296; lia).
  assert (Ho : (if size ino - x <? 1024 then s32 (size ino - x) else 1024) = osize).
  { unfold osize. destruct (Z.ltb_spec (size ino - x) 1024).
    - rewrite s32_small by (change (2 ^ 31) with 2147483648; lia). lia.
    - lia. }
  rewrite Ho.
  assert (Hout : firstn (Z.to_nat osize) (fill buf (block_of d (phys k))) = out).
  { unfold fill, out. rewrite firstn_app.
    replace (Z.to_nat osize - length (block_of d (phys k)))%nat with 0%nat
      by (unfold osize; lia).
    rewrite firstn_O, app_nil_r. reflexivity. }
  rewrite Hout.
  assert (Hlo : Z.of_nat (length out) = osize).
  { unfold out. rewrite length_firstn. unfold osize. lia. }
  unfold host_write. rewrite Hw.
  rewrite (u32_small (x + osize))
    by (unfold osize; change (2 ^ 32) with 4294967296; lia).
  eexists. eexists. split; [reflexivity|].
  split; [|split; [|split]].
  - eapply host_write_frame; [exact Hf|].
    unfold host_write. rewrite Hw. reflexivity.
  - rewrite written_app, (plain_written _ P). simpl. apply app_nil_r.
  - rewrite write_sizes_app, (plain_write_sizes _ P). simpl. rewrite Hlo.
    reflexivity.
  - rewrite forallb_app, (plain_no_magic _ P). reflexivity.
Qed.

(** [j] iterations of the copy loop over full blocks the address map
    supplies. *)
Lemma copy_loop_full_blocks (d : Disk) (g : Garbage) (h : Host) (ino : Inode)
    (phys : Z -> Z) (old : list byte) (j : nat) :
  wf_inode ino -> (forall pos, write_fails h pos = false) ->
  forall (k : Z) (w buf : list byte) (f : File),
    0 <= k -> 1024 * (k + Z.of_nat j) <= size ino ->
    (forall i, k <= i < k + Z.of_nat j -> supplies d ino phys i) ->
    file_is old w f ->
    exists l buf' f',
      file_is old (w ++ file_blocks d phys k j) f' /\
      written l = file_blocks d phys k j /\
      write_sizes l = repeat 1024 j /\
      forallb no_magic l = true /\
      forall fuel,
        loop (j + fuel) (read_copy_body d g h ino) (1024 * k, k, buf, f)
        = match loop fuel (read_copy_body d g h ino)
                     (1024 * (k + Z.of_nat j), k + Z.of_nat j, buf', f') with
          | None => None
          | Some (r, l') => Some (r, l ++ l')
          end.
Proof.
  intros Hwf Hw. induction j as [|j IH]; intros k w buf f Hk HS Hsup Hf.
  - exists [], buf, f. unfold file_blocks. simpl. rewrite app_nil_r, Z.add_0_r.
    repeat (split; [assumption || reflexivity|]).
    intros fuel. destruct (loop fuel _ _) as [[r l']|]; reflexivity.
  - destruct (read_copy_body_step d g h ino phys old w buf (1024 * k) k f Hwf Hw)
      as (l1 & f1 & Hb & Hf1 & W1 & Z1 & N1); try assumption.
    { lia. }
    { apply Hsup. lia. }
    assert (Hfull : Z.min 1024 (size ino - 1024 * k) = 1024) by lia.
    rewrite Hfull in *.
    assert (Hblk : firstn (Z.to_nat 1024) (block_of d (phys k)) = block_of d (phys k)).
    { destruct (Hsup k ltac:(lia)) as (_ & _ & (H0 & _ & H1 & _)).
      apply firstn_all2. rewrite length_block_of by assumption. lia. }
    rewrite Hblk in *.
    replace (1024 * k + 1024) with (1024 * (k + 1)) in Hb by lia.
    destruct (IH (k + 1) (w ++ block_of d (phys k))
                 (fill buf (block_of d (phys k))) f1)
      as (l2 & buf2 & f2 & Hf2 & W2 & Z2 & N2 & Hl); try lia; try assumption.
    { intros i Hi. apply Hsup. lia. }
    exists (l1 ++ l2), buf2, f2.
    rewrite file_blocks_S.
    split; [rewrite app_assoc; exact Hf2|].
    split; [rewrite written_app, W1, W2; reflexivity|].
    split; [rewrite write_sizes_app, Z1, Z2; reflexivity|].
    split; [rewrite forallb_app, N1, N2; reflexivity|].
    intros fuel. change (S j + fuel)%nat with (S (j + fuel)).
    rewrite loop_S, Hb, Hl.
    replace (k + 1 + Z.of_nat j) with (k + Z.of_nat (S j)) by lia.
    destruct (loop fuel _ _) as [[r l']|]; [|reflexivity].
    rewrite app_assoc. reflexivity.
Qed.

Lemma copy_fuel_eq (S : Z) :
  0 <= S -> copy_fuel S = (Z.to_nat (S / 1024) + 2)%nat.
Proof.
  intros H. unfold copy_fuel.
  assert (0 <= S / 1024) by (apply Z.div_pos; lia).
  rewrite Z2Nat.inj_add by lia. simpl (Z.to_nat 1). lia.
Qed.

(** The copy loop when it has read all it needs: it leaves at once. *)
Lemma read_copy_body_end (d : Disk) (g : Garbage) (h : Host) (ino : Inode)
    (x k : Z) (buf : list byte) (f : File) :
  size ino <= x ->
  read_copy_body d g h ino (x, k, buf, f) = Some (Done (CopyEnd x f), []).
Proof.
  intros H. unfold read_copy_body.
  destruct (Z.ltb_spec x (size ino)); [lia | reflexivity].
Qed.

(** The copy of a file whose blocks the address map all supplies. *)
Lemma read_copy_complete (d : Disk) (g : Garbage) (h : Host) (ino : Inode)
    (phys : Z -> Z) (old : list byte) (f : File) :
  wf_inode ino -> (forall pos, write_fails h pos = false) ->
  file_is old [] f ->
  (forall k, 0 <= k < (size ino + 1023) / 1024 -> supplies d ino phys k) ->
  exists f' l,
    read_copy d g h ino f = Some (0, f', l) /\
    written l
    = firstn (Z.to_nat (size ino))
             (file_blocks d phys 0 (Z.to_nat ((size ino + 1023) / 1024))) /\
    Z.of_nat (length (written l)) = size ino /\
    write_sizes l
    = repeat 1024 (Z.to_nat (size ino / 1024))
      ++ (if size ino mod 1024 =? 0 then [] else [size ino mod 1024]) /\
    file_is old (written l) f'.
Proof.
  intros Hwf Hw Hf Hsup.
  pose proof Hwf as (_ & _ & HS). change (2 ^ 32) with 4294967296 in HS.
  set (S := size ino) in *.
  set (q := S / 1024). set (r := S mod 1024).
  assert (Hqr : S = 1024 * q + r) by (apply Z.div_mod; lia).
  assert (Hr : 0 <= r < 1024) by (apply Z.mod_pos_bound; lia).
  assert (Hq : 0 <= q) by (apply Z.div_pos; lia).
  assert (Hn : (S + 1023) / 1024 = if r =? 0 then q else q + 1).
  { destruct (Z.eqb_spec r 0) as [E|E].
    - symmetry. apply (Z.div_unique _ _ _ 1023); lia.
    - symmetry. apply (Z.div_unique _ _ _ (r - 1)); lia. }
  rewrite Hn in *.
  destruct (copy_loop_full_blocks d g h ino phys old (Z.to_nat q) Hwf Hw
              0 [] (g_file_buffer g) f)
    as (l1 & buf1 & f1 & Hf1 & W1 & Z1 & N1 & Hl); try lia; try assumption.
  { intros i Hi. apply Hsup. destruct (r =? 0); lia. }
  rewrite Z2Nat.id in * by lia. simpl in Hf1.
  assert (Hlen1 : length (file_blocks d phys 0 (Z.to_nat q)) = (1024 * Z.to_nat q)%nat).
  { apply length_file_blocks. intros i Hi.
    destruct (Hsup i) as (_ & _ & H); [destruct (r =? 0); lia | exact H]. }
  unfold read_copy. fold S. rewrite copy_fuel_eq by lia. fold q.
  change (0, 0, g_file_buffer g, f) with (1024 * 0, 0, g_file_buffer g, f).
  rewrite Hl. replace (0 + q) with q by lia.
  destruct (Z.eqb_spec r 0) as [E|E].
  - (* block-aligned *)
    rewrite loop_S, read_copy_body_end by (fold S; lia).
    exists f1, (Printf "Copying %d bytes\n" [ArgI S] :: (l1 ++ []) ++
                [Printf "Wrote %d of %d bytes\n" [ArgI (1024 * q); ArgI S]]).
    split; [reflexivity|].
    cbn [written write_sizes].
    rewrite ?written_app, ?write_sizes_app, ?app_nil_r.
    cbn [written write_sizes]. rewrite ?app_nil_r, W1, Z1.
    split; [|split; [|split]].
    + rewrite firstn_all2; [reflexivity|]. rewrite Hlen1. lia.
    + rewrite Hlen1. lia.
    + reflexivity.
    + exact Hf1.
  - (* a final partial block *)
    destruct (read_copy_body_step d g h ino phys old (file_blocks d phys 0 (Z.to_nat q))
                buf1 (1024 * q) q f1 Hwf Hw)
      as (l2 & f2 & Hb & Hf2 & W2 & Z2 & N2); try assumption.
    { fold S. lia. }
    { apply Hsup. lia. }
    fold S in Hb, Hf2, W2, Z2.
    assert (Ho : Z.min 1024 (S - 1024 * q) = r) by lia.
    rewrite Ho in *.
    replace (1024 * q + r) with S in Hb by lia.
    rewrite loop_S, Hb, loop_S, read_copy_body_end by (fold S; lia).
    exists f2, (Printf "Copying %d bytes\n" [ArgI S] :: (l1 ++ l2 ++ []) ++
                [Printf "Wrote %d of %d bytes\n" [ArgI S; ArgI S]]).
    split; [reflexivity|].
    cbn [written write_sizes].
    rewrite ?written_app, ?write_sizes_app, ?app_nil_r.
    cbn [written write_sizes]. rewrite ?app_nil_r, W1, Z1, W2, Z2.
    assert (Hblk : length (block_of d (phys q)) = 1024%nat).
    { destruct (Hsup q ltac:(lia)) as (_ & _ & (H0 & _ & H1 & _)).
      apply length_block_of; assumption. }
    split; [|split; [|split]].
    + replace (Z.to_nat (q + 1)) with (Datatypes.S (Z.to_nat q)) by lia.
      rewrite file_blocks_snoc, firstn_app, Hlen1.
      rewrite (firstn_all2 (n := Z.to_nat S) (file_blocks d phys 0 (Z.to_nat q)))
        by (rewrite Hlen1; lia).
      rewrite Z2Nat.id by lia. replace (0 + q) with q by lia.
      f_equal. f_equal. lia.
    + rewrite length_app, Hlen1, length_firstn, Hblk. lia.
    + reflexivity.
    + exact Hf2.
Qed.

(** The copy of a file whose address map ends early: [m] blocks are copied,
    then the resolver returns 0 for block [m] though the size asks for
    more. *)
Lemma read_copy_eof (d : Disk) (g : Garbage) (h : Host) (ino : Inode)
    (phys : Z -> Z) (old : list byte) (f : File) (m : Z) :
  wf_inode ino -> (forall pos, write_fails h pos = false) ->
  file_is old [] f ->
  0 <= m -> 1024 * m < size ino ->
  (forall k, 0 <= k < m -> supplies d ino phys k) ->
  (forall buf, fst (fst (inode_block_read d g m ino buf)) = 0) ->
  exists f' l,
    read_copy d g h ino f = Some (-1, f', l) /\
    last l (Lseek 0) = Printf "unixtool: Unexpected end-of-file\n" [] /\
    written l = file_blocks d phys 0 (Z.to_nat m) /\
    file_is old (written l) f'.
Proof.
  intros Hwf Hw Hf Hm HS Hsup Heof.
  pose proof Hwf as (_ & _ & HS32). change (2 ^ 32) with 4294967296 in HS32.
  destruct (copy_loop_full_blocks d g h ino phys old (Z.to_nat m) Hwf Hw
              0 [] (g_file_buffer g) f)
    as (l1 & buf1 & f1 & Hf1 & W1 & Z1 & N1 & Hl); try lia; try assumption.
  { intros i Hi. apply Hsup. lia. }
  rewrite Z2Nat.id in * by lia. simpl in Hf1.
  replace (0 + m) with m in Hl by lia.
  assert (Hq : m <= size ino / 1024) by (apply Z.div_le_lower_bound; lia).
  unfold read_copy. rewrite copy_fuel_eq by lia.
  replace (Z.to_nat (size ino / 1024) + 2)%nat
    with (Z.to_nat m + S (Z.to_nat (size ino / 1024) - Z.to_nat m + 1))%nat by lia.
  change (0, 0, g_file_buffer g, f) with (1024 * 0, 0, g_file_buffer g, f).
  rewrite Hl, loop_S.
  unfold read_copy_body at 1.
  destruct (Z.ltb_spec (1024 * m) (size ino)); [|lia].
  pose proof (Heof buf1) as He.
  pose proof (inode_block_read_plain d g m ino buf1) as P.
  destruct (inode_block_read d g m ino buf1) as [[rv buf'] l0].
  simpl in He, P. subst rv. cbv iota beta.
  change (0 <? 0) with false. change (0 =? 0) with true. cbv iota.
  eexists. eexists. split; [reflexivity|].
  split; [|split].
  - rewrite app_comm_cons, !app_assoc. apply last_last.
  - cbn [written]. rewrite !written_app, W1, (plain_written _ P). simpl.
    rewrite !app_nil_r. reflexivity.
  - cbn [written]. rewrite !written_app, W1, (plain_written _ P). simpl.
    rewrite !app_nil_r. exact Hf1.
Qed.

(** C4: extraction.  For an inode of size [S] whose address map supplies a
    block for every logical index below [ceil (S / 1024)], the copy writes
    exactly [S] octets, the first [S] octets of the file's blocks in logical
    order, in writes of 1024 octets and a last one of [S mod 1024] when [S]
    is not a multiple of 1024.  If the resolver returns 0 (end of data) for a
    block before [S] octets are written, the copy fails with "Unexpected
    end-of-file", after the blocks before it were written. *)
Theorem read_copy_extracts (d : Disk) (g : Garbage) (h : Host) (ino : Inode)
    (phys : Z -> Z) (old : list byte) (f : File) :
  wf_inode ino -> (forall pos, write_fails h pos = false) ->
  file_is old [] f ->
  let S := size ino in
  let n := (S + 1023) / 1024 in
  ((forall k, 0 <= k < n -> supplies d ino phys k) ->
   exists f' l,
     read_copy d g h ino f = Some (0, f', l) /\
     written l = firstn (Z.to_nat S) (file_blocks d phys 0 (Z.to_nat n)) /\
     Z.of_nat (length (written l)) = S /\
     write_sizes l
     = repeat 1024 (Z.to_nat (S / 1024))
       ++ (if S mod 1024 =? 0 then [] else [S mod 1024]) /\
     contents f' = written l ++ skipn (Z.to_nat S) old)
  /\
  (forall m, 0 <= m < n ->
     (forall k, 0 <= k < m -> supplies d ino phys k) ->
     (forall buf, fst (fst (inode_block_read d g m ino buf)) = 0) ->
     exists f' l,
       read_copy d g h ino f = Some (-1, f', l) /\
       last l (Lseek 0) = Printf "unixtool: Unexpected end-of-file\n" [] /\
       written l = file_blocks d phys 0 (Z.to_nat m)).
Proof.
  intros Hwf Hw Hf S n. split.
  - intros Hsup.
    destruct (read_copy_complete d g h ino phys old f Hwf Hw Hf Hsup)
      as (f' & l & Hr & W & Hlen & Hz & Hc & _).
    exists f', l. repeat (split; [assumption|]).
    rewrite Hc. f_equal. f_equal. fold S in Hlen. lia.
  - intros m Hm Hsup Heof.
    assert (HS : 1024 * m < size ino).
    { fold S. unfold n in Hm.
      assert (m + 1 <= (S + 1023) / 1024) by lia.
      pose proof (Z.mul_div_le (S + 1023) 1024 ltac:(lia)). lia. }
    destruct (read_copy_eof d g h ino phys old f m Hwf Hw Hf ltac:(lia) HS Hsup Heof)
      as (f' & l & Hr & Hlast & W & _).
    exists f', l. repeat (split; [assumption|]). assumption.
Qed.

(** C4 on the image with indirection: inode 5 (11564 octets, ten direct
    blocks and two through the indirect block) is copied in eleven writes of
    1024 octets and one of 300; inode 6 (3000 octets, two blocks and a hole)
    fails with "Unexpected end-of-file" after two blocks. *)
Lemma read_copy_extracts_witness :
  let d := Fixture.indirect_disk in
  let g := Fixture.garbage0 in
  (exists f' l,
     read_copy d g Fixture.host0 Fixture.inode5 Fixture.file0 = Some (0, f', l) /\
     Z.of_nat (length (written l)) = 11564 /\
     write_sizes l = repeat 1024 11 ++ [300] /\
     contents f' = written l) /\
  (exists f' l,
     read_copy d g Fixture.host0 Fixture.inode6 Fixture.file0 = Some (-1, f', l) /\
     last l (Lseek 0) = Printf "unixtool: Unexpected end-of-file\n" [] /\
     written l = file_blocks d Fixture.phys5 0 2).
Proof.
  intros d g.
  assert (Hf : file_is [] [] Fixture.file0) by (split; reflexivity).
  split.
  - destruct (read_copy_extracts d g Fixture.host0 Fixture.inode5 Fixture.phys5
                [] Fixture.file0) as [H _].
    + solve_wf_inode.
    + reflexivity.
    + exact Hf.
    + destruct H as (f' & l & Hr & _ & Hlen & Hz & Hc).
      * intros k Hk. change ((size Fixture.inode5 + 1023) / 1024) with 12 in Hk.
        assert (Hcases : k = 0 \/ k = 1 \/ k = 2 \/ k = 3 \/ k = 4 \/ k = 5 \/
                         k = 6 \/ k = 7 \/ k = 8 \/ k = 9 \/ k = 10 \/ k = 11)
          by lia.
        unfold supplies, maps_to.
        repeat (destruct Hcases as [->|Hcases]); try subst k;
          (split; [|split; [by_compute | solve_readable]]);
          first [ left; split; [lia | reflexivity]
                | right; left; split; [lia|]; split; [solve_readable | by_compute] ].
      * exists f', l. split; [exact Hr|]. split; [exact Hlen|].
        split; [exact Hz|]. rewrite Hc. apply app_nil_r.
  - destruct (read_copy_extracts d g Fixture.host0 Fixture.inode6 Fixture.phys5
                [] Fixture.file0) as [_ H].
    + solve_wf_inode.
    + reflexivity.
    + exact Hf.
    + apply (H 2).
      * by_compute || (split; by_compute).
      * intros k Hk.
        assert (Hcases : k = 0 \/ k = 1) by lia.
        unfold supplies, maps_to.
        destruct Hcases as [->| ->];
          (split; [|split; [by_compute | solve_readable]]);
          left; split; [lia | reflexivity | lia | reflexivity].
      * intros buf. reflexivity.
Defined.

(** ** The directory scan *)

Lemma scan_from_spec (buf : list byte) (n : nat) :
  forall k,
    let m := length (scan_from buf k n) in
    (m <= n)%nat /\
    (forall j, (j < m)%nat -> entry_inode buf (k + j) <> 0) /\
    ((m < n)%nat -> entry_inode buf (k + m) = 0).
Proof.
  induction n as [|n IH]; intros k; simpl.
  - split; [lia|]. split; [intros j Hj; lia | lia].
  - destruct (Z.eqb_spec (entry_inode buf k) 0) as [E|E]; simpl.
    + split; [lia|]. split; [intros j Hj; lia|]. intros _.
      rewrite Nat.add_0_r. exact E.
    + destruct (IH (S k)) as (H1 & H2 & H3). split; [lia|]. split.
      * intros [|j] Hj; [rewrite Nat.add_0_r; exact E|].
        replace (k + S j)%nat with (S k + j)%nat by lia. apply H2. lia.
      * intros Hlt. replace (k + S (length (scan_from buf (S k) n)))%nat
          with (S k + length (scan_from buf (S k) n))%nat by lia.
        apply H3. lia.
Qed.

Lemma scanBlock_nonzero (buf : list byte) (k : nat) :
  (k < length (scanBlock buf))%nat -> entry_inode buf k <> 0.
Proof.
  intros Hk. destruct (scan_from_spec buf 64 0) as (_ & Hnz & _).
  fold (scanBlock buf) in Hnz. exact (Hnz k Hk).
Qed.

Lemma le16_be16_zero (buf : list byte) (off : Z) :
  le16 buf off = 0 <-> be16 buf off = 0.
Proof.
  unfold le16, be16. rewrite !Z.lor_eq_0_iff, !Z.shiftl_eq_0_iff by lia. tauto.
Qed.

(** Inside the buffer, [dir_entry->inode] is the entry's inode number as the
    host loads it. *)
Lemma dirent_inode_entry (g : Garbage) (buf : list byte) (k : nat) :
  length buf = 1024%nat -> (k < 64)%nat ->
  dirent_inode g buf (Z.of_nat k) = le16 buf (16 * Z.of_nat k) /\
  swap_hword (dirent_inode g buf (Z.of_nat k)) = entry_inode buf k /\
  (dirent_inode g buf (Z.of_nat k) = 0 <-> entry_inode buf k = 0).
Proof.
  intros Hl Hk.
  assert (E : dirent_inode g buf (Z.of_nat k) = le16 buf (16 * Z.of_nat k)).
  { unfold dirent_inode, dir_mem. apply le16_ext; apply byte_at_app_l; lia. }
  split; [exact E|]. rewrite E. split.
  - apply swap_hword_le16.
  - apply le16_be16_zero.
Qed.

Lemma read_inode_loaded (d : Disk) (g : Garbage) (n : Z) :
  (forall pos, faulty d pos = false) -> 0 <= n < 2 ^ 16 ->
  read_inode d g n
  = (Ok (loaded_inode d g n), [Lseek (0x7C0 + n * 0x40); Read 0x40]).
Proof.
  intros Hf Hn. unfold read_inode. change (2 ^ 16) with 65536 in Hn.
  rewrite s32_small by (change (2 ^ 31) with 2147483648; lia).
  unfold lseek.
  destruct (Z.ltb_spec (0x7C0 + n * 0x40) 0); [lia|].
  destruct (Z.ltb_spec (0x7C0 + n * 0x40) 0); [lia|].
  unfold read. rewrite Hf. reflexivity.
Qed.

Lemma iter_succ_Z (j : nat) (x : Z) :
  Nat.iter j (fun x => x + 1) x = x + Z.of_nat j.
Proof.
  induction j as [|j IH]; simpl Nat.iter; [lia|]. rewrite IH. lia.
Qed.

(** The printing scan of a directory block on a device without errors: it
    prints the entries [scanBlock] yields, in order, and stops at their
    number. *)
Lemma ls_print_scan (d : Disk) (g : Garbage) (buf : list byte) :
  length buf = 1024%nat -> (forall pos, faulty d pos = false) ->
  let n := length (scanBlock buf) in
  loop scan_fuel (ls_print_body d g buf) 0
  = Some (PrintEnd (Z.of_nat n), flat_map (ls_entry_log d g buf) (seq 0 n)).
Proof.
  intros Hl Hf n.
  destruct (scan_from_spec buf 64 0) as (Hn & Hnz & Hz). fold (scanBlock buf) in *.
  fold n in Hn, Hnz, Hz. simpl in Hnz, Hz.
  rewrite (loop_count (ls_print_body d g buf) (fun x => x + 1)
             (fun x => ls_entry_log d g buf (Z.to_nat x)) n 0 scan_fuel
             (PrintEnd (Z.of_nat n)) []).
  - rewrite app_nil_r. f_equal. f_equal.
    apply flat_map_ext. intros j. rewrite iter_succ_Z. f_equal. lia.
  - unfold scan_fuel. lia.
  - intros j Hj. rewrite iter_succ_Z. simpl (0 + Z.of_nat j).
    destruct (dirent_inode_entry g buf j Hl ltac:(lia)) as (_ & Hs & Hzero).
    unfold ls_print_body.
    destruct (Z.eqb_spec (dirent_inode g buf (Z.of_nat j)) 0) as [E|E].
    { apply Hzero in E. exfalso. exact (Hnz j Hj E). }
    destruct (Z.ltb_spec (Z.of_nat j) 64); [|lia]. simpl negb. cbv iota.
    simpl andb. cbv iota.
    rewrite Hs, read_inode_loaded by (assumption || apply be16_range).
    unfold ls_entry_log. rewrite Nat2Z.id. reflexivity.
  - rewrite iter_succ_Z. simpl (0 + Z.of_nat n). unfold ls_print_body.
    destruct (Nat.eq_dec n 64) as [E|E].
    + rewrite E. change (Z.of_nat 64 <? 64) with false.
      rewrite andb_false_r. reflexivity.
    + destruct (dirent_inode_entry g buf n Hl ltac:(lia)) as (_ & _ & Hzero).
      destruct (Z.eqb_spec (dirent_inode g buf (Z.of_nat n)) 0) as [E0|E0].
      * reflexivity.
      * exfalso. apply E0. apply Hzero. apply Hz. lia.
Qed.

(** The loop condition [dir_entry->inode != 0 && x < 64] holds exactly below
    the number of entries [scanBlock] yields. *)
Lemma scan_cond (g : Garbage) (buf : list byte) (j : nat) :
  length buf = 1024%nat -> (j <= length (scanBlock buf))%nat ->
  negb (dirent_inode g buf (Z.of_nat j) =? 0) && (Z.of_nat j <? 64)
  = (Z.of_nat j <? Z.of_nat (length (scanBlock buf))).
Proof.
  intros Hl Hj.
  destruct (scan_from_spec buf 64 0) as (Hn & Hnz & Hz).
  fold (scanBlock buf) in *. simpl in Hnz, Hz.
  destruct (Z.ltb_spec (Z.of_nat j) (Z.of_nat (length (scanBlock buf)))) as [Hlt|Hge].
  - destruct (dirent_inode_entry g buf j Hl ltac:(lia)) as (_ & _ & Hzero).
    destruct (Z.eqb_spec (dirent_inode g buf (Z.of_nat j)) 0) as [E|E].
    + apply Hzero in E. exfalso. apply (Hnz j); [lia | exact E].
    + destruct (Z.ltb_spec (Z.of_nat j) 64); [reflexivity | lia].
  - assert (j = length (scanBlock buf)) by lia. subst j.
    destruct (Z.ltb_spec (Z.of_nat (length (scanBlock buf))) 64) as [H64|H64].
    + destruct (dirent_inode_entry g buf (length (scanBlock buf)) Hl ltac:(lia))
        as (_ & _ & Hzero).
      rewrite andb_true_r.
      destruct (Z.eqb_spec (dirent_inode g buf (Z.of_nat (length (scanBlock buf)))) 0)
        as [E|E]; [reflexivity|].
      exfalso. apply E. apply Hzero. apply Hz. lia.
    + apply andb_false_r.
Qed.

(** The lookups scan the same entries: a match is found below the number of
    entries [scanBlock] yields, and a scan without a match ends there. *)
Lemma read_scan_stops (d : Disk) (g : Garbage) (pathpart : list byte)
    (st : read_state) (r : rscan_exit) (l : list event) :
  length (rs_dir_buffer st) = 1024%nat ->
  loop scan_fuel (read_scan_body d g pathpart st) 0 = Some (r, l) ->
  let n := Z.of_nat (length (scanBlock (rs_dir_buffer st))) in
  match r with
  | RScanReturn _ => True
  | RScanFound x _ => 0 <= x < n
  | RScanEnd x => x = n
  end.
Proof.
  intros Hl H n.
  apply (loop_inv (read_scan_body d g pathpart st)
           (fun x => exists j, x = Z.of_nat j /\
                               (j <= length (scanBlock (rs_dir_buffer st)))%nat)
           (fun r => match r with
                     | RScanReturn _ => True
                     | RScanFound x _ => 0 <= x < n
                     | RScanEnd x => x = n
                     end)) with (fuel := scan_fuel) (s := 0) (l := l).
  - intros x x' l0 (j & -> & Hj) Hb. unfold read_scan_body in Hb.
    rewrite (scan_cond g _ j Hl Hj) in Hb.
    destruct (Z.ltb_spec (Z.of_nat j) (Z.of_nat (length (scanBlock (rs_dir_buffer st)))));
      [|discriminate].
    exists (S j). body_cases Hb; inversion Hb; subst; split; lia.
  - intros x r0 l0 (j & -> & Hj) Hb. unfold read_scan_body in Hb.
    rewrite (scan_cond g _ j Hl Hj) in Hb.
    destruct (Z.ltb_spec (Z.of_nat j) (Z.of_nat (length (scanBlock (rs_dir_buffer st))))).
    + body_cases Hb; inversion Hb; subst; try exact I; unfold n; lia.
    + inversion Hb; subst. unfold n. lia.
  - exists 0%nat. split; [reflexivity | lia].
  - exact H.
Qed.

Lemma ls_scan_stops (d : Disk) (g : Garbage) (pathpart buf : list byte)
    (dir_inode : Inode) (dirblock : Z) (r : scan_exit) (l : list event) :
  length buf = 1024%nat ->
  loop scan_fuel (ls_scan_body d g pathpart buf dir_inode dirblock) 0 = Some (r, l) ->
  let n := Z.of_nat (length (scanBlock buf)) in
  match r with
  | ScanReturn _ => True
  | ScanFound x _ _ _ => 0 <= x < n
  | ScanEnd x => x = n
  end.
Proof.
  intros Hl H n.
  apply (loop_inv (ls_scan_body d g pathpart buf dir_inode dirblock)
           (fun x => exists j, x = Z.of_nat j /\ (j <= length (scanBlock buf))%nat)
           (fun r => match r with
                     | ScanReturn _ => True
                     | ScanFound x _ _ _ => 0 <= x < n
                     | ScanEnd x => x = n
                     end)) with (fuel := scan_fuel) (s := 0) (l := l).
  - intros x x' l0 (j & -> & Hj) Hb. unfold ls_scan_body in Hb.
    rewrite (scan_cond g _ j Hl Hj) in Hb.
    destruct (Z.ltb_spec (Z.of_nat j) (Z.of_nat (length (scanBlock buf))));
      [|discriminate].
    exists (S j). body_cases Hb; inversion Hb; subst; split; lia.
  - intros x r0 l0 (j & -> & Hj) Hb. unfold ls_scan_body in Hb.
    rewrite (scan_cond g _ j Hl Hj) in Hb.
    destruct (Z.ltb_spec (Z.of_nat j) (Z.of_nat (length (scanBlock buf)))).
    + body_cases Hb; inversion Hb; subst; try exact I; unfold n; lia.
    + inversion Hb; subst. unfold n. lia.
  - exists 0%nat. split; [reflexivity | lia].
  - exact H.
Qed.

(** One round of the loop that prints the directory: the block is scanned,
    and the loop goes on with the next logical block exactly when the scan
    yielded 64 entries. *)
Lemma ls_list_body_scan (d : Disk) (g : Garbage) (dir_inode : Inode)
    (dirblock rv : Z) (buf0 buf : list byte) (l0 : list event) :
  length buf = 1024%nat -> (forall pos, faulty d pos = false) ->
  inode_block_read d g dirblock dir_inode buf0 = (rv, buf, l0) -> 0 < rv ->
  let n := length (scanBlock buf) in
  ls_list_body d g dir_inode (dirblock, buf0)
  = Some (if Z.of_nat n <? 64 then Done 0 else Continue (dirblock + 1, buf),
          l0 ++ flat_map (ls_entry_log d g buf) (seq 0 n)).
Proof.
  intros Hl Hf Hr Hrv n. unfold ls_list_body. rewrite Hr.
  destruct (Z.ltb_spec rv 0); [lia|].
  destruct (Z.eqb_spec rv 0); [lia|].
  rewrite ls_print_scan by assumption. fold n.
  destruct (Z.of_nat n <? 64); reflexivity.
Qed.


(** ** Path components longer than 14 octets *)

Lemma block_fuel_S : block_fuel = S (Z.to_nat 65802).
Proof.
  unfold block_fuel. change 65803 with (Z.succ 65802).
  apply Z2Nat.inj_succ. lia.
Qed.

Lemma scan_fuel_S : scan_fuel = S 64.
Proof. reflexivity. Qed.

(** The scans never look past a name that is too long: with such a
    [pathpart] the scan ends at the first test of the loop condition. *)
Lemma ls_scan_long (d : Disk) (g : Garbage) (pathpart buf : list byte)
    (dir_inode : Inode) (dirblock : Z) :
  14 < strlen pathpart ->
  loop scan_fuel (ls_scan_body d g pathpart buf dir_inode dirblock) 0
  = if dirent_inode g buf 0 =? 0 then Some (ScanEnd 0, [])
    else Some (ScanReturn 0, [msg_name_too_long]).
Proof.
  intros Hlong. rewrite scan_fuel_S, loop_S. unfold ls_scan_body.
  destruct (dirent_inode g buf 0 =? 0); [reflexivity|].
  change (0 <? 64) with true. cbn [negb andb].
  destruct (Z.gtb_spec (strlen pathpart) 14); [reflexivity | lia].
Qed.

Lemma read_scan_long (d : Disk) (g : Garbage) (pathpart : list byte)
    (st : read_state) :
  14 < strlen pathpart ->
  loop scan_fuel (read_scan_body d g pathpart st) 0
  = if dirent_inode g (rs_dir_buffer st) 0 =? 0 then Some (RScanEnd 0, [])
    else Some (RScanReturn 0, [msg_name_too_long]).
Proof.
  intros Hlong. rewrite scan_fuel_S, loop_S. unfold read_scan_body.
  destruct (dirent_inode g (rs_dir_buffer st) 0 =? 0); [reflexivity|].
  change (0 <? 64) with true. cbn [negb andb].
  destruct (Z.gtb_spec (strlen pathpart) 14); [reflexivity | lia].
Qed.

(** C9, as the code has it: a path component longer than 14 octets never
    resolves, and how the walk ends when it is processed depends on the read
    of the current directory block.  If the read fails or returns 0 the walk
    returns that value without a message.  If the block begins with an entry
    whose inode number is not 0, the walk returns 0 with "No such file or
    directory (in image)", the name-too-long outcome.  If the block begins
    with an entry with inode number 0, the walk returns -1 with the message
    of a name that was not found.  This holds for [unix_ls] and, when no
    regular file was found before, for [unix_read]. *)
Theorem long_component (d : Disk) (g : Garbage) (pathpart : list byte)
    (rest : list (list byte)) :
  14 < strlen pathpart ->
  (forall dir_inode dirblock dir_buffer,
     let '(rv, buf, l) := inode_block_read d g dirblock dir_inode dir_buffer in
     ls_walk d g (pathpart :: rest) dir_inode dirblock dir_buffer
     = Some (if rv <=? 0 then (LsReturn rv, msg_pathpart pathpart :: l)
             else if dirent_inode g buf 0 =? 0
                  then (LsReturn (-1), msg_pathpart pathpart :: l ++ [msg_not_found])
                  else (LsReturn 0, msg_pathpart pathpart :: l ++ [msg_name_too_long])))
  /\
  (forall st,
     rs_file_inode_number st = 0 ->
     let '(rv, buf, l) :=
       inode_block_read d g (rs_dirblock st) (rs_dir_inode st) (rs_dir_buffer st) in
     read_walk d g (pathpart :: rest) st
     = Some (if rv <=? 0 then (RdReturn rv, msg_pathpart pathpart :: l)
             else if dirent_inode g buf 0 =? 0
                  then (RdReturn (-1), msg_pathpart pathpart :: l ++ [msg_not_found])
                  else (RdReturn 0, msg_pathpart pathpart :: l ++ [msg_name_too_long]))).
Proof.
  intros Hlong. split.
  - intros dir_inode dirblock dir_buffer.
    destruct (inode_block_read d g dirblock dir_inode dir_buffer)
      as [[rv buf] l] eqn:E.
    cbn [ls_walk]. rewrite block_fuel_S, loop_S.
    unfold ls_block_body at 1. rewrite E.
    destruct (Z.ltb_spec rv 0).
    { destruct (Z.leb_spec rv 0); [reflexivity | lia]. }
    destruct (Z.eqb_spec rv 0) as [->|Hnz]; [reflexivity|].
    destruct (Z.leb_spec rv 0); [lia|].
    rewrite ls_scan_long by assumption.
    destruct (dirent_inode g buf 0 =? 0); [|reflexivity].
    change (0 <? 64) with true. cbv iota.
    change (0 =? 0) with true. cbv iota.
    rewrite app_nil_r. reflexivity.
  - intros st Hfile.
    destruct (inode_block_read d g (rs_dirblock st) (rs_dir_inode st) (rs_dir_buffer st))
      as [[rv buf] l] eqn:E.
    cbn [read_walk]. rewrite Hfile. change (negb (0 =? 0)) with false. cbv iota.
    rewrite block_fuel_S, loop_S.
    unfold read_block_body at 1. rewrite E.
    destruct (Z.ltb_spec rv 0).
    { destruct (Z.leb_spec rv 0); [reflexivity | lia]. }
    destruct (Z.eqb_spec rv 0) as [->|Hnz]; [reflexivity|].
    destruct (Z.leb_spec rv 0); [lia|].
    rewrite read_scan_long by assumption. cbn [rs_dir_buffer].
    destruct (dirent_inode g buf 0 =? 0); [|reflexivity].
    change (0 <? 64) with true. cbv iota.
    cbn [rs_dir_inode_number rs_file_inode_number]. rewrite Hfile.
    change (0 =? 0) with true. cbn [andb]. cbv iota.
    rewrite app_nil_r. reflexivity.
Qed.

(** C9 on the listing scenario image, whose root block begins with the entry
    (5, "foo"): a component of 15 octets ends the walk of [unix_ls] with the
    name-too-long outcome. *)
Lemma long_component_witness :
  let d := Fixture.foo_disk in
  let g := Fixture.garbage0 in
  ls_walk d g [Fixture.long_name] (loaded_inode d g 2) 0 (g_dir_buffer g)
  = Some (LsReturn 0,
          [msg_pathpart Fixture.long_name;
           Printf "inode_block_read(%d) => disk_block_read(%d)\n" [ArgI 0; ArgI 3];
           Lseek 3072; Read 1024; msg_name_too_long]).
Proof.
  intros d g.
  destruct (long_component d g Fixture.long_name []) as [H _].
  - by_compute.
  - specialize (H (loaded_inode d g 2) 0 (g_dir_buffer g)).
    assert (E : inode_block_read d g 0 (loaded_inode d g 2) (g_dir_buffer g)
                = (1024, block_of d 3,
                   [Printf "inode_block_read(%d) => disk_block_read(%d)\n"
                           [ArgI 0; ArgI 3]; Lseek 3072; Read 1024]))
      by by_compute.
    rewrite E in H. rewrite H.
    replace (dirent_inode g (block_of d 3) 0 =? 0) with false by by_compute.
    reflexivity.
Defined.

(** C9 as stated fails where the claim names it: on an image whose root
    block begins with an entry with inode number 0, a component of 15 octets
    makes [unix_ls] return -1 with the message of a name that was not found;
    this is not the name-too-long outcome.  [unix_read] does the same. *)
Lemma long_component_zero_entry :
  strlen Fixture.long_name = 15 /\
  unix_ls Fixture.empty_root_disk Fixture.garbage0 Fixture.long_path
  = Some (-1,
          [Lseek 2112; Read 64; msg_pathpart Fixture.long_name;
           Printf "inode_block_read(%d) => disk_block_read(%d)\n" [ArgI 0; ArgI 3];
           Lseek 3072; Read 1024; msg_not_found]) /\
  ~ name_too_long_outcome
      (unix_ls Fixture.empty_root_disk Fixture.garbage0 Fixture.long_path) /\
  option_map (fun r => (fst (fst r), snd r))
    (unix_read Fixture.empty_root_disk Fixture.garbage0 Fixture.host0
               Fixture.long_path)
  = Some (-1,
          [Lseek 2112; Read 64; msg_pathpart Fixture.long_name;
           Printf "inode_block_read(%d) => disk_block_read(%d)\n" [ArgI 0; ArgI 3];
           Lseek 3072; Read 1024; msg_not_found]).
Proof.
  assert (E : unix_ls Fixture.empty_root_disk Fixture.garbage0 Fixture.long_path
              = Some (-1,
                      [Lseek 2112; Read 64; msg_pathpart Fixture.long_name;
                       Printf "inode_block_read(%d) => disk_block_read(%d)\n"
                              [ArgI 0; ArgI 3];
                       Lseek 3072; Read 1024; msg_not_found]))
    by (vm_compute; reflexivity).
  split; [reflexivity|]. split; [exact E|]. split.
  - rewrite E. intros (l & H). inversion H.
  - vm_compute. reflexivity.
Qed.

(** ** Termination *)

Section LoopTerminates.

Context {St R : Type}.
Variable body : St -> option (step St R * list event).
Variable Inv : St -> Prop.
Variable Post : R -> Prop.
Variable measure : St -> nat.

Hypothesis body_total :
  forall s, Inv s ->
    exists st l, body s = Some (st, l) /\
      match st with
      | Continue s' => Inv s' /\ (measure s' < measure s)%nat
      | Done r => Post r
      end.

(** A loop whose every iteration returns and lowers a measure leaves within
    that many iterations. *)
Lemma loop_terminates (fuel : nat) (s : St) :
  Inv s -> (measure s < fuel)%nat ->
  exists r l, loop fuel body s = Some (r, l) /\ Post r.
Proof.
  revert s. induction fuel as [|fuel IH]; intros s Hs Hm; [lia|].
  rewrite loop_S. destruct (body_total s Hs) as (st & l & E & H). rewrite E.
  destruct st as [s'|r].
  - destruct H as [Hs' Hlt].
    destruct (IH s' Hs' ltac:(lia)) as (r & l' & E' & HP). rewrite E'. eauto.
  - eauto.
Qed.

End LoopTerminates.

Ltac returns := eexists; eexists; split; [reflexivity|]; cbv beta iota.

Lemma read_inode_wf (d : Disk) (g : Garbage) (n : Z) (i : Inode) (l : list event) :
  read_inode d g n = (Ok i, l) -> wf_inode i.
Proof.
  unfold read_inode. destruct (lseek _ <? 0); [discriminate|].
  destruct (read d _ _); [|discriminate].
  intros H. inversion H. apply decode_inode_wf.
Qed.

Lemma inode_block_read_far (d : Disk) (g : Garbage) (adr : Z) (ino : Inode)
    (buf : list byte) :
  65802 <= adr -> fst (fst (inode_block_read d g adr ino buf)) = -1.
Proof.
  intros H. unfold inode_block_read.
  destruct (adr <? 10) eqn:E1; [apply Z.ltb_lt in E1; lia|].
  destruct (adr <? 266) eqn:E2; [apply Z.ltb_lt in E2; lia|].
  destruct (adr <? 65802) eqn:E3; [apply Z.ltb_lt in E3; lia|].
  reflexivity.
Qed.

Lemma ls_scan_terminates (d : Disk) (g : Garbage) (pathpart buf : list byte)
    (dir : Inode) (dirblock : Z) :
  0 <= dirblock ->
  exists r l,
    loop scan_fuel (ls_scan_body d g pathpart buf dir dirblock) 0 = Some (r, l) /\
    match r with ScanFound _ _ _ b => 0 <= b | _ => True end.
Proof.
  intros Hb.
  apply (loop_terminates _ (fun x => 0 <= x) _ (fun x => Z.to_nat (64 - x))).
  - intros x Hx. unfold ls_scan_body.
    destruct (negb _ && (x <? 64)) eqn:C; [|returns; exact I].
    apply andb_true_iff in C. destruct C as [_ C]. apply Z.ltb_lt in C.
    destruct (strlen _ >? 14); [returns; exact I|].
    destruct (strncmp _ _ _ =? 0); [|returns; lia].
    destruct (read_inode _ _ _) as [[i|rv] l]; [|returns; exact I].
    destruct (type i =? INODE_FT_DIR); returns; [lia | exact Hb].
  - lia.
  - unfold scan_fuel. lia.
Qed.

Lemma ls_print_terminates (d : Disk) (g : Garbage) (buf : list byte) :
  exists r l, loop scan_fuel (ls_print_body d g buf) 0 = Some (r, l) /\ True.
Proof.
  apply (loop_terminates _ (fun x => 0 <= x) _ (fun x => Z.to_nat (64 - x))).
  - intros x Hx. unfold ls_print_body.
    destruct (negb _ && (x <? 64)) eqn:C; [|returns; exact I].
    apply andb_true_iff in C. destruct C as [_ C]. apply Z.ltb_lt in C.
    destruct (read_inode _ _ _) as [[i|rv] l]; returns; [lia | exact I].
  - lia.
  - unfold scan_fuel. lia.
Qed.

Lemma read_scan_terminates (d : Disk) (g : Garbage) (pathpart : list byte)
    (st : read_state) :
  0 <= rs_dirblock st ->
  exists r l,
    loop scan_fuel (read_scan_body d g pathpart st) 0 = Some (r, l) /\
    match r with
    | RScanFound _ st' => 0 <= rs_dirblock st' /\ wf_inode (rs_file_inode st')
    | _ => True
    end.
Proof.
  intros Hb.
  apply (loop_terminates _ (fun x => 0 <= x) _ (fun x => Z.to_nat (64 - x))).
  - intros x Hx. unfold read_scan_body.
    destruct (negb _ && (x <? 64)) eqn:C; [|returns; exact I].
    apply andb_true_iff in C. destruct C as [_ C]. apply Z.ltb_lt in C.
    destruct (strlen _ >? 14); [returns; exact I|].
    destruct (strncmp _ _ _ =? 0); [|returns; lia].
    destruct (read_inode _ _ _) as [[i|rv] l] eqn:E; [|returns; exact I].
    apply read_inode_wf in E.
    destruct (type i =? INODE_FT_DIR).
    + returns. split; [simpl; lia | exact E].
    + returns. split; [exact Hb | exact E].
  - lia.
  - unfold scan_fuel. lia.
Qed.

Lemma block_fuel_enough (dirblock : Z) :
  0 <= dirblock -> (Z.to_nat (65802 - dirblock) < block_fuel)%nat.
Proof. intros H. unfold block_fuel. lia. Qed.

Lemma ls_block_terminates (d : Disk) (g : Garbage) (pathpart : list byte)
    (dir : Inode) (dirblock : Z) (buf : list byte) :
  0 <= dirblock ->
  exists r l,
    loop block_fuel (ls_block_body d g pathpart dir) (dirblock, buf) = Some (r, l) /\
    match r with BlockDone _ _ b _ => 0 <= b | _ => True end.
Proof.
  intros Hb.
  apply (loop_terminates _ (fun st => 0 <= fst st) _
           (fun st => Z.to_nat (65802 - fst st))).
  - intros [b bf] Hx. simpl in Hx. unfold ls_block_body.
    pose proof (inode_block_read_far d g b dir bf) as Hfar.
    destruct (inode_block_read d g b dir bf) as [[rv bf'] l]. simpl in Hfar.
    destruct (rv <? 0) eqn:C1; [returns; exact I|].
    destruct (rv =? 0); [returns; exact I|].
    assert (Hlt : b < 65802).
    { apply Z.ltb_ge in C1. destruct (Z_lt_ge_dec b 65802); [assumption|].
      rewrite Hfar in C1; lia. }
    destruct (ls_scan_terminates d g pathpart bf' dir b Hx) as (r & l' & E & HP).
    rewrite E. destruct r as [rv'|x n i b'|x]; [returns; exact I | returns; exact HP |].
    destruct (x <? 64); returns; cbn [fst]; [exact Hx | lia].
  - exact Hb.
  - apply block_fuel_enough. exact Hb.
Qed.

Lemma ls_list_terminates (d : Disk) (g : Garbage) (dir : Inode) (dirblock : Z)
    (buf : list byte) :
  0 <= dirblock ->
  exists rv l, loop block_fuel (ls_list_body d g dir) (dirblock, buf) = Some (rv, l).
Proof.
  intros Hb.
  destruct (loop_terminates (ls_list_body d g dir) (fun st => 0 <= fst st)
              (fun _ => True) (fun st => Z.to_nat (65802 - fst st)))
    with (fuel := block_fuel) (s := (dirblock, buf)) as (r & l & E & _).
  - intros [b bf] Hx. simpl in Hx. unfold ls_list_body.
    pose proof (inode_block_read_far d g b dir bf) as Hfar.
    destruct (inode_block_read d g b dir bf) as [[rv bf'] l]. simpl in Hfar.
    destruct (rv <? 0) eqn:C1; [returns; exact I|].
    destruct (rv =? 0); [returns; exact I|].
    assert (Hlt : b < 65802).
    { apply Z.ltb_ge in C1. destruct (Z_lt_ge_dec b 65802); [assumption|].
      rewrite Hfar in C1; lia. }
    destruct (ls_print_terminates d g bf') as (r & l' & E & _).
    rewrite E. destruct r as [rv'|x]; [returns; exact I|].
    destruct (x <? 64); returns; cbn [fst]; [exact I | lia].
  - exact Hb.
  - apply block_fuel_enough. exact Hb.
  - eauto.
Qed.

Lemma read_block_terminates (d : Disk) (g : Garbage) (pathpart : list byte)
    (st : read_state) :
  walk_inv st ->
  exists r l,
    loop block_fuel (read_block_body d g pathpart) st = Some (r, l) /\
    match r with RBlockDone st' => walk_inv st' | _ => True end.
Proof.
  intros Hst.
  apply (loop_terminates _ walk_inv _ (fun st => Z.to_nat (65802 - rs_dirblock st))).
  - intros s [Hb Hf]. unfold read_block_body.
    pose proof (inode_block_read_far d g (rs_dirblock s) (rs_dir_inode s)
                  (rs_dir_buffer s)) as Hfar.
    destruct (inode_block_read _ _ _ _ _) as [[rv bf'] l]. simpl in Hfar.
    destruct (rv <? 0) eqn:C1; [returns; exact I|].
    destruct (rv =? 0); [returns; exact I|].
    assert (Hlt : rs_dirblock s < 65802).
    { apply Z.ltb_ge in C1. destruct (Z_lt_ge_dec (rs_dirblock s) 65802); [assumption|].
      rewrite Hfar in C1; lia. }
    match goal with
    | |- context [loop scan_fuel (read_scan_body d g pathpart ?s0) 0] =>
        destruct (read_scan_terminates d g pathpart s0 Hb) as (r & l' & E & HP)
    end.
    rewrite E. destruct r as [rv'|x st'|x].
    + returns. exact I.
    + returns. destruct HP as [H1 H2]. split; [exact H1 | right; exact H2].
    + destruct (x <? 64); returns.
      * split; [exact Hb | exact Hf].
      * unfold walk_inv. cbn [rs_dirblock rs_file_inode rs_file_inode_number]. split; [split; [lia | exact Hf] | lia].
  - exact Hst.
  - apply block_fuel_enough. apply Hst.
Qed.

Lemma ls_walk_terminates (d : Disk) (g : Garbage) (parts : list (list byte)) :
  forall dir dirblock buf,
    0 <= dirblock ->
    exists r l,
      ls_walk d g parts dir dirblock buf = Some (r, l) /\
      match r with LsWalked _ b _ => 0 <= b | _ => True end.
Proof.
  induction parts as [|pathpart parts IH]; intros dir dirblock buf Hb.
  - returns. exact Hb.
  - cbn [ls_walk].
    destruct (ls_block_terminates d g pathpart dir dirblock buf Hb)
      as (r & l & E & HP).
    rewrite E. destruct r as [rv|n dir' b' buf']; [returns; exact I|].
    destruct (n =? 0); [returns; exact I|].
    destruct (IH dir' b' buf' HP) as (r' & l' & E' & HP').
    rewrite E'. returns. exact HP'.
Qed.

Lemma read_walk_terminates (d : Disk) (g : Garbage) (parts : list (list byte)) :
  forall st,
    walk_inv st ->
    exists r l,
      read_walk d g parts st = Some (r, l) /\
      match r with RdWalked st' => walk_inv st' | _ => True end.
Proof.
  induction parts as [|pathpart parts IH]; intros st Hst.
  - returns. exact Hst.
  - cbn [read_walk].
    destruct (negb _); [returns; exact I|].
    destruct (read_block_terminates d g pathpart st Hst) as (r & l & E & HP).
    rewrite E. destruct r as [rv|st']; [returns; exact I|].
    destruct (_ && _); [returns; exact I|].
    destruct (IH st' HP) as (r' & l' & E' & HP').
    rewrite E'. returns. exact HP'.
Qed.

(** The copy loop leaves within [copy_fuel] iterations. *)
Lemma read_copy_terminates (d : Disk) (g : Garbage) (h : Host) (ino : Inode)
    (f : File) :
  wf_inode ino -> exists rv f' l, read_copy d g h ino f = Some (rv, f', l).
Proof.
  intros Hwf.
  assert (HS : 0 <= size ino < 2 ^ 32) by apply Hwf.
  unfold read_copy.
  destruct (loop_terminates (read_copy_body d g h ino)
              (fun st => 0 <= fst (fst (fst st)) <= size ino) (fun _ => True)
              (fun st => Z.to_nat ((size ino - fst (fst (fst st)) + 1023) / 1024)))
    with (fuel := copy_fuel (size ino)) (s := (0, 0, g_file_buffer g, f))
    as (r & l & E & _).
  - intros [[[x k] bf] fl] Hx. cbn [fst] in Hx. unfold read_copy_body.
    destruct (x <? size ino) eqn:C; [|returns; exact I].
    apply Z.ltb_lt in C.
    destruct (inode_block_read _ _ _ _ _) as [[rv bf'] l].
    destruct (rv <? 0); [returns; exact I|].
    destruct (rv =? 0); [returns; exact I|].
    destruct (host_write _ _ _) as [f'|]; [|returns; exact I].
    returns. cbn [fst].
    rewrite (u32_small (size ino - x)) by lia.
    destruct (size ino - x <? 1024) eqn:C2.
    + apply Z.ltb_lt in C2. rewrite s32_small by lia.
      rewrite u32_small by lia.
      replace (x + (size ino - x)) with (size ino) by lia.
      replace (size ino - size ino + 1023) with 1023 by lia.
      assert (1 <= (size ino - x + 1023) / 1024)
        by (apply Z.div_le_lower_bound; lia).
      change (1023 / 1024) with 0. lia.
    + apply Z.ltb_ge in C2. rewrite u32_small by lia.
      replace (size ino - x + 1023) with (size ino - (x + 1024) + 1023 + 1 * 1024)
        by lia.
      rewrite Z.div_add by lia.
      assert (0 <= (size ino - (x + 1024) + 1023) / 1024)
        by (apply Z.div_pos; lia).
      lia.
  - cbn [fst]. lia.
  - cbn [fst]. unfold copy_fuel. rewrite Z.sub_0_r.
    assert ((size ino + 1023) / 1024 <= size ino / 1024 + 1).
    { replace (size ino + 1023) with (size ino - 1 + 1 * 1024) by lia.
      rewrite Z.div_add by lia.
      assert ((size ino - 1) / 1024 <= size ino / 1024)
        by (apply Z.div_le_mono; lia).
      lia. }
    assert (0 <= size ino / 1024) by (apply Z.div_pos; lia).
    lia.
  - rewrite E. destruct r as [rv f'|x f']; eauto.
Qed.

(** [unix_ls] returns, whatever the image holds. *)
Lemma unix_ls_terminates (d : Disk) (g : Garbage) (path : list byte) :
  exists rv l, unix_ls d g path = Some (rv, l).
Proof.
  unfold unix_ls. destruct (negb _); [eauto|].
  destruct (read_inode d g 2) as [[root|rv] l]; [|eauto].
  destruct (ls_walk_terminates d g (strtok_all path) root 0 (g_dir_buffer g)
              ltac:(lia)) as (r & l' & E & HP).
  rewrite E. destruct r as [rv|dir b buf]; [eauto|].
  destruct (ls_list_terminates d g dir b buf HP) as (rv & l'' & E').
  rewrite E'. eauto.
Qed.

(** [unix_read] returns, whatever the image and the host do. *)
Lemma unix_read_terminates (d : Disk) (g : Garbage) (h : Host) (path : list byte) :
  exists rv h' l, unix_read d g h path = Some (rv, h', l).
Proof.
  unfold unix_read. destruct (negb _); [eauto|].
  destruct (host_open _ _) as [c|]; [|eauto].
  destruct (read_inode d g 2) as [[root|rv] l]; [|eauto].
  destruct (read_walk_terminates d g (strtok_all path) (read_state0 g root))
    as (r & l' & E & HP).
  { split; [cbn [read_state0 rs_dirblock]; lia | left; reflexivity]. }
  rewrite E. destruct r as [rv|st]; [eauto|].
  destruct (rs_file_inode_number st =? 0) eqn:C; [eauto|].
  destruct HP as [_ [H0 | Hwf]]; [rewrite H0 in C; discriminate|].
  destruct (read_copy_terminates d g h (rs_file_inode st)
              {| contents := c; pos := 0 |} Hwf) as (rv & f' & l'' & E').
  rewrite E'. eauto.
Qed.

(** [main] returns. *)
Lemma main_terminates (argv : list (list byte)) (disk : option Disk) (h : Host)
    (g : Garbage) :
  exists rv h' l, main argv disk h g = Some (rv, h', l).
Proof.
  unfold main. destruct (negb (sizeof_SuperBlock =? 1024)); [eauto|].
  destruct (_ || _); [eauto|].
  destruct (_ <? 3); [eauto|].
  destruct disk as [d|]; [|eauto].
  destruct (disk_block_read d 1 _) as [[rv sb] l].
  destruct (rv <? 0); [eauto|].
  destruct (negb (superblock_magic sb =? _)); [eauto|].
  destruct (strncmp _ _ 2 =? 0).
  - destruct (_ <? 4); [eauto|].
    destruct (unix_ls_terminates d g (nth 3 argv [])) as (rv' & l' & E).
    rewrite E. eauto.
  - destruct (strncmp _ _ 4 =? 0); [|eauto].
    destruct (_ <? 4); [eauto|]. destruct (_ <? 5); [eauto|].
    destruct (unix_read_terminates d g h (nth 3 argv [])) as (rv' & h' & l' & E).
    rewrite E. eauto.
Qed.

(** ** The superblock check *)

Lemma unix_read_no_magic (d : Disk) (g : Garbage) (h h' : Host) (path : list byte)
    rv l :
  unix_read d g h path = Some (rv, h', l) -> forallb no_magic l = true.
Proof.
  intros H. unfold unix_read in H.
  destruct (negb _); [inversion H; reflexivity|].
  destruct (host_open h _) as [c|]; [|inversion H; reflexivity].
  pose proof (read_inode_plain d g 2) as P.
  destruct (read_inode d g 2) as [[dir_inode|rv0] l0]; simpl in P.
  2:{ inversion H; subst. apply plain_no_magic. exact P. }
  destruct (read_walk _ _ _ _) as [[r1 l1]|] eqn:E; [|discriminate].
  pose proof (read_walk_plain _ _ _ _ _ _ E) as P1.
  apply plain_no_magic in P. apply plain_no_magic in P1.
  destruct r1 as [rv1|st'].
  { inversion H; subst. rewrite forallb_app, P, P1. reflexivity. }
  destruct (rs_file_inode_number st' =? 0).
  { inversion H; subst. rewrite !forallb_app, P, P1. reflexivity. }
  destruct (read_copy _ _ _ _ _) as [[[rv2 f2] l2]|] eqn:E2; [|discriminate].
  inversion H; subst.
  destruct (read_copy_frame _ _ _ _ c _ _ _ _ E2) as [_ N].
  { split; reflexivity. }
  rewrite !forallb_app, P, P1, N. reflexivity.
Qed.

Lemma no_magic_not_bad (l l' : list event) (m : Z) :
  forallb no_magic l' = true -> l ++ l' <> l ++ [Printf bad_magic_fmt [ArgI m]].
Proof.
  intros N E. apply app_inv_head in E. subst l'. discriminate N.
Qed.

(** C7: once a command and an image are given, [main] reads block 1 first
    and returns; the read not failing, it rejects the image exactly when the
    32-bit word at offset 1016 of the block, as the host loads it (no byte
    swap), is not 0x207E18FD.  A rejected image is not listed or read: [main]
    returns -1 after the complaint, with no further access to the image and
    the host untouched. *)
Theorem superblock_validation (argv : list (list byte)) (d : Disk) (h : Host)
    (g : Garbage) :
  (3 <= length argv)%nat ->
  strncmp (nth 1 argv []) (bytes "help") 4 <> 0 ->
  strncmp (nth 1 argv []) (bytes "-?") 2 <> 0 ->
  forall rv superblock_buffer l,
    disk_block_read d 1 (repeat x00 1024) = (rv, superblock_buffer, l) ->
    0 <= rv ->
    superblock_magic superblock_buffer = le32 superblock_buffer 1016 /\
    (readable d 1 -> superblock_magic superblock_buffer = le32 (image d) (1024 + 1016)) /\
    (exists rv' h' l',
       main argv (Some d) h g = Some (rv', h', [Lseek 1024; Read 1024] ++ l')) /\
    (invalid_image_outcome h (main argv (Some d) h g)
     <-> superblock_magic superblock_buffer <> 0x207E18FD) /\
    (superblock_magic superblock_buffer = 0 ->
     invalid_image_outcome h (main argv (Some d) h g)).
Proof.
  intros Hargc Hhelp Hq rv sb l Hr Hrv.
  assert (Hl : l = [Lseek 1024; Read 1024]).
  { rewrite disk_block_read_unfold in Hr by by_compute.
    destruct (read d (1 * 1024) 1024); inversion Hr; subst; [reflexivity | lia]. }
  assert (Hmain :
    main argv (Some d) h g
    = if negb (superblock_magic sb =? 0x207E18FD) then
        Some (-1, h, l ++ [Printf bad_magic_fmt [ArgI (superblock_magic sb)]])
      else if strncmp (nth 1 argv []) (bytes "ls") 2 =? 0 then
        if Z.of_nat (length argv) <? 4 then
          Some (-1, h, l ++ [Printf "unixtool: ls: directory path is required\n" []])
        else
          match unix_ls d g (nth 3 argv []) with
          | None => None
          | Some (rv', l') => Some (rv', h, l ++ l')
          end
      else if strncmp (nth 1 argv []) (bytes "read") 4 =? 0 then
        if Z.of_nat (length argv) <? 4 then
          Some (-1, h, l ++ [Printf "unixtool: read: source path is required\n" []])
        else if Z.of_nat (length argv) <? 5 then
          Some (-1, h,
                l ++ [Printf "unixtool: read: destination path is required\n" []])
        else
          match unix_read d g h (nth 3 argv []) with
          | None => None
          | Some (rv', h', l') => Some (rv', h', l ++ l')
          end
      else
        Some (-1, h,
              l ++ [Printf (String.append "unixtool: Unknown parameters; " see_help) []])).
  { unfold main. change (negb (sizeof_SuperBlock =? 1024)) with false. cbv iota.
    destruct (Z.ltb_spec (Z.of_nat (length argv)) 2); [lia|].
    destruct (Z.eqb_spec (strncmp (nth 1 argv []) (bytes "help") 4) 0);
      [contradiction|].
    destruct (Z.eqb_spec (strncmp (nth 1 argv []) (bytes "-?") 2) 0);
      [contradiction|].
    cbn [orb]. cbv iota.
    destruct (Z.ltb_spec (Z.of_nat (length argv)) 3); [lia|].
    rewrite Hr. destruct (Z.ltb_spec rv 0); [lia|]. reflexivity. }
  split; [reflexivity|]. split; [|split; [|split]].
  - intros Hrd. rewrite disk_block_read_readable in Hr by assumption.
    inversion Hr; subst. unfold superblock_magic.
    change (offsetof SuperBlock_members "magic") with 1016.
    destruct Hrd as (H0 & _ & Hlen & _).
    pose proof (length_block_of d 1 H0 Hlen) as Hbl.
    apply le32_ext; rewrite byte_at_fill by lia;
      rewrite byte_at_block_of by lia; f_equal; lia.
  - rewrite Hmain. subst l.
    destruct (negb _); [eauto|].
    destruct (strncmp _ _ 2 =? 0).
    + destruct (_ <? 4); [eauto|].
      destruct (unix_ls_terminates d g (nth 3 argv [])) as (rv' & l' & E).
      rewrite E. eauto.
    + destruct (strncmp _ _ 4 =? 0); [|eauto].
      destruct (_ <? 4); [eauto|]. destruct (_ <? 5); [eauto|].
      destruct (unix_read_terminates d g h (nth 3 argv [])) as (rv' & h' & l' & E).
      rewrite E. eauto.
  - split.
    + intros (m & Hm) Heq. rewrite Hmain in Hm.
      rewrite Heq in Hm. change (negb (0x207E18FD =? 0x207E18FD)) with false in Hm.
      cbv iota in Hm. subst l.
      assert (Hno : forall rv' h' l', forallb no_magic l' = true ->
                Some (rv', h', [Lseek 1024; Read 1024] ++ l')
                <> Some (-1, h, [Lseek 1024; Read 1024; Printf bad_magic_fmt [ArgI m]])).
      { intros rv' h' l' N E. inversion E. subst l'. discriminate N. }
      destruct (strncmp (nth 1 argv []) (bytes "ls") 2 =? 0).
      * destruct (Z.of_nat (length argv) <? 4); [(eapply Hno; [|exact Hm]; reflexivity)|].
        destruct (unix_ls d g (nth 3 argv [])) as [[rv' l']|] eqn:E; [|discriminate].
        apply (Hno rv' h l'); [|exact Hm].
        apply plain_no_magic. eapply unix_ls_plain. exact E.
      * destruct (strncmp (nth 1 argv []) (bytes "read") 4 =? 0).
        -- destruct (Z.of_nat (length argv) <? 4); [(eapply Hno; [|exact Hm]; reflexivity)|].
           destruct (Z.of_nat (length argv) <? 5); [(eapply Hno; [|exact Hm]; reflexivity)|].
           destruct (unix_read d g h (nth 3 argv [])) as [[[rv' h'] l']|] eqn:E;
             [|discriminate].
           apply (Hno rv' h' l'); [|exact Hm].
           eapply unix_read_no_magic. exact E.
        -- (eapply Hno; [|exact Hm]; reflexivity).
    + intros Hne. rewrite Hmain.
      destruct (Z.eqb_spec (superblock_magic sb) 0x207E18FD); [contradiction|].
      cbn [negb]. cbv iota. subst l. eexists. reflexivity.
  - intros Hzero. rewrite Hmain, Hzero.
    change (negb (0 =? 0x207E18FD)) with true. cbv iota. subst l.
    eexists. reflexivity.
Qed.

(** C7 on the superblock scenario: an image whose block 1 has the magic
    0x00000000 is rejected, for a listing and for an extraction, and the
    destination is not created. *)
Lemma superblock_validation_witness :
  invalid_image_outcome Fixture.host0
    (main Fixture.argv_ls (Some Fixture.bad_magic_disk) Fixture.host0
          Fixture.garbage0) /\
  main Fixture.argv_read (Some Fixture.bad_magic_disk) Fixture.host0
       Fixture.garbage0
  = Some (-1, Fixture.host0,
          [Lseek 1024; Read 1024; Printf bad_magic_fmt [ArgI 0]]).
Proof.
  destruct (disk_block_read Fixture.bad_magic_disk 1 (repeat x00 1024))
    as [[rv sb] l] eqn:E.
  assert (Hrv : rv = 1024).
  { assert (Hc : fst (fst (disk_block_read Fixture.bad_magic_disk 1
                                           (repeat x00 1024))) = 1024)
      by (vm_compute; reflexivity).
    rewrite E in Hc. exact Hc. }
  assert (Hmagic : superblock_magic sb = 0).
  { assert (Hc : superblock_magic
                   (snd (fst (disk_block_read Fixture.bad_magic_disk 1
                                              (repeat x00 1024)))) = 0)
      by (vm_compute; reflexivity).
    rewrite E in Hc. exact Hc. }
  split.
  - destruct (superblock_validation Fixture.argv_ls Fixture.bad_magic_disk
                Fixture.host0 Fixture.garbage0 ltac:(by_compute)
                ltac:(by_compute) ltac:(by_compute) rv sb l E ltac:(lia))
      as (_ & _ & _ & _ & H).
    exact (H Hmagic).
  - destruct (superblock_validation Fixture.argv_read Fixture.bad_magic_disk
                Fixture.host0 Fixture.garbage0 ltac:(by_compute)
                ltac:(by_compute) ltac:(by_compute) rv sb l E ltac:(lia))
      as (_ & _ & _ & _ & H).
    destruct (H Hmagic) as (m & Hm). rewrite Hm.
    assert (Hc : option_map (fun r => snd r)
                   (main Fixture.argv_read (Some Fixture.bad_magic_disk)
                      Fixture.host0 Fixture.garbage0)
                 = Some [Lseek 1024; Read 1024; Printf bad_magic_fmt [ArgI 0]])
      by (vm_compute; reflexivity).
    rewrite Hm in Hc. simpl in Hc. congruence.
Defined.

(** ** Names *)

Lemma b2z_inj (a b : byte) : b2z a = b2z b -> a = b.
Proof.
  unfold b2z. intros H. apply N2Z.inj in H.
  pose proof (Byte.of_to_N a) as Ha. pose proof (Byte.of_to_N b) as Hb.
  rewrite H in Ha. congruence.
Qed.

Lemma is_nul_spec (b : byte) : is_nul b = true <-> b = x00.
Proof.
  unfold is_nul. split.
  - apply Byte.byte_dec_bl.
  - apply Byte.byte_dec_lb.
Qed.

Lemma byte_eqb_spec (a b : byte) : reflect (a = b) (Byte.eqb a b).
Proof.
  destruct (Byte.eqb a b) eqn:E; constructor.
  - apply Byte.byte_dec_bl. exact E.
  - apply Byte.eqb_false. exact E.
Qed.

(** [strncmp] compares the C strings in the first [n] octets. *)
Lemma strncmp_cstr (n : nat) :
  forall s1 s2,
    strncmp s1 s2 n = 0 <-> cstr (firstn n s1) = cstr (firstn n s2).
Proof.
  induction n as [|n IH]; intros s1 s2.
  - simpl. tauto.
  - assert (Hcase : forall a b t1 t2 (r1 r2 : list byte),
              (strncmp t1 t2 n = 0 <-> cstr r1 = cstr r2) ->
              ((if negb (Byte.eqb a b) then b2z a - b2z b
                else if is_nul a then 0 else strncmp t1 t2 n) = 0
               <-> (if is_nul a then [] else a :: cstr r1)
                   = (if is_nul b then [] else b :: cstr r2))).
    { intros a b t1 t2 r1 r2 Hrec.
      destruct (byte_eqb_spec a b) as [->|Hne]; cbn [negb].
      - destruct (is_nul b); [tauto|]. rewrite Hrec. split.
        + intros ->. reflexivity.
        + intros H. inversion H. reflexivity.
      - split.
        + intros H. exfalso. apply Hne. apply b2z_inj. lia.
        + intros H. exfalso.
          destruct (is_nul a) eqn:Ea, (is_nul b) eqn:Eb; try discriminate.
          * apply is_nul_spec in Ea, Eb. congruence.
          * inversion H. contradiction. }
    destruct s1 as [|a t1], s2 as [|b t2]; cbn [strncmp hd tl firstn cstr].
    + apply (Hcase x00 x00 [] [] [] []).
      pose proof (IH [] []) as H. rewrite firstn_nil in H. exact H.
    + apply (Hcase x00 b [] t2 [] (firstn n t2)).
      pose proof (IH [] t2) as H. rewrite firstn_nil in H. exact H.
    + apply (Hcase a x00 t1 [] (firstn n t1) []).
      pose proof (IH t1 []) as H. rewrite firstn_nil in H. exact H.
    + apply (Hcase a b t1 t2 (firstn n t1) (firstn n t2)). apply IH.
Qed.

(** The 14 octets [strncmp] looks at in [dir_entry->name] are the name field
    of the entry. *)
Lemma dirent_name_entry (g : Garbage) (buf : list byte) (j : nat) :
  length buf = 1024%nat -> (j < 64)%nat ->
  firstn 14 (dirent_name g buf (Z.of_nat j)) = entry_name buf j.
Proof.
  intros Hl Hj. unfold dirent_name, entry_name, dir_mem.
  replace (Z.to_nat (16 * Z.of_nat j + 2)) with (16 * j + 2)%nat by lia.
  rewrite skipn_app, firstn_app, length_skipn.
  replace (16 * j + 2 - length buf)%nat with 0%nat by lia.
  replace (14 - (length buf - (16 * j + 2)))%nat with 0%nat by lia.
  rewrite firstn_O, app_nil_r. reflexivity.
Qed.

(** For a proper name, the test of the lookups holds exactly when the name
    field of the entry holds this name. *)
Lemma name_test (g : Garbage) (buf name : list byte) (j : nat) :
  length buf = 1024%nat -> (j < 64)%nat -> proper_name name ->
  (strncmp name (dirent_name g buf (Z.of_nat j)) 14 =? 0)
  = if list_eq_dec Byte.byte_eq_dec (cstr (entry_name buf j)) name
    then true else false.
Proof.
  intros Hl Hj (Hc & Hlen).
  pose proof (strncmp_cstr 14 name (dirent_name g buf (Z.of_nat j))) as H.
  rewrite dirent_name_entry in H by assumption.
  rewrite firstn_all2, Hc in H by assumption.
  destruct (list_eq_dec Byte.byte_eq_dec (cstr (entry_name buf j)) name) as [E|E].
  - apply Z.eqb_eq. apply H. symmetry. exact E.
  - apply Z.eqb_neq. intros E0. apply E. symmetry. apply H. exact E0.
Qed.

Lemma proper_name_strlen (name : list byte) :
  proper_name name -> strlen name <= 14.
Proof.
  intros (Hc & Hlen). unfold strlen. rewrite Hc. lia.
Qed.

(** ** Lookups *)

(** A block the address map supplies, as the resolver delivers it. *)
Lemma dir_block (d : Disk) (g : Garbage) (dir : Inode) (phys : Z -> Z) (b : Z)
    (buf0 : list byte) :
  wf_inode dir -> supplies d dir phys b -> length buf0 = 1024%nat ->
  (exists l,
     inode_block_read d g b dir buf0 = (1024, block_of d (phys b), l)) /\
  length (block_of d (phys b)) = 1024%nat /\ 0 <= b < 65802.
Proof.
  intros Hwf Hs Hl.
  assert (Hbl : length (block_of d (phys b)) = 1024%nat).
  { destruct Hs as (_ & _ & H0 & _ & H1 & _). apply length_block_of; assumption. }
  destruct (inode_block_read_supplied d g dir phys b buf0 Hwf Hs) as (l & Hr & _).
  split; [|split; [exact Hbl|]].
  - exists l. rewrite Hr. unfold fill.
    rewrite skipn_all2 by lia. rewrite app_nil_r. reflexivity.
  - destruct Hs as ([(H & _) | [(H & _) | (H & _)]] & _); lia.
Qed.

Section Lookup.

Variable d : Disk.
Variable g : Garbage.
Hypothesis no_faults : forall pos, faulty d pos = false.

Variable buf : list byte.
Hypothesis buf_length : length buf = 1024%nat.

Variable name : list byte.
Hypothesis name_proper : proper_name name.

(** The scan passes over the entries that do not hold [name]. *)
Lemma ls_scan_body_skip (dir : Inode) (dirblock : Z) (j : nat) :
  (j < length (scanBlock buf))%nat ->
  cstr (entry_name buf j) <> name ->
  ls_scan_body d g name buf dir dirblock (Z.of_nat j)
  = Some (Continue (Z.of_nat j + 1), []).
Proof.
  intros Hj Hne. unfold ls_scan_body.
  destruct (scan_from_spec buf 64 0) as (Hn & _). fold (scanBlock buf) in Hn.
  rewrite scan_cond by (assumption || lia).
  destruct (Z.ltb_spec (Z.of_nat j) (Z.of_nat (length (scanBlock buf)))); [|lia].
  pose proof (proper_name_strlen name name_proper).
  destruct (Z.gtb_spec (strlen name) 14); [lia|].
  rewrite name_test by (assumption || lia).
  destruct (list_eq_dec _ _ _); [contradiction | reflexivity].
Qed.

Lemma read_scan_body_skip (st : read_state) (j : nat) :
  rs_dir_buffer st = buf ->
  (j < length (scanBlock buf))%nat ->
  cstr (entry_name buf j) <> name ->
  read_scan_body d g name st (Z.of_nat j) = Some (Continue (Z.of_nat j + 1), []).
Proof.
  intros Hb Hj Hne. unfold read_scan_body. rewrite Hb.
  destruct (scan_from_spec buf 64 0) as (Hn & _). fold (scanBlock buf) in Hn.
  rewrite scan_cond by (assumption || lia).
  destruct (Z.ltb_spec (Z.of_nat j) (Z.of_nat (length (scanBlock buf)))); [|lia].
  pose proof (proper_name_strlen name name_proper).
  destruct (Z.gtb_spec (strlen name) 14); [lia|].
  rewrite name_test by (assumption || lia).
  destruct (list_eq_dec _ _ _); [contradiction | reflexivity].
Qed.

Lemma flat_map_nil_log (s : list nat) :
  flat_map (fun _ : nat => @nil event) s = [].
Proof. induction s as [|a s IH]; [reflexivity | exact IH]. Qed.

(** The scan of a block that holds [name] at index [k], and at no index
    before, in [unix_ls]: the entries before are passed over, the entry is
    found and its inode read; a directory becomes the current directory. *)
Lemma ls_scan_found (dir : Inode) (dirblock : Z) (k : nat) (number : Z) :
  block_has buf name k number ->
  let ino := loaded_inode d g number in
  loop scan_fuel (ls_scan_body d g name buf dir dirblock) 0
  = Some (if type ino =? INODE_FT_DIR
          then ScanFound (Z.of_nat k) number ino 0
          else ScanFound (Z.of_nat k) 0 dir dirblock,
          found_log d g number).
Proof.
  intros (Hk & Hbefore & Hat & Hnum) ino.
  destruct (scan_from_spec buf 64 0) as (Hn & _). fold (scanBlock buf) in Hn.
  assert (Hbody :
            ls_scan_body d g name buf dir dirblock (Z.of_nat k)
            = Some (Done (if type ino =? INODE_FT_DIR
                          then ScanFound (Z.of_nat k) number ino 0
                          else ScanFound (Z.of_nat k) 0 dir dirblock),
                    found_log d g number)).
  { unfold ls_scan_body.
    rewrite scan_cond by (assumption || lia).
    destruct (Z.ltb_spec (Z.of_nat k) (Z.of_nat (length (scanBlock buf)))); [|lia].
    pose proof (proper_name_strlen name name_proper).
    destruct (Z.gtb_spec (strlen name) 14); [lia|].
    rewrite name_test by (assumption || lia).
    destruct (list_eq_dec _ _ _); [|contradiction].
    destruct (dirent_inode_entry g buf k buf_length ltac:(lia)) as (_ & Hs & _).
    rewrite Hs, Hnum.
    rewrite read_inode_loaded by (assumption || subst number; apply be16_range).
    fold ino. unfold found_log. fold ino.
    destruct (type ino =? INODE_FT_DIR); [reflexivity|].
    rewrite app_nil_r. reflexivity. }
  erewrite (loop_count (ls_scan_body d g name buf dir dirblock) (fun x => x + 1)
              (fun _ => []) k 0 scan_fuel).
  4:{ rewrite iter_succ_Z. simpl (0 + Z.of_nat k). exact Hbody. }
  - rewrite flat_map_nil_log. reflexivity.
  - unfold scan_fuel. lia.
  - intros j Hj. rewrite iter_succ_Z. simpl (0 + Z.of_nat j).
    apply ls_scan_body_skip; [lia | apply Hbefore; exact Hj].
Qed.

(** The same in [unix_read]: a directory becomes the current directory, a
    regular file the file to copy. *)
Lemma read_scan_found (st : read_state) (k : nat) (number : Z) :
  rs_dir_buffer st = buf ->
  rs_dir_inode_number st = 0 ->
  block_has buf name k number ->
  loop scan_fuel (read_scan_body d g name st) 0
  = Some (RScanFound (Z.of_nat k) (read_found d g st buf number),
          found_log d g number).
Proof.
  intros Hb Hdn (Hk & Hbefore & Hat & Hnum).
  destruct (scan_from_spec buf 64 0) as (Hn & _). fold (scanBlock buf) in Hn.
  assert (Hbody :
            read_scan_body d g name st (Z.of_nat k)
            = Some (Done (RScanFound (Z.of_nat k) (read_found d g st buf number)),
                    found_log d g number)).
  { unfold read_scan_body. rewrite Hb.
    rewrite scan_cond by (assumption || lia).
    destruct (Z.ltb_spec (Z.of_nat k) (Z.of_nat (length (scanBlock buf)))); [|lia].
    pose proof (proper_name_strlen name name_proper).
    destruct (Z.gtb_spec (strlen name) 14); [lia|].
    rewrite name_test by (assumption || lia).
    destruct (list_eq_dec _ _ _); [|contradiction].
    destruct (dirent_inode_entry g buf k buf_length ltac:(lia)) as (_ & Hs & _).
    rewrite Hs, Hnum.
    rewrite read_inode_loaded by (assumption || subst number; apply be16_range).
    unfold found_log, read_found. cbv zeta. rewrite Hdn.
    destruct (type (loaded_inode d g number) =? INODE_FT_DIR); [reflexivity|].
    rewrite app_nil_r. reflexivity. }
  erewrite (loop_count (read_scan_body d g name st) (fun x => x + 1)
              (fun _ => []) k 0 scan_fuel).
  4:{ rewrite iter_succ_Z. simpl (0 + Z.of_nat k). exact Hbody. }
  - rewrite flat_map_nil_log. reflexivity.
  - unfold scan_fuel. lia.
  - intros j Hj. rewrite iter_succ_Z. simpl (0 + Z.of_nat j).
    apply read_scan_body_skip; [exact Hb | lia | apply Hbefore; exact Hj].
Qed.

(** The scan of a block that does not hold [name] passes over every entry
    and ends at the number of entries the block yields. *)
Lemma ls_scan_missing (dir : Inode) (dirblock : Z) :
  block_lacks buf name ->
  loop scan_fuel (ls_scan_body d g name buf dir dirblock) 0
  = Some (ScanEnd (Z.of_nat (length (scanBlock buf))), []).
Proof.
  intros Hnone.
  destruct (scan_from_spec buf 64 0) as (Hn & _). fold (scanBlock buf) in Hn.
  rewrite (loop_count (ls_scan_body d g name buf dir dirblock) (fun x => x + 1)
             (fun _ => []) (length (scanBlock buf)) 0 scan_fuel
             (ScanEnd (Z.of_nat (length (scanBlock buf)))) []).
  - rewrite flat_map_nil_log. reflexivity.
  - unfold scan_fuel. lia.
  - intros j Hj. rewrite iter_succ_Z. simpl (0 + Z.of_nat j).
    apply ls_scan_body_skip; [exact Hj | apply Hnone; exact Hj].
  - rewrite iter_succ_Z. simpl (0 + Z.of_nat _). unfold ls_scan_body.
    rewrite scan_cond by (assumption || lia).
    rewrite Z.ltb_irrefl. reflexivity.
Qed.

Lemma read_scan_missing (st : read_state) :
  rs_dir_buffer st = buf ->
  block_lacks buf name ->
  loop scan_fuel (read_scan_body d g name st) 0
  = Some (RScanEnd (Z.of_nat (length (scanBlock buf))), []).
Proof.
  intros Hb Hnone.
  destruct (scan_from_spec buf 64 0) as (Hn & _). fold (scanBlock buf) in Hn.
  rewrite (loop_count (read_scan_body d g name st) (fun x => x + 1)
             (fun _ => []) (length (scanBlock buf)) 0 scan_fuel
             (RScanEnd (Z.of_nat (length (scanBlock buf)))) []).
  - rewrite flat_map_nil_log. reflexivity.
  - unfold scan_fuel. lia.
  - intros j Hj. rewrite iter_succ_Z. simpl (0 + Z.of_nat j).
    apply read_scan_body_skip; [exact Hb | exact Hj | apply Hnone; exact Hj].
  - rewrite iter_succ_Z. simpl (0 + Z.of_nat _). unfold read_scan_body. rewrite Hb.
    rewrite scan_cond by (assumption || lia).
    rewrite Z.ltb_irrefl. reflexivity.
Qed.

(** One run of the body of the loop over the blocks of a directory, the
    block read being [buf]: a lookup that finds [name] is done; one that does
    not is done when the block is not full and goes on with the next logical
    block when it is. *)
Lemma ls_block_body_found (dir : Inode) (dirblock rv : Z) (buf0 : list byte)
    (l0 : list event) (k : nat) (number : Z) :
  inode_block_read d g dirblock dir buf0 = (rv, buf, l0) -> 0 < rv ->
  block_has buf name k number ->
  ls_block_body d g name dir (dirblock, buf0)
  = Some (Done (ls_found d g dir dirblock buf number), l0 ++ found_log d g number).
Proof.
  intros Hr Hrv Hhas. unfold ls_block_body. rewrite Hr.
  destruct (Z.ltb_spec rv 0); [lia|].
  destruct (Z.eqb_spec rv 0); [lia|].
  rewrite (ls_scan_found dir dirblock k number Hhas). unfold ls_found. cbv zeta.
  destruct (type (loaded_inode d g number) =? INODE_FT_DIR); reflexivity.
Qed.

Lemma ls_block_body_missing (dir : Inode) (dirblock rv : Z) (buf0 : list byte)
    (l0 : list event) :
  inode_block_read d g dirblock dir buf0 = (rv, buf, l0) -> 0 < rv ->
  block_lacks buf name ->
  ls_block_body d g name dir (dirblock, buf0)
  = Some (if Z.of_nat (length (scanBlock buf)) <? 64
          then Done (BlockDone 0 dir dirblock buf)
          else Continue (dirblock + 1, buf), l0).
Proof.
  intros Hr Hrv Hnone. unfold ls_block_body. rewrite Hr.
  destruct (Z.ltb_spec rv 0); [lia|].
  destruct (Z.eqb_spec rv 0); [lia|].
  rewrite (ls_scan_missing dir dirblock Hnone). rewrite app_nil_r.
  destruct (_ <? 64); reflexivity.
Qed.

Lemma read_block_body_found (st : read_state) (rv : Z) (l0 : list event)
    (k : nat) (number : Z) :
  inode_block_read d g (rs_dirblock st) (rs_dir_inode st) (rs_dir_buffer st)
  = (rv, buf, l0) ->
  0 < rv ->
  block_has buf name k number ->
  read_block_body d g name st
  = Some (Done (RBlockDone (read_found d g st buf number)),
          l0 ++ found_log d g number).
Proof.
  intros Hr Hrv Hhas. unfold read_block_body. rewrite Hr.
  destruct (Z.ltb_spec rv 0); [lia|].
  destruct (Z.eqb_spec rv 0); [lia|].
  fold (read_scanning st buf).
  rewrite (read_scan_found (read_scanning st buf) k number eq_refl eq_refl Hhas).
  reflexivity.
Qed.

Lemma read_block_body_missing (st : read_state) (rv : Z) (l0 : list event) :
  inode_block_read d g (rs_dirblock st) (rs_dir_inode st) (rs_dir_buffer st)
  = (rv, buf, l0) ->
  0 < rv ->
  block_lacks buf name ->
  read_block_body d g name st
  = Some (if Z.of_nat (length (scanBlock buf)) <? 64
          then Done (RBlockDone (read_scanning st buf))
          else Continue (read_next_block st buf), l0).
Proof.
  intros Hr Hrv Hnone. unfold read_block_body. rewrite Hr.
  destruct (Z.ltb_spec rv 0); [lia|].
  destruct (Z.eqb_spec rv 0); [lia|].
  fold (read_scanning st buf).
  rewrite (read_scan_missing (read_scanning st buf) eq_refl Hnone).
  rewrite app_nil_r.
  destruct (_ <? 64); reflexivity.
Qed.

End Lookup.

(** Every name is in one of the two cases of a lookup in a block: one of the
    entries the scan yields is the first to hold it, or none holds it. *)
Lemma block_has_or_lacks (buf name : list byte) :
  block_lacks buf name \/ exists k number, block_has buf name k number.
Proof.
  assert (H : forall m, (m <= length (scanBlock buf))%nat ->
            (forall j, (j < m)%nat -> cstr (entry_name buf j) <> name) \/
            exists k number, block_has buf name k number).
  { induction m as [|m IH]; intros Hm.
    - left. intros j Hj. lia.
    - destruct (IH ltac:(lia)) as [Hnone | Hex]; [|right; exact Hex].
      destruct (list_eq_dec Byte.byte_eq_dec (cstr (entry_name buf m)) name)
        as [E|E].
      + right. exists m, (entry_inode buf m).
        split; [lia|]. split; [exact Hnone|]. split; [exact E | reflexivity].
      + left. intros j Hj.
        destruct (Nat.eq_dec j m) as [->|Hne]; [exact E | apply Hnone; lia]. }
  destruct (H (length (scanBlock buf)) (Nat.le_refl _)) as [Hnone | Hex].
  - left. exact Hnone.
  - right. exact Hex.
Qed.

(** C5: the scan of a 1024-octet directory block yields the entries in
    order and stops at the first entry with inode number 0 or after 64
    entries, whichever comes first ([scanBlock]).  The printing scan prints
    exactly these entries and ends at their number; when they are 64 the
    listing goes on with the next logical block, otherwise it is done.  The
    lookups of [unix_ls] and [unix_read] examine the same entries in the same
    order: for a name of at most 14 octets, the first of these entries that
    holds the name is the one found, the entries before it being passed over
    without any access to the image; when none of them holds the name the
    scan ends at their number, and the lookup goes on with the next logical
    block of the directory when they are 64 and is done otherwise. *)
Theorem directory_scan (d : Disk) (g : Garbage) (buf : list byte) :
  length buf = 1024%nat -> (forall pos, faulty d pos = false) ->
  let n := length (scanBlock buf) in
  (n <= 64)%nat /\
  (forall j, (j < n)%nat -> entry_inode buf j <> 0) /\
  ((n < 64)%nat -> entry_inode buf n = 0) /\
  loop scan_fuel (ls_print_body d g buf) 0
  = Some (PrintEnd (Z.of_nat n), flat_map (ls_entry_log d g buf) (seq 0 n)) /\
  (forall dir_inode dirblock buf0 rv l0,
     inode_block_read d g dirblock dir_inode buf0 = (rv, buf, l0) -> 0 < rv ->
     ls_list_body d g dir_inode (dirblock, buf0)
     = Some (if Z.of_nat n <? 64 then Done 0 else Continue (dirblock + 1, buf),
             l0 ++ flat_map (ls_entry_log d g buf) (seq 0 n))) /\
  (forall pathpart dir_inode dirblock r l,
     loop scan_fuel (ls_scan_body d g pathpart buf dir_inode dirblock) 0
     = Some (r, l) ->
     match r with
     | ScanReturn _ => True
     | ScanFound x _ _ _ => 0 <= x < Z.of_nat n
     | ScanEnd x => x = Z.of_nat n
     end) /\
  (forall pathpart st r l,
     rs_dir_buffer st = buf ->
     loop scan_fuel (read_scan_body d g pathpart st) 0 = Some (r, l) ->
     match r with
     | RScanReturn _ => True
     | RScanFound x _ => 0 <= x < Z.of_nat n
     | RScanEnd x => x = Z.of_nat n
     end) /\
  (forall name, proper_name name ->
     (block_lacks buf name \/ exists k number, block_has buf name k number) /\
     (forall k number, block_has buf name k number ->
        (forall dir dirblock,
           loop scan_fuel (ls_scan_body d g name buf dir dirblock) 0
           = Some (if type (loaded_inode d g number) =? INODE_FT_DIR
                   then ScanFound (Z.of_nat k) number (loaded_inode d g number) 0
                   else ScanFound (Z.of_nat k) 0 dir dirblock,
                   found_log d g number)) /\
        (forall st,
           rs_dir_buffer st = buf -> rs_dir_inode_number st = 0 ->
           loop scan_fuel (read_scan_body d g name st) 0
           = Some (RScanFound (Z.of_nat k) (read_found d g st buf number),
                   found_log d g number)) /\
        (forall dir dirblock buf0 rv l0,
           inode_block_read d g dirblock dir buf0 = (rv, buf, l0) -> 0 < rv ->
           ls_block_body d g name dir (dirblock, buf0)
           = Some (Done (ls_found d g dir dirblock buf number),
                   l0 ++ found_log d g number)) /\
        (forall st rv l0,
           inode_block_read d g (rs_dirblock st) (rs_dir_inode st)
                            (rs_dir_buffer st) = (rv, buf, l0) ->
           0 < rv ->
           read_block_body d g name st
           = Some (Done (RBlockDone (read_found d g st buf number)),
                   l0 ++ found_log d g number))) /\
     (block_lacks buf name ->
        (forall dir dirblock,
           loop scan_fuel (ls_scan_body d g name buf dir dirblock) 0
           = Some (ScanEnd (Z.of_nat n), [])) /\
        (forall st,
           rs_dir_buffer st = buf ->
           loop scan_fuel (read_scan_body d g name st) 0
           = Some (RScanEnd (Z.of_nat n), [])) /\
        (forall dir dirblock buf0 rv l0,
           inode_block_read d g dirblock dir buf0 = (rv, buf, l0) -> 0 < rv ->
           ls_block_body d g name dir (dirblock, buf0)
           = Some (if Z.of_nat n <? 64
                   then Done (BlockDone 0 dir dirblock buf)
                   else Continue (dirblock + 1, buf), l0)) /\
        (forall st rv l0,
           inode_block_read d g (rs_dirblock st) (rs_dir_inode st)
                            (rs_dir_buffer st) = (rv, buf, l0) ->
           0 < rv ->
           read_block_body d g name st
           = Some (if Z.of_nat n <? 64
                   then Done (RBlockDone (read_scanning st buf))
                   else Continue (read_next_block st buf), l0)))).
Proof.
  intros Hl Hf n.
  destruct (scan_from_spec buf 64 0) as (Hn & Hnz & Hz).
  fold (scanBlock buf) in *. fold n in Hn, Hnz, Hz. simpl in Hnz, Hz.
  split; [exact Hn|]. split; [exact Hnz|]. split; [exact Hz|].
  split; [apply ls_print_scan; assumption|].
  split; [|split; [|split]].
  - intros dir_inode dirblock buf0 rv l0 Hr Hrv.
    apply (ls_list_body_scan d g dir_inode dirblock rv buf0 buf l0); assumption.
  - intros pathpart dir_inode dirblock r l H.
    exact (ls_scan_stops d g pathpart buf dir_inode dirblock r l Hl H).
  - intros pathpart st r l Hb H. subst buf.
    exact (read_scan_stops d g pathpart st r l Hl H).
  - intros name Hname. split; [apply block_has_or_lacks|]. split.
    + intros k number Hhas. split; [|split; [|split]].
      * intros dir dirblock.
        exact (ls_scan_found d g Hf buf Hl name Hname dir dirblock k number Hhas).
      * intros st Hb Hdn.
        exact (read_scan_found d g Hf buf Hl name Hname st k number Hb Hdn Hhas).
      * intros dir dirblock buf0 rv l0 Hr Hrv.
        exact (ls_block_body_found d g Hf buf Hl name Hname dir dirblock rv buf0
                 l0 k number Hr Hrv Hhas).
      * intros st rv l0 Hr Hrv.
        exact (read_block_body_found d g Hf buf Hl name Hname st rv l0 k number
                 Hr Hrv Hhas).
    + intros Hnone. split; [|split; [|split]].
      * intros dir dirblock.
        exact (ls_scan_missing d g buf Hl name Hname dir dirblock Hnone).
      * intros st Hb.
        exact (read_scan_missing d g buf Hl name Hname st Hb Hnone).
      * intros dir dirblock buf0 rv l0 Hr Hrv.
        exact (ls_block_body_missing d g buf Hl name Hname dir dirblock rv buf0
                 l0 Hr Hrv Hnone).
      * intros st rv l0 Hr Hrv.
        exact (read_block_body_missing d g buf Hl name Hname st rv l0 Hr Hrv Hnone).
Qed.

Lemma bytes_eqb_spec (a b : list byte) : bytes_eqb a b = true <-> a = b.
Proof.
  revert b. induction a as [|x a IH]; intros [|y b]; simpl;
    try (split; [discriminate | discriminate]); try tauto.
  rewrite andb_true_iff, IH. split.
  - intros [Hxy Hab]. destruct (byte_eqb_spec x y); [|discriminate].
    subst. reflexivity.
  - intros H. inversion H; subst. split; [|reflexivity].
    destruct (byte_eqb_spec y y); [reflexivity | contradiction].
Qed.

Lemma names_differ_spec (buf name : list byte) (m : nat) :
  names_differ buf name m = true ->
  forall j, (j < m)%nat -> cstr (entry_name buf j) <> name.
Proof.
  unfold names_differ. rewrite forallb_forall. intros H j Hj E.
  specialize (H j ltac:(apply in_seq; lia)).
  apply bytes_eqb_spec in E. rewrite E in H. discriminate.
Qed.

Lemma block_lacksb_spec (buf name : list byte) :
  block_lacksb buf name = true -> block_lacks buf name.
Proof. intros H. exact (names_differ_spec buf name _ H). Qed.

Lemma block_hasb_spec (buf name : list byte) (k : nat) (number : Z) :
  block_hasb buf name k number = true -> block_has buf name k number.
Proof.
  unfold block_hasb. rewrite !andb_true_iff.
  intros (((Hk & Hd) & He) & Hn).
  split; [apply Nat.ltb_lt; exact Hk|].
  split; [apply names_differ_spec; exact Hd|].
  split; [apply bytes_eqb_spec; exact He | apply Z.eqb_eq; exact Hn].
Qed.

(** C5 on the two scenario blocks.  The block with the entries (5, "foo"),
    (0, empty) and a stale (9, "hidden") yields the one entry named foo; the
    listing of the root prints this name only; the lookup of foo finds it at
    index 0 with inode 5, and the lookup of hidden ends at index 1 and is
    done.  The full block of 64 entries yields 64 entries; the listing loop
    and a lookup that does not find its name both go on with logical
    block 1; the listing of the root prints 65 names, and the extraction of
    [/last], an entry of the second block, finds it. *)
Lemma directory_scan_witness :
  let g := Fixture.garbage0 in
  (let d := Fixture.foo_disk in
   let st := read_state0 g (loaded_inode d g 2) in
   scanBlock (block_of d 3) = [(5, Fixture.pad 14 (bytes "foo"))] /\
   loop scan_fuel (ls_print_body d g (block_of d 3)) 0
   = Some (PrintEnd 1, ls_entry_log d g (block_of d 3) 0) /\
   option_map (fun r => listed (snd r)) (unix_ls d g (bytes "/"))
   = Some [bytes "foo"] /\
   read_block_body d g (bytes "foo") st
   = Some (Done (RBlockDone (read_found d g st (block_of d 3) 5)),
           [Printf "inode_block_read(%d) => disk_block_read(%d)\n"
                   [ArgI 0; ArgI 3]; Lseek 3072; Read 1024]
           ++ found_log d g 5) /\
   read_block_body d g (bytes "hidden") st
   = Some (Done (RBlockDone (read_scanning st (block_of d 3))),
           [Printf "inode_block_read(%d) => disk_block_read(%d)\n"
                   [ArgI 0; ArgI 3]; Lseek 3072; Read 1024]) /\
   option_map (fun r => fst (fst r))
     (unix_read d g Fixture.host0 (bytes "/hidden")) = Some (-1)) /\
  (let d := Fixture.full_disk in
   let st := read_state0 g (loaded_inode d g 2) in
   length (scanBlock (block_of d 3)) = 64%nat /\
   (exists l,
      ls_list_body d g (loaded_inode d g 2) (0, g_dir_buffer g)
      = Some (Continue (1, block_of d 3), l) /\
      listed l = map Fixture.full_name (seq 0 64)) /\
   option_map (fun r => listed (snd r)) (unix_ls d g (bytes "/"))
   = Some (map Fixture.full_name (seq 0 64) ++ [bytes "last"]) /\
   read_block_body d g (bytes "last") st
   = Some (Continue (read_next_block st (block_of d 3)),
           [Printf "inode_block_read(%d) => disk_block_read(%d)\n"
                   [ArgI 0; ArgI 3]; Lseek 3072; Read 1024]) /\
   ls_block_body d g (bytes "last") (loaded_inode d g 2) (0, g_dir_buffer g)
   = Some (Continue (1, block_of d 3),
           [Printf "inode_block_read(%d) => disk_block_read(%d)\n"
                   [ArgI 0; ArgI 3]; Lseek 3072; Read 1024]) /\
   option_map (fun r => (fst (fst r), seeks (snd r)))
     (unix_read d g Fixture.host0 (bytes "/last"))
   = Some (0, [2112; 3072; 4096; 2304])).
Proof.
  intros g.
  assert (Pfoo : proper_name (bytes "foo")) by (split; [reflexivity | by_compute]).
  assert (Phid : proper_name (bytes "hidden"))
    by (split; [reflexivity | by_compute]).
  assert (Plast : proper_name (bytes "last"))
    by (split; [reflexivity | by_compute]).
  assert (Hfoo : block_has (block_of Fixture.foo_disk 3) (bytes "foo") 0 5)
    by (apply block_hasb_spec; by_compute).
  assert (Hhid : block_lacks (block_of Fixture.foo_disk 3) (bytes "hidden"))
    by (apply block_lacksb_spec; by_compute).
  assert (Hlast : block_lacks (block_of Fixture.full_disk 3) (bytes "last"))
    by (apply block_lacksb_spec; by_compute).
  assert (H1024 : 0 < 1024) by lia.
  set (l3 := [Printf "inode_block_read(%d) => disk_block_read(%d)\n"
                     [ArgI 0; ArgI 3]; Lseek 3072; Read 1024]).
  split.
  - intros d st.
    destruct (directory_scan d g (block_of d 3))
      as (_ & _ & _ & Hp & _ & _ & _ & Hlook).
    + by_compute.
    + intros pos. reflexivity.
    + split; [by_compute|]. split; [|split; [by_compute|]].
      { rewrite Hp.
        replace (length (scanBlock (block_of d 3))) with 1%nat by by_compute.
        cbn [seq flat_map]. rewrite ?app_nil_r. reflexivity. }
      split; [|split; [|by_compute]].
      * pose proof (Hlook (bytes "foo") Pfoo) as (_ & Hfound & _).
        pose proof (Hfound 0%nat 5 Hfoo) as (_ & _ & _ & Hb).
        rewrite (Hb st 1024 l3); [reflexivity | by_compute | exact H1024].
      * pose proof (Hlook (bytes "hidden") Phid) as (_ & _ & Hmiss).
        pose proof (Hmiss Hhid) as (_ & _ & _ & Hb).
        rewrite (Hb st 1024 l3); [|by_compute | exact H1024].
        replace (length (scanBlock (block_of d 3))) with 1%nat by by_compute.
        reflexivity.
  - intros d st.
    destruct (directory_scan d g (block_of d 3))
      as (_ & _ & _ & _ & Hb & _ & _ & Hlook).
    + by_compute.
    + intros pos. reflexivity.
    + split; [by_compute|]. split; [|split; [by_compute|]].
      { specialize (Hb (loaded_inode d g 2) 0 (g_dir_buffer g) 1024 l3).
        rewrite Hb; [|by_compute | exact H1024].
        replace (length (scanBlock (block_of d 3))) with 64%nat by by_compute.
        eexists. split; [reflexivity|]. by_compute. }
      pose proof (Hlook (bytes "last") Plast) as (_ & _ & Hmiss).
      pose proof (Hmiss Hlast) as (_ & _ & Hl & Hr).
      split; [|split; [|by_compute]].
      * rewrite (Hr st 1024 l3); [|by_compute | exact H1024].
        replace (length (scanBlock (block_of d 3))) with 64%nat by by_compute.
        reflexivity.
      * rewrite (Hl (loaded_inode d g 2) 0 (g_dir_buffer g) 1024 l3);
          [|by_compute | exact H1024].
        replace (length (scanBlock (block_of d 3))) with 64%nat by by_compute.
        reflexivity.
Defined.

(** ** The blocks of a directory *)

Lemma disk_block_read_trace (d : Disk) (adr : Z) (buf : list byte) :
  0 <= fst (fst (disk_block_read d adr buf)) ->
  forallb walk_trace (snd (disk_block_read d adr buf)) = true.
Proof.
  unfold disk_block_read. destruct (lseek _ <? 0); [cbn; lia|].
  destruct (read d _ 1024); [reflexivity | cbn; lia].
Qed.

(** A block read that does not fail logs accesses and trace lines only. *)
Lemma inode_block_read_trace (d : Disk) (g : Garbage) (adr : Z) (ino : Inode)
    (buf : list byte) :
  0 <= fst (fst (inode_block_read d g adr ino buf)) ->
  forallb walk_trace (snd (inode_block_read d g adr ino buf)) = true.
Proof.
  unfold inode_block_read.
  destruct (adr <? 10).
  { destruct (_ >? 0); [|reflexivity].
    pose proof (disk_block_read_trace d (s32 (addr_at ino adr)) buf) as T.
    destruct (disk_block_read d _ buf) as [[rv buf'] l]. cbn [fst snd] in *.
    intros Hrv. cbn [forallb walk_trace]. rewrite (T Hrv). reflexivity. }
  destruct (adr <? 266).
  { pose proof (disk_block_read_trace d (s32 (addr_at ino 10))
                  (g_indirect_block g)) as T1.
    destruct (disk_block_read d _ (g_indirect_block g)) as [[rv ib] l1].
    cbn [fst snd] in T1.
    destruct (Z.ltb_spec rv 0); [cbn [fst snd]; lia|].
    match goal with
    | |- context [disk_block_read d ?b buf] =>
        pose proof (disk_block_read_trace d b buf) as T2;
        destruct (disk_block_read d b buf) as [[rv' buf'] l2]
    end.
    cbn [fst snd] in *. intros Hrv.
    rewrite forallb_app. cbn [forallb walk_trace].
    rewrite (T1 ltac:(lia)), (T2 Hrv). reflexivity. }
  destruct (adr <? 65802); [|cbn [fst snd]; lia].
  pose proof (disk_block_read_trace d (s32 (addr_at ino 11))
                (g_first_indirect_block g)) as T1.
  destruct (disk_block_read d _ (g_first_indirect_block g)) as [[rv ib] l1].
  cbn [fst snd] in T1.
  destruct (Z.ltb_spec rv 0); [cbn [fst snd]; lia|].
  match goal with
  | |- context [disk_block_read d ?b (g_second_indirect_block g)] =>
      pose proof (disk_block_read_trace d b (g_second_indirect_block g)) as T2;
      destruct (disk_block_read d b (g_second_indirect_block g))
        as [[rv2 ib2] l2]
  end.
  cbn [fst snd] in T2.
  destruct (Z.ltb_spec rv2 0); [cbn [fst snd]; lia|].
  match goal with
  | |- context [disk_block_read d ?b buf] =>
      pose proof (disk_block_read_trace d b buf) as T3;
      destruct (disk_block_read d b buf) as [[rv' buf'] l3]
  end.
  cbn [fst snd] in *. intros Hrv.
  rewrite !forallb_app. cbn [forallb walk_trace].
  rewrite (T1 ltac:(lia)), (T2 ltac:(lia)), (T3 Hrv). reflexivity.
Qed.

Lemma found_log_trace (d : Disk) (g : Garbage) (number : Z) :
  forallb walk_trace (found_log d g number) = true.
Proof.
  unfold found_log. destruct (_ =? _); reflexivity.
Qed.

Section Blocks.

Variable d : Disk.
Variable g : Garbage.
Hypothesis no_faults : forall pos, faulty d pos = false.

Variable name : list byte.
Hypothesis name_proper : proper_name name.

Variable dir : Inode.
Hypothesis dir_wf : wf_inode dir.

Variable phys : Z -> Z.

(** The blocks [c], ..., [c + b - 1] are passed over. *)
Let passes_from (c b : nat) : Prop :=
  forall i, (i < b)%nat ->
    supplies d dir phys (Z.of_nat (c + i)) /\
    length (scanBlock (block_of d (phys (Z.of_nat (c + i))))) = 64%nat /\
    block_lacks (block_of d (phys (Z.of_nat (c + i)))) name.

Lemma passes_from_0 (b : nat) : passes d dir phys name b -> passes_from 0 b.
Proof. intros H i Hi. exact (H i Hi). Qed.

Lemma passes_from_S (c b : nat) : passes_from c (S b) -> passes_from (S c) b.
Proof.
  intros H i Hi. replace (S c + i)%nat with (c + S i)%nat by lia.
  apply H. lia.
Qed.

(** The lookup of [unix_ls] over the blocks that are passed over. *)
Lemma ls_blocks_pass (b : nat) :
  forall (c : nat) (buf0 : list byte),
    length buf0 = 1024%nat -> passes_from c b ->
    exists l buf1,
      length buf1 = 1024%nat /\ forallb walk_trace l = true /\
      forall fuel,
        loop (b + fuel) (ls_block_body d g name dir) (Z.of_nat c, buf0)
        = match loop fuel (ls_block_body d g name dir)
                     (Z.of_nat (c + b), buf1) with
          | None => None
          | Some (r, l') => Some (r, l ++ l')
          end.
Proof.
  induction b as [|b IH]; intros c buf0 Hl Hp.
  - exists [], buf0. split; [exact Hl|]. split; [reflexivity|].
    intros fuel. rewrite Nat.add_0_r. cbn [Nat.add app].
    destruct (loop fuel _ _) as [[r l']|]; reflexivity.
  - destruct (Hp 0%nat ltac:(lia)) as (Hs & Hfull & Hnone).
    rewrite Nat.add_0_r in Hs, Hfull, Hnone.
    destruct (dir_block d g dir phys (Z.of_nat c) buf0 dir_wf Hs Hl)
      as ((l0 & Hr) & Hbl & _).
    pose proof (inode_block_read_trace d g (Z.of_nat c) dir buf0) as T0.
    rewrite Hr in T0. cbn [fst snd] in T0. specialize (T0 ltac:(lia)).
    pose proof (ls_block_body_missing d g _ Hbl name name_proper dir
                  (Z.of_nat c) 1024 buf0 l0 Hr ltac:(lia) Hnone) as Hbody.
    rewrite Hfull in Hbody. change (Z.of_nat 64 <? 64) with false in Hbody.
    cbv iota in Hbody.
    replace (Z.of_nat c + 1) with (Z.of_nat (S c)) in Hbody by lia.
    destruct (IH (S c) _ Hbl (passes_from_S c b Hp))
      as (l & buf1 & Hl1 & T & Hloop).
    exists (l0 ++ l), buf1. split; [exact Hl1|]. split.
    { rewrite forallb_app, T0, T. reflexivity. }
    intros fuel. cbn [Nat.add]. rewrite loop_S, Hbody, Hloop.
    replace (S c + b)%nat with (c + S b)%nat by lia.
    destruct (loop fuel _ _) as [[r l']|]; [|reflexivity].
    rewrite app_assoc. reflexivity.
Qed.

(** The same for [unix_read]. *)
Lemma read_blocks_pass (b : nat) :
  forall (c : nat) (st : read_state),
    rs_dir_inode st = dir -> rs_dirblock st = Z.of_nat c ->
    length (rs_dir_buffer st) = 1024%nat -> passes_from c b ->
    exists l st',
      rs_dir_inode st' = dir /\ rs_dirblock st' = Z.of_nat (c + b) /\
      length (rs_dir_buffer st') = 1024%nat /\
      rs_file_inode st' = rs_file_inode st /\
      rs_file_inode_number st' = rs_file_inode_number st /\
      forallb walk_trace l = true /\
      forall fuel,
        loop (b + fuel) (read_block_body d g name) st
        = match loop fuel (read_block_body d g name) st' with
          | None => None
          | Some (r, l') => Some (r, l ++ l')
          end.
Proof.
  induction b as [|b IH]; intros c st Hd Hc Hl Hp.
  - exists [], st. rewrite Nat.add_0_r.
    repeat (split; [assumption || reflexivity|]).
    intros fuel. cbn [Nat.add app].
    destruct (loop fuel _ _) as [[r l']|]; reflexivity.
  - destruct (Hp 0%nat ltac:(lia)) as (Hs & Hfull & Hnone).
    rewrite Nat.add_0_r in Hs, Hfull, Hnone.
    destruct (dir_block d g dir phys (Z.of_nat c) (rs_dir_buffer st) dir_wf Hs Hl)
      as ((l0 & Hr) & Hbl & _).
    pose proof (inode_block_read_trace d g (Z.of_nat c) dir (rs_dir_buffer st))
      as T0.
    rewrite Hr in T0. cbn [fst snd] in T0. specialize (T0 ltac:(lia)).
    assert (Hr' : inode_block_read d g (rs_dirblock st) (rs_dir_inode st)
                    (rs_dir_buffer st)
                  = (1024, block_of d (phys (Z.of_nat c)), l0))
      by (rewrite Hd, Hc; exact Hr).
    clear Hr. rename Hr' into Hr.
    pose proof (read_block_body_missing d g _ Hbl name name_proper st 1024 l0
                  Hr ltac:(lia) Hnone) as Hbody.
    rewrite Hfull in Hbody. change (Z.of_nat 64 <? 64) with false in Hbody.
    cbv iota in Hbody.
    destruct (IH (S c) (read_next_block st (block_of d (phys (Z.of_nat c)))))
      as (l & st' & Hd' & Hc' & Hl' & Hfi & Hfn & T & Hloop).
    { exact Hd. }
    { unfold read_next_block. cbn [rs_dirblock]. lia. }
    { exact Hbl. }
    { exact (passes_from_S c b Hp). }
    exists (l0 ++ l), st'.
    split; [exact Hd'|]. split; [rewrite Hc'; f_equal; lia|].
    split; [exact Hl'|]. split; [exact Hfi|]. split; [exact Hfn|]. split.
    { rewrite forallb_app, T0, T. reflexivity. }
    intros fuel. cbn [Nat.add]. rewrite loop_S, Hbody, Hloop.
    destruct (loop fuel _ _) as [[r l']|]; [|reflexivity].
    rewrite app_assoc. reflexivity.
Qed.

Lemma block_fuel_split (b : nat) :
  Z.of_nat b < 65802 -> exists m, block_fuel = (b + S m)%nat.
Proof.
  intros Hb. exists (Z.to_nat 65802 - b)%nat. unfold block_fuel. lia.
Qed.

(** [unix_ls]: the loop over the blocks of [dir] for a name that is found in
    block [b]. *)
Lemma ls_lookup_found (b : nat) (number : Z) (buf0 : list byte) :
  length buf0 = 1024%nat ->
  found_in d dir phys b name number ->
  exists l,
    forallb walk_trace l = true /\
    loop block_fuel (ls_block_body d g name dir) (0, buf0)
    = Some (ls_found d g dir (Z.of_nat b) (block_of d (phys (Z.of_nat b))) number,
            l).
Proof.
  intros Hl (Hp & Hs & k & Hhas).
  destruct (ls_blocks_pass b 0 buf0 Hl (passes_from_0 b Hp))
    as (l & buf1 & Hl1 & T & Hloop).
  destruct (dir_block d g dir phys (Z.of_nat b) buf1 dir_wf Hs Hl1)
    as ((l0 & Hr) & Hbl & Hb).
  pose proof (inode_block_read_trace d g (Z.of_nat b) dir buf1) as T0.
  rewrite Hr in T0. cbn [fst snd] in T0. specialize (T0 ltac:(lia)).
  destruct (block_fuel_split b ltac:(lia)) as (m & Hm).
  exists (l ++ l0 ++ found_log d g number). split.
  { rewrite !forallb_app, T, T0, found_log_trace. reflexivity. }
  rewrite Hm. change (Z.of_nat 0) with 0 in Hloop. rewrite Hloop.
  cbn [Nat.add]. rewrite loop_S.
  rewrite (ls_block_body_found d g no_faults _ Hbl name name_proper dir
             (Z.of_nat b) 1024 buf1 l0 k number Hr ltac:(lia) Hhas).
  reflexivity.
Qed.

(** A name that is not found, the scan ending at a free slot. *)
Lemma ls_lookup_missing (b : nat) (buf0 : list byte) :
  length buf0 = 1024%nat ->
  ends_at_slot d dir phys b name ->
  exists l,
    forallb walk_trace l = true /\
    loop block_fuel (ls_block_body d g name dir) (0, buf0)
    = Some (BlockDone 0 dir (Z.of_nat b) (block_of d (phys (Z.of_nat b))), l).
Proof.
  intros Hl (Hp & Hs & Hshort & Hnone).
  destruct (ls_blocks_pass b 0 buf0 Hl (passes_from_0 b Hp))
    as (l & buf1 & Hl1 & T & Hloop).
  destruct (dir_block d g dir phys (Z.of_nat b) buf1 dir_wf Hs Hl1)
    as ((l0 & Hr) & Hbl & Hb).
  pose proof (inode_block_read_trace d g (Z.of_nat b) dir buf1) as T0.
  rewrite Hr in T0. cbn [fst snd] in T0. specialize (T0 ltac:(lia)).
  destruct (block_fuel_split b ltac:(lia)) as (m & Hm).
  exists (l ++ l0). split.
  { rewrite !forallb_app, T, T0. reflexivity. }
  rewrite Hm. change (Z.of_nat 0) with 0 in Hloop. rewrite Hloop.
  cbn [Nat.add]. rewrite loop_S.
  rewrite (ls_block_body_missing d g _ Hbl name name_proper dir
             (Z.of_nat b) 1024 buf1 l0 Hr ltac:(lia) Hnone).
  destruct (Z.ltb_spec (Z.of_nat (length (scanBlock (block_of d (phys (Z.of_nat b))))))
              64); [reflexivity | lia].
Qed.

(** A name that is not found, every block being full: the loop asks for the
    block after the last and returns 0. *)
Lemma ls_lookup_eof (b : nat) (buf0 : list byte) :
  length buf0 = 1024%nat ->
  ends_at_eof d g dir phys b name ->
  exists l,
    forallb walk_trace l = true /\
    loop block_fuel (ls_block_body d g name dir) (0, buf0)
    = Some (BlockReturn 0, l).
Proof.
  intros Hl (Hp & Heof).
  destruct (ls_blocks_pass b 0 buf0 Hl (passes_from_0 b Hp))
    as (l & buf1 & Hl1 & T & Hloop).
  assert (Hb : Z.of_nat b < 65802).
  { destruct (Z_lt_ge_dec (Z.of_nat b) 65802) as [H|H]; [exact H|].
    pose proof (inode_block_read_far d g (Z.of_nat b) dir buf1 ltac:(lia)) as F.
    rewrite Heof in F. discriminate. }
  pose proof (inode_block_read_trace d g (Z.of_nat b) dir buf1) as T0.
  specialize (Heof buf1).
  destruct (inode_block_read d g (Z.of_nat b) dir buf1) as [[rv buf'] l0] eqn:Hr.
  cbn [fst snd] in Heof, T0. subst rv. specialize (T0 ltac:(lia)).
  destruct (block_fuel_split b Hb) as (m & Hm).
  exists (l ++ l0). split.
  { rewrite !forallb_app, T, T0. reflexivity. }
  rewrite Hm. change (Z.of_nat 0) with 0 in Hloop. rewrite Hloop.
  cbn [Nat.add]. rewrite loop_S. unfold ls_block_body. rewrite Hr.
  reflexivity.
Qed.

(** The same three lookups in [unix_read], from a state in a directory just
    entered. *)
Lemma read_lookup_found (st : read_state) (b : nat) (number : Z) :
  in_dir st dir ->
  found_in d dir phys b name number ->
  let ino := loaded_inode d g number in
  exists l,
    forallb walk_trace l = true /\
    loop block_fuel (read_block_body d g name) st
    = Some (RBlockDone
              {| rs_dir_inode := if type ino =? INODE_FT_DIR then ino else dir;
                 rs_file_inode := ino;
                 rs_dirblock :=
                   if type ino =? INODE_FT_DIR then 0 else Z.of_nat b;
                 rs_dir_buffer := block_of d (phys (Z.of_nat b));
                 rs_dir_inode_number :=
                   if type ino =? INODE_FT_DIR then number else 0;
                 rs_file_inode_number :=
                   if type ino =? INODE_FT_FILE then number else 0 |}, l).
Proof.
  intros (Hd & Hc & Hl & Hfn) (Hp & Hs & k & Hhas) ino.
  destruct (read_blocks_pass b 0 st Hd Hc Hl (passes_from_0 b Hp))
    as (l & st1 & Hd1 & Hc1 & Hl1 & _ & Hfn1 & T & Hloop).
  cbn [Nat.add] in Hc1. rewrite Hfn in Hfn1.
  destruct (dir_block d g dir phys (Z.of_nat b) (rs_dir_buffer st1) dir_wf Hs Hl1)
    as ((l0 & Hr) & Hbl & Hb).
  pose proof (inode_block_read_trace d g (Z.of_nat b) dir (rs_dir_buffer st1))
    as T0.
  rewrite Hr in T0. cbn [fst snd] in T0. specialize (T0 ltac:(lia)).
  assert (Hr' : inode_block_read d g (rs_dirblock st1) (rs_dir_inode st1)
                  (rs_dir_buffer st1)
                = (1024, block_of d (phys (Z.of_nat b)), l0))
    by (rewrite Hd1, Hc1; exact Hr).
  clear Hr. rename Hr' into Hr.
  destruct (block_fuel_split b ltac:(lia)) as (m & Hm).
  exists (l ++ l0 ++ found_log d g number). split.
  { rewrite !forallb_app, T, T0, found_log_trace. reflexivity. }
  rewrite Hm, Hloop. rewrite loop_S.
  rewrite (read_block_body_found d g no_faults _ Hbl name name_proper st1 1024
             l0 k number Hr ltac:(lia) Hhas).
  unfold read_found. cbv zeta. fold ino. rewrite Hd1, Hc1, Hfn1. reflexivity.
Qed.

Lemma read_lookup_missing (st : read_state) (b : nat) :
  in_dir st dir ->
  ends_at_slot d dir phys b name ->
  exists l st',
    forallb walk_trace l = true /\
    rs_dir_inode_number st' = 0 /\ rs_file_inode_number st' = 0 /\
    loop block_fuel (read_block_body d g name) st = Some (RBlockDone st', l).
Proof.
  intros (Hd & Hc & Hl & Hfn) (Hp & Hs & Hshort & Hnone).
  destruct (read_blocks_pass b 0 st Hd Hc Hl (passes_from_0 b Hp))
    as (l & st1 & Hd1 & Hc1 & Hl1 & _ & Hfn1 & T & Hloop).
  cbn [Nat.add] in Hc1. rewrite Hfn in Hfn1.
  destruct (dir_block d g dir phys (Z.of_nat b) (rs_dir_buffer st1) dir_wf Hs Hl1)
    as ((l0 & Hr) & Hbl & Hb).
  pose proof (inode_block_read_trace d g (Z.of_nat b) dir (rs_dir_buffer st1))
    as T0.
  rewrite Hr in T0. cbn [fst snd] in T0. specialize (T0 ltac:(lia)).
  assert (Hr' : inode_block_read d g (rs_dirblock st1) (rs_dir_inode st1)
                  (rs_dir_buffer st1)
                = (1024, block_of d (phys (Z.of_nat b)), l0))
    by (rewrite Hd1, Hc1; exact Hr).
  clear Hr. rename Hr' into Hr.
  destruct (block_fuel_split b ltac:(lia)) as (m & Hm).
  exists (l ++ l0), (read_scanning st1 (block_of d (phys (Z.of_nat b)))). split.
  { rewrite !forallb_app, T, T0. reflexivity. }
  split; [reflexivity|]. split; [exact Hfn1|].
  rewrite Hm, Hloop. rewrite loop_S.
  rewrite (read_block_body_missing d g _ Hbl name name_proper st1 1024 l0 Hr
             ltac:(lia) Hnone).
  destruct (Z.ltb_spec (Z.of_nat (length (scanBlock (block_of d (phys (Z.of_nat b))))))
              64); [reflexivity | lia].
Qed.

Lemma read_lookup_eof (st : read_state) (b : nat) :
  in_dir st dir ->
  ends_at_eof d g dir phys b name ->
  exists l,
    forallb walk_trace l = true /\
    loop block_fuel (read_block_body d g name) st = Some (RBlockReturn 0, l).
Proof.
  intros (Hd & Hc & Hl & Hfn) (Hp & Heof).
  destruct (read_blocks_pass b 0 st Hd Hc Hl (passes_from_0 b Hp))
    as (l & st1 & Hd1 & Hc1 & Hl1 & _ & Hfn1 & T & Hloop).
  cbn [Nat.add] in Hc1.
  assert (Hb : Z.of_nat b < 65802).
  { destruct (Z_lt_ge_dec (Z.of_nat b) 65802) as [H|H]; [exact H|].
    pose proof (inode_block_read_far d g (Z.of_nat b) dir (rs_dir_buffer st1)
                  ltac:(lia)) as F.
    rewrite Heof in F. discriminate. }
  pose proof (inode_block_read_trace d g (Z.of_nat b) dir (rs_dir_buffer st1))
    as T0.
  specialize (Heof (rs_dir_buffer st1)).
  destruct (inode_block_read d g (Z.of_nat b) dir (rs_dir_buffer st1))
    as [[rv buf'] l0] eqn:Hr.
  cbn [fst snd] in Heof, T0. subst rv. specialize (T0 ltac:(lia)).
  rewrite <- Hd1, <- Hc1 in Hr.
  destruct (block_fuel_split b Hb) as (m & Hm).
  exists (l ++ l0). split.
  { rewrite !forallb_app, T, T0. reflexivity. }
  rewrite Hm, Hloop. rewrite loop_S. unfold read_block_body. rewrite Hr.
  reflexivity.
Qed.

End Blocks.

(** ** One component of the path *)

Lemma found_in_nonzero (d : Disk) (dir : Inode) (phys : Z -> Z) (b : nat)
    (name : list byte) (number : Z) :
  found_in d dir phys b name number -> number <> 0 /\ 0 <= number < 2 ^ 16.
Proof.
  intros (_ & _ & k & Hk & _ & _ & Hn). subst number. split.
  - apply scanBlock_nonzero. exact Hk.
  - apply be16_range.
Qed.

Lemma found_in_block_length (d : Disk) (dir : Inode) (phys : Z -> Z) (b : nat)
    (name : list byte) (number : Z) :
  found_in d dir phys b name number ->
  length (block_of d (phys (Z.of_nat b))) = 1024%nat.
Proof.
  intros (_ & (_ & _ & H0 & _ & H1 & _) & _). apply length_block_of; assumption.
Qed.

Ltac rs_simpl :=
  cbn [rs_dir_inode rs_file_inode rs_dirblock rs_dir_buffer rs_dir_inode_number
       rs_file_inode_number].

Ltac rs_simpl_in H :=
  cbn [rs_dir_inode rs_file_inode rs_dirblock rs_dir_buffer rs_dir_inode_number
       rs_file_inode_number] in H.

Section Component.

Variable d : Disk.
Variable g : Garbage.
Hypothesis no_faults : forall pos, faulty d pos = false.

Variable name : list byte.
Hypothesis name_proper : proper_name name.

Variable dir : Inode.
Hypothesis dir_wf : wf_inode dir.

Variable phys : Z -> Z.
Variable b : nat.

(** [unix_ls], a component that names a directory: the walk goes on in it. *)
Lemma ls_walk_dir (buf0 : list byte) (number : Z) :
  length buf0 = 1024%nat ->
  found_in d dir phys b name number ->
  type (loaded_inode d g number) = INODE_FT_DIR ->
  exists l,
    forallb walk_trace l = true /\
    forall rest,
      ls_walk d g (name :: rest) dir 0 buf0
      = match ls_walk d g rest (loaded_inode d g number) 0
                      (block_of d (phys (Z.of_nat b))) with
        | None => None
        | Some (r, l') => Some (r, msg_pathpart name :: l ++ l')
        end.
Proof.
  intros Hl Hent Htype.
  destruct (found_in_nonzero d dir phys b name number Hent) as (Hnz & _).
  destruct (ls_lookup_found d g no_faults name name_proper dir dir_wf phys b
              number buf0 Hl Hent) as (l & T & Hloop).
  unfold ls_found in Hloop. cbv zeta in Hloop. rewrite Htype in Hloop.
  change (INODE_FT_DIR =? INODE_FT_DIR) with true in Hloop. cbv iota in Hloop.
  exists l. split; [exact T|]. intros rest. cbn [ls_walk]. rewrite Hloop.
  destruct (Z.eqb_spec number 0); [contradiction|].
  destruct (ls_walk d g rest _ _ _) as [[r l']|]; reflexivity.
Qed.

(** [unix_ls], a component that names something else than a directory: the
    walk fails as for a name that is not there. *)
Lemma ls_walk_not_dir (buf0 : list byte) (number : Z) (rest : list (list byte)) :
  length buf0 = 1024%nat ->
  found_in d dir phys b name number ->
  type (loaded_inode d g number) <> INODE_FT_DIR ->
  exists l,
    ls_walk d g (name :: rest) dir 0 buf0
    = Some (LsReturn (-1), msg_pathpart name :: l ++ [msg_not_found]).
Proof.
  intros Hl Hent Htype.
  destruct (ls_lookup_found d g no_faults name name_proper dir dir_wf phys b
              number buf0 Hl Hent) as (l & T & Hloop).
  unfold ls_found in Hloop. cbv zeta in Hloop.
  destruct (Z.eqb_spec (type (loaded_inode d g number)) INODE_FT_DIR);
    [contradiction|].
  exists l. cbn [ls_walk]. rewrite Hloop. change (0 =? 0) with true. cbv iota.
  reflexivity.
Qed.

(** [unix_ls], a component the directory does not hold, the scan ending at a
    free slot. *)
Lemma ls_walk_missing (buf0 : list byte) (rest : list (list byte)) :
  length buf0 = 1024%nat ->
  ends_at_slot d dir phys b name ->
  exists l,
    ls_walk d g (name :: rest) dir 0 buf0
    = Some (LsReturn (-1), msg_pathpart name :: l ++ [msg_not_found]).
Proof.
  intros Hl Hent.
  destruct (ls_lookup_missing d g name name_proper dir dir_wf phys b buf0 Hl Hent)
    as (l & T & Hloop).
  exists l. cbn [ls_walk]. rewrite Hloop. change (0 =? 0) with true. cbv iota.
  reflexivity.
Qed.

(** [unix_ls], a component the directory does not hold, every block being
    full: the walk returns 0 and says nothing. *)
Lemma ls_walk_eof (buf0 : list byte) (rest : list (list byte)) :
  length buf0 = 1024%nat ->
  ends_at_eof d g dir phys b name ->
  exists l,
    forallb walk_trace l = true /\
    ls_walk d g (name :: rest) dir 0 buf0 = Some (LsReturn 0, l).
Proof.
  intros Hl Hent.
  destruct (ls_lookup_eof d g name name_proper dir dir_wf phys b buf0 Hl Hent)
    as (l & T & Hloop).
  exists (msg_pathpart name :: l). split.
  { cbn [forallb]. rewrite T. reflexivity. }
  cbn [ls_walk]. rewrite Hloop. reflexivity.
Qed.

(** [unix_read], a component that names a directory. *)
Lemma read_walk_dir (st : read_state) (number : Z) :
  in_dir st dir ->
  found_in d dir phys b name number ->
  type (loaded_inode d g number) = INODE_FT_DIR ->
  exists l st',
    forallb walk_trace l = true /\
    in_dir st' (loaded_inode d g number) /\
    forall rest,
      read_walk d g (name :: rest) st
      = match read_walk d g rest st' with
        | None => None
        | Some (r, l') => Some (r, msg_pathpart name :: l ++ l')
        end.
Proof.
  intros Hin Hent Htype.
  destruct (found_in_nonzero d dir phys b name number Hent) as (Hnz & _).
  pose proof (found_in_block_length d dir phys b name number Hent) as Hbl.
  destruct (read_lookup_found d g no_faults name name_proper dir dir_wf phys st b
              number Hin Hent) as (l & T & Hloop).
  rewrite Htype in Hloop.
  change (INODE_FT_DIR =? INODE_FT_DIR) with true in Hloop.
  change (INODE_FT_DIR =? INODE_FT_FILE) with false in Hloop.
  cbv iota in Hloop.
  destruct Hin as (_ & _ & _ & Hfile).
  exists l. eexists. split; [exact T|]. split.
  2:{ intros rest. cbn [read_walk]. rewrite Hfile.
      change (negb (0 =? 0)) with false. cbv iota.
      rewrite Hloop. rs_simpl.
      destruct (Z.eqb_spec number 0); [contradiction|]. cbn [andb]. cbv iota.
      reflexivity. }
  unfold in_dir. rs_simpl. repeat split. exact Hbl.
Qed.

(** [unix_read], a component that names a regular file: it is the file to
    copy, and any further component is refused. *)
Lemma read_walk_file (st : read_state) (number : Z) :
  in_dir st dir ->
  found_in d dir phys b name number ->
  type (loaded_inode d g number) = INODE_FT_FILE ->
  exists l st',
    forallb walk_trace l = true /\
    rs_file_inode_number st' = number /\
    rs_file_inode st' = loaded_inode d g number /\
    read_walk d g [name] st = Some (RdWalked st', msg_pathpart name :: l) /\
    forall next rest,
      read_walk d g (name :: next :: rest) st
      = Some (RdReturn 0, msg_pathpart name :: l ++ [msg_file_early]).
Proof.
  intros Hin Hent Htype.
  destruct (found_in_nonzero d dir phys b name number Hent) as (Hnz & _).
  destruct (read_lookup_found d g no_faults name name_proper dir dir_wf phys st b
              number Hin Hent) as (l & T & Hloop).
  rewrite Htype in Hloop.
  change (INODE_FT_FILE =? INODE_FT_DIR) with false in Hloop.
  change (INODE_FT_FILE =? INODE_FT_FILE) with true in Hloop.
  cbv iota in Hloop.
  destruct Hin as (_ & _ & _ & Hfile).
  exists l. eexists. split; [exact T|]. split; [|split; [|split]].
  3:{ cbn [read_walk]. rewrite Hfile. change (negb (0 =? 0)) with false. cbv iota.
      rewrite Hloop. rs_simpl.
      destruct (Z.eqb_spec number 0); [contradiction|].
      change (0 =? 0) with true. cbn [andb]. cbv iota.
      rewrite app_nil_r. reflexivity. }
  - reflexivity.
  - reflexivity.
  - intros next rest. cbn [read_walk]. rewrite Hfile.
    change (negb (0 =? 0)) with false. cbv iota.
    rewrite Hloop. rs_simpl.
    destruct (Z.eqb_spec number 0); [contradiction|].
    change (0 =? 0) with true. cbn [andb negb]. cbv iota. reflexivity.
Qed.

(** [unix_read], a component the directory does not hold, the scan ending at
    a free slot. *)
Lemma read_walk_missing (st : read_state) (rest : list (list byte)) :
  in_dir st dir ->
  ends_at_slot d dir phys b name ->
  exists l,
    read_walk d g (name :: rest) st
    = Some (RdReturn (-1), msg_pathpart name :: l ++ [msg_not_found]).
Proof.
  intros Hin Hent.
  destruct (read_lookup_missing d g name name_proper dir dir_wf phys st b Hin Hent)
    as (l & st' & T & Hdn & Hfn & Hloop).
  destruct Hin as (_ & _ & _ & Hfile).
  exists l. cbn [read_walk]. rewrite Hfile.
  change (negb (0 =? 0)) with false. cbv iota.
  rewrite Hloop, Hdn, Hfn. change (0 =? 0) with true. cbn [andb]. cbv iota.
  reflexivity.
Qed.

(** [unix_read], a component the directory does not hold, every block being
    full: the walk returns 0 and says nothing. *)
Lemma read_walk_eof (st : read_state) (rest : list (list byte)) :
  in_dir st dir ->
  ends_at_eof d g dir phys b name ->
  exists l,
    forallb walk_trace l = true /\
    read_walk d g (name :: rest) st = Some (RdReturn 0, l).
Proof.
  intros Hin Hent.
  destruct (read_lookup_eof d g name name_proper dir dir_wf phys st b Hin Hent)
    as (l & T & Hloop).
  destruct Hin as (_ & _ & _ & Hfile).
  exists (msg_pathpart name :: l). split.
  { cbn [forallb]. rewrite T. reflexivity. }
  cbn [read_walk]. rewrite Hfile.
  change (negb (0 =? 0)) with false. cbv iota.
  rewrite Hloop. reflexivity.
Qed.

End Component.

(** ** The path scenario *)

Lemma last_snoc_log (l : list event) (e : event) : last (l ++ [e]) (Lseek 0) = e.
Proof. apply last_last. Qed.

Ltac last_of_log :=
  repeat first [rewrite app_comm_cons | rewrite app_assoc];
  apply last_snoc_log.

Lemma loaded_inode_wf (d : Disk) (g : Garbage) (n : Z) : wf_inode (loaded_inode d g n).
Proof. apply decode_inode_wf. Qed.

Section Scenario.

Variable d : Disk.
Variable g : Garbage.
Hypothesis no_faults : forall pos, faulty d pos = false.
Hypothesis dir_buffer_length : length (g_dir_buffer g) = 1024%nat.

Let root : Inode := loaded_inode d g 2.
Let bin : Inode := loaded_inode d g 10.
Let sh : Inode := loaded_inode d g 42.

Hypothesis root_bin : has_entry d root (bytes "bin") 10.
Hypothesis bin_dir : type bin = INODE_FT_DIR.
Hypothesis bin_sh : has_entry d bin (bytes "sh") 42.
Hypothesis sh_file : type sh = INODE_FT_FILE.

Lemma proper_bin : proper_name (bytes "bin").
Proof. split; [reflexivity | by_compute]. Qed.

Lemma proper_sh : proper_name (bytes "sh").
Proof. split; [reflexivity | by_compute]. Qed.

Lemma proper_nope : proper_name (bytes "nope").
Proof. split; [reflexivity | by_compute]. Qed.

Lemma in_dir_root : in_dir (read_state0 g root) root.
Proof.
  unfold in_dir, read_state0. rs_simpl. repeat split. exact dir_buffer_length.
Qed.

(** The walk of [unix_read] in the scenario. *)
Lemma scenario_read_walk :
  (exists l st,
     read_walk d g [bytes "bin"; bytes "sh"] (read_state0 g root)
     = Some (RdWalked st, l) /\
     rs_file_inode_number st = 42 /\ rs_file_inode st = sh) /\
  (exists l,
     read_walk d g [bytes "bin"; bytes "sh"; bytes "x"] (read_state0 g root)
     = Some (RdReturn 0, l) /\ last l (Lseek 0) = msg_file_early) /\
  (lacks_entry d bin (bytes "nope") ->
   exists l,
     read_walk d g [bytes "bin"; bytes "nope"] (read_state0 g root)
     = Some (RdReturn (-1), l) /\ last l (Lseek 0) = msg_not_found) /\
  (lacks_entry_full d g bin (bytes "nope") ->
   exists l,
     read_walk d g [bytes "bin"; bytes "nope"] (read_state0 g root)
     = Some (RdReturn 0, l) /\ forallb walk_trace l = true).
Proof.
  destruct root_bin as (phys1 & b1 & Hroot).
  destruct bin_sh as (phys2 & b2 & Hbin).
  destruct (read_walk_dir d g no_faults (bytes "bin") proper_bin root
              (loaded_inode_wf d g 2) phys1 b1 (read_state0 g root) 10
              in_dir_root Hroot bin_dir) as (l1 & st1 & T1 & Hin1 & Hstep1).
  fold bin in Hin1.
  destruct (read_walk_file d g no_faults (bytes "sh") proper_sh bin
              (loaded_inode_wf d g 10) phys2 b2 st1 42 Hin1 Hbin sh_file)
    as (l2 & st2 & T2 & Hnum & Hfile & Hlast & Hmore).
  split; [|split; [|split]].
  - eexists. exists st2. rewrite Hstep1, Hlast.
    split; [reflexivity|]. split; assumption.
  - eexists. rewrite Hstep1, Hmore. split; [reflexivity|]. last_of_log.
  - intros (phys3 & b3 & Hnope).
    destruct (read_walk_missing d g (bytes "nope") proper_nope bin
                (loaded_inode_wf d g 10) phys3 b3 st1 [] Hin1 Hnope)
      as (l3 & Hmiss).
    eexists. rewrite Hstep1, Hmiss. split; [reflexivity|]. last_of_log.
  - intros (phys3 & b3 & Hnope).
    destruct (read_walk_eof d g (bytes "nope") proper_nope bin
                (loaded_inode_wf d g 10) phys3 b3 st1 [] Hin1 Hnope)
      as (l3 & T3 & Heof).
    eexists. rewrite Hstep1, Heof. split; [reflexivity|].
    cbn [forallb]. rewrite forallb_app, T1, T3. reflexivity.
Qed.

(** The walk of [unix_ls] in the scenario. *)
Lemma scenario_ls_walk :
  (exists l buf,
     ls_walk d g [bytes "bin"] root 0 (g_dir_buffer g)
     = Some (LsWalked bin 0 buf, l)) /\
  (forall parts,
     parts = [bytes "bin"; bytes "sh"] \/
     parts = [bytes "bin"; bytes "sh"; bytes "x"] ->
     exists l,
       ls_walk d g parts root 0 (g_dir_buffer g) = Some (LsReturn (-1), l) /\
       last l (Lseek 0) = msg_not_found) /\
  (lacks_entry d bin (bytes "nope") ->
   exists l,
     ls_walk d g [bytes "bin"; bytes "nope"] root 0 (g_dir_buffer g)
     = Some (LsReturn (-1), l) /\ last l (Lseek 0) = msg_not_found) /\
  (lacks_entry_full d g bin (bytes "nope") ->
   exists l,
     ls_walk d g [bytes "bin"; bytes "nope"] root 0 (g_dir_buffer g)
     = Some (LsReturn 0, l) /\ forallb walk_trace l = true).
Proof.
  destruct root_bin as (phys1 & b1 & Hroot).
  destruct bin_sh as (phys2 & b2 & Hbin).
  destruct (ls_walk_dir d g no_faults (bytes "bin") proper_bin root
              (loaded_inode_wf d g 2) phys1 b1 (g_dir_buffer g) 10
              dir_buffer_length Hroot bin_dir) as (l1 & T1 & Hstep1).
  fold bin in Hstep1.
  pose proof (found_in_block_length d root phys1 b1 _ _ Hroot) as Hbl.
  assert (Hsh : type (loaded_inode d g 42) <> INODE_FT_DIR).
  { fold sh. rewrite sh_file. discriminate. }
  split; [|split; [|split]].
  - eexists. eexists. rewrite Hstep1. cbn [ls_walk]. rewrite app_nil_r.
    reflexivity.
  - intros parts [-> | ->].
    + destruct (ls_walk_not_dir d g no_faults (bytes "sh") proper_sh bin
                  (loaded_inode_wf d g 10) phys2 b2 _ 42 [] Hbl Hbin Hsh)
        as (l2 & H2).
      eexists. rewrite Hstep1, H2. split; [reflexivity|]. last_of_log.
    + destruct (ls_walk_not_dir d g no_faults (bytes "sh") proper_sh bin
                  (loaded_inode_wf d g 10) phys2 b2 _ 42 [bytes "x"] Hbl Hbin Hsh)
        as (l2 & H2).
      eexists. rewrite Hstep1, H2. split; [reflexivity|]. last_of_log.
  - intros (phys3 & b3 & Hnope).
    destruct (ls_walk_missing d g (bytes "nope") proper_nope bin
                (loaded_inode_wf d g 10) phys3 b3 _ [] Hbl Hnope) as (l2 & H2).
    eexists. rewrite Hstep1, H2. split; [reflexivity|]. last_of_log.
  - intros (phys3 & b3 & Hnope).
    destruct (ls_walk_eof d g (bytes "nope") proper_nope bin
                (loaded_inode_wf d g 10) phys3 b3 _ [] Hbl Hnope)
      as (l2 & T2 & H2).
    eexists. rewrite Hstep1, H2. split; [reflexivity|].
    cbn [forallb]. rewrite forallb_app, T1, T2. reflexivity.
Qed.

Lemma unix_read_walks (h : Host) (c path : list byte) :
  hd x00 path = x2f ->
  host_open h [O_RDWR; O_CREAT] = Some c ->
  unix_read d g h path
  = let f := {| contents := c; pos := 0 |} in
    let l := [Lseek (0x7C0 + 2 * 0x40); Read 0x40] in
    match read_walk d g (strtok_all path) (read_state0 g root) with
    | None => None
    | Some (RdReturn rv, l') => Some (rv, host_with h f, l ++ l')
    | Some (RdWalked st', l') =>
        if rs_file_inode_number st' =? 0 then
          Some (0, host_with h f,
                l ++ l' ++
                [Printf "unixtool: No such file or directory (in image, file read).\n" []])
        else
          match read_copy d g h (rs_file_inode st') f with
          | None => None
          | Some (rv, f', l'') => Some (rv, host_with h f', l ++ l' ++ l'')
          end
    end.
Proof.
  intros Hhd Hopen. unfold unix_read. rewrite Hhd, Hopen.
  change (negb (Byte.eqb x2f x2f)) with false. cbv iota.
  rewrite read_inode_loaded by (exact no_faults || by_compute || (split; by_compute)).
  reflexivity.
Qed.

Lemma unix_ls_walks (path : list byte) :
  hd x00 path = x2f ->
  unix_ls d g path
  = let l := [Lseek (0x7C0 + 2 * 0x40); Read 0x40] in
    match ls_walk d g (strtok_all path) root 0 (g_dir_buffer g) with
    | None => None
    | Some (LsReturn rv, l') => Some (rv, l ++ l')
    | Some (LsWalked dir_inode' dirblock dir_buffer, l') =>
        match loop block_fuel (ls_list_body d g dir_inode') (dirblock, dir_buffer) with
        | None => None
        | Some (rv, l'') =>
            Some (rv, l ++ l' ++ Printf "%s:\n" [ArgS (path_after_strtok path)] :: l'')
        end
    end.
Proof.
  intros Hhd. unfold unix_ls. rewrite Hhd.
  change (negb (Byte.eqb x2f x2f)) with false. cbv iota.
  rewrite read_inode_loaded by (exact no_faults || by_compute || (split; by_compute)).
  reflexivity.
Qed.


End Scenario.

(** The entries of a directory of a synthetic image, in its first block
    [p]. *)
Ltac solve_supplies :=
  unfold supplies, maps_to;
  split; [left; split; [lia | by_compute] | split; [by_compute | solve_readable]].

Ltac solve_has_entry p k :=
  exists (fun _ : Z => p), 0%nat;
  split; [intros i Hi; exfalso; lia|];
  split; [solve_supplies|];
  exists k; apply block_hasb_spec; by_compute.

Ltac solve_lacks_entry p :=
  exists (fun _ : Z => p), 0%nat;
  split; [intros i Hi; exfalso; lia|];
  split; [solve_supplies|];
  split; [by_compute | apply block_lacksb_spec; by_compute].



(** ** The byte swaps *)

Ltac swap_masks :=
  change 0xFF000000 with (Z.shiftl (Z.ones 8) 24);
  change 0x00FF0000 with (Z.shiftl (Z.ones 8) 16);
  change 0x0000FF00 with (Z.shiftl (Z.ones 8) 8);
  change 0x000000FF with (Z.ones 8).

Ltac split_ltb :=
  repeat match goal with
         | |- context [?a <? ?b] => destruct (Z.ltb_spec a b); try lia
         end.

(** The bits of the masks and of a word outside its range. *)
Ltac mask_bits x :=
  repeat match goal with
         | |- context [Z.testbit (Z.land ?a ?b) ?j] => rewrite (Z.land_spec a b j)
         | |- context [Z.testbit (Z.shiftl ?a ?n) ?j] =>
             first [ rewrite (Z.shiftl_spec a n j) by lia
                   | rewrite (Z.testbit_neg_r (Z.shiftl a n) j) by lia ]
         | |- context [Z.testbit (Z.ones 8) ?j] =>
             first [ rewrite (Z.testbit_neg_r (Z.ones 8) j) by lia
                   | rewrite (Z.ones_spec_low 8 j) by lia
                   | rewrite (Z.ones_spec_high 8 j) by lia ]
         | |- context [Z.testbit x ?j] =>
             rewrite (Z.testbit_neg_r x j) by lia
         end;
  bool_tidy; try reflexivity; try (f_equal; lia).

(** Bit [i] of [swap_word x] is the bit of [x] in the mirrored octet. *)
Lemma testbit_swap_word (x i : Z) :
  0 <= i ->
  Z.testbit (swap_word x) i
  = if i <? 8 then Z.testbit x (i + 24)
    else if i <? 16 then Z.testbit x (i + 8)
    else if i <? 24 then Z.testbit x (i - 8)
    else if i <? 32 then Z.testbit x (i - 24)
    else false.
Proof.
  intros Hi. unfold swap_word. swap_masks.
  rewrite !Z.lor_spec, !Z.shiftr_spec by lia.
  rewrite !Z.land_spec.
  split_ltb; mask_bits x.
Qed.

Lemma testbit_swap_hword (x i : Z) :
  0 <= i ->
  Z.testbit (swap_hword x) i
  = if i <? 8 then Z.testbit x (i + 8)
    else if i <? 16 then Z.testbit x (i - 8)
    else false.
Proof.
  intros Hi. unfold swap_hword, u16.
  change 0xFF00 with (Z.shiftl (Z.ones 8) 8).
  change 0x00FF with (Z.ones 8).
  rewrite <- Z.land_ones by lia.
  rewrite Z.land_spec, Z.lor_spec, Z.shiftr_spec by lia.
  rewrite !Z.land_spec.
  rewrite (Z.testbit_ones_nonneg 16 i) by lia.
  split_ltb; mask_bits x.
Qed.

(** Equality of two octets, bit by bit, by the bits of the swap. *)
Ltac octet_eq lem :=
  change 0xFF with (Z.ones 8);
  apply Z.bits_inj'; intros i Hi;
  rewrite !Z.land_spec, ?Z.shiftr_spec, Z.testbit_ones_nonneg by lia;
  rewrite lem by lia;
  split_ltb; bool_tidy; try reflexivity; f_equal; lia.

(** X1: [swap_word] mirrors the four octets of a word: octet [k] of the
    result is octet [3 - k] of the argument.  It yields a 32-bit word, and
    swapping twice gives back the low 32 bits of the argument: on 32-bit
    words it is its own inverse. *)
Theorem swap_word_involutive (x : Z) :
  (Z.land (swap_word x) 0xFF = Z.land (Z.shiftr x 24) 0xFF /\
   Z.land (Z.shiftr (swap_word x) 8) 0xFF = Z.land (Z.shiftr x 16) 0xFF /\
   Z.land (Z.shiftr (swap_word x) 16) 0xFF = Z.land (Z.shiftr x 8) 0xFF /\
   Z.land (Z.shiftr (swap_word x) 24) 0xFF = Z.land x 0xFF) /\
  0 <= swap_word x < 2 ^ 32 /\
  swap_word (swap_word x) = u32 x /\
  swap_word (u32 x) = swap_word x.
Proof.
  assert (Hlow : forall y, Z.land (swap_word y) (Z.ones 32) = swap_word y).
  { intros y. apply Z.bits_inj'. intros i Hi.
    rewrite Z.land_spec, Z.testbit_ones_nonneg, testbit_swap_word by lia.
    split_ltb; bool_tidy; reflexivity. }
  split; [|split; [|split]].
  - repeat split; octet_eq testbit_swap_word.
  - rewrite <- Hlow, Z.land_ones by lia. apply Z.mod_pos_bound. lia.
  - unfold u32. rewrite <- Z.land_ones by lia.
    apply Z.bits_inj'. intros i Hi.
    rewrite Z.land_spec, Z.testbit_ones_nonneg, testbit_swap_word by lia.
    split_ltb; rewrite testbit_swap_word by lia; split_ltb; bool_tidy;
      try reflexivity; f_equal; lia.
  - unfold u32. rewrite <- Z.land_ones by lia.
    apply Z.bits_inj'. intros i Hi.
    rewrite !testbit_swap_word by lia.
    split_ltb; rewrite ?Z.land_spec, ?Z.testbit_ones_nonneg by lia;
      split_ltb; bool_tidy; reflexivity.
Qed.

(** X2: [swap_hword] exchanges the two octets of a halfword.  It yields a
    16-bit word, and swapping twice gives back the low 16 bits of the
    argument: on 16-bit words it is its own inverse. *)
Theorem swap_hword_involutive (x : Z) :
  (Z.land (swap_hword x) 0xFF = Z.land (Z.shiftr x 8) 0xFF /\
   Z.land (Z.shiftr (swap_hword x) 8) 0xFF = Z.land x 0xFF) /\
  0 <= swap_hword x < 2 ^ 16 /\
  swap_hword (swap_hword x) = u16 x /\
  swap_hword (u16 x) = swap_hword x.
Proof.
  split; [|split; [|split]].
  - split; octet_eq testbit_swap_hword.
  - unfold swap_hword, u16. apply Z.mod_pos_bound. lia.
  - unfold u16. rewrite <- Z.land_ones by lia.
    apply Z.bits_inj'. intros i Hi.
    rewrite Z.land_spec, Z.testbit_ones_nonneg, testbit_swap_hword by lia.
    split_ltb; rewrite testbit_swap_hword by lia; split_ltb; bool_tidy;
      try reflexivity; f_equal; lia.
  - unfold u16. rewrite <- Z.land_ones by lia.
    apply Z.bits_inj'. intros i Hi.
    rewrite !testbit_swap_hword by lia.
    split_ltb; rewrite ?Z.land_spec, ?Z.testbit_ones_nonneg by lia;
      split_ltb; bool_tidy; reflexivity.
Qed.

(** ** What reading an inode yields *)

(** X3: with an inode number of 16 bits, as the directory scans pass it,
    [read_inode] fails exactly when the device read fails.  A record that
    lies past the end of the image is no error: nothing is transferred, and
    the inode is decoded from whatever the local [raw_inode] held. *)
Theorem read_inode_outcome (d : Disk) (g : Garbage) (n : Z) :
  0 <= n < 2 ^ 16 ->
  let off := 0x7C0 + n * 0x40 in
  (faulty d off = true ->
     read_inode d g n
     = (Fail (-1), [Lseek off; Read 0x40; Perror "read_inode():read()"]))
  /\
  (faulty d off = false ->
     read_inode d g n = (Ok (loaded_inode d g n), [Lseek off; Read 0x40]))
  /\
  (faulty d off = false -> Z.of_nat (length (image d)) <= off ->
     read_inode d g n = (Ok (decode_inode (g_raw_inode g)), [Lseek off; Read 0x40])).
Proof.
  intros Hn off. change (2 ^ 16) with 65536 in Hn.
  assert (Hunfold :
    read_inode d g n
    = match read d off 0x40 with
      | None => (Fail (-1), [Lseek off; Read 0x40; Perror "read_inode():read()"])
      | Some bs =>
          (Ok (decode_inode (fill (g_raw_inode g) bs)), [Lseek off; Read 0x40])
      end).
  { unfold read_inode.
    rewrite s32_small by (change (2 ^ 31) with 2147483648; lia).
    fold off. unfold lseek.
    destruct (Z.ltb_spec off 0); [unfold off in *; lia|].
    destruct (Z.ltb_spec off 0); [unfold off in *; lia|]. reflexivity. }
  split; [|split].
  - intros Hf. rewrite Hunfold. unfold read. rewrite Hf. reflexivity.
  - intros Hf. rewrite Hunfold. unfold read. rewrite Hf. reflexivity.
  - intros Hf Hend. rewrite Hunfold. unfold read. rewrite Hf.
    rewrite skipn_all2 by (unfold off in *; lia).
    rewrite firstn_nil. reflexivity.
Qed.

(** X3 on an image of 1500 octets: inode 2 lies past its end, and is decoded
    from the 64 octets 0xAA of the local record. *)
Lemma read_inode_outcome_witness :
  read_inode Fixture.short_disk Fixture.garbage0 2
  = (Ok (decode_inode (repeat xaa 64)), [Lseek 2112; Read 64]).
Proof.
  destruct (read_inode_outcome Fixture.short_disk Fixture.garbage0 2) as (_ & _ & H).
  - split; by_compute.
  - apply H; [reflexivity | by_compute].
Defined.

(** ** The buffer of a block read *)

Lemma length_fill (buf bs : list byte) :
  (length bs <= length buf)%nat -> length (fill buf bs) = length buf.
Proof.
  intros H. unfold fill. rewrite length_app, length_skipn. lia.
Qed.

Lemma length_read (d : Disk) (pos n : Z) (bs : list byte) :
  read d pos n = Some bs -> (length bs <= Z.to_nat n)%nat.
Proof.
  unfold read. destruct (faulty d pos); [discriminate|].
  intros H. inversion H. rewrite length_firstn. lia.
Qed.

Lemma disk_block_read_bounds (d : Disk) (adr : Z) (buf : list byte) :
  length buf = 1024%nat ->
  let r := disk_block_read d adr buf in
  -1 <= fst (fst r) <= 1024 /\
  length (snd (fst r)) = 1024%nat /\
  (fst (fst r) <= 0 -> snd (fst r) = buf) /\
  (length (seeks (snd r)) = 1)%nat.
Proof.
  intros Hl. unfold disk_block_read.
  destruct (lseek _ <? 0).
  { cbn. repeat split; try lia; auto. }
  destruct (read d _ 1024) as [bs|] eqn:E.
  - pose proof (length_read _ _ _ _ E) as Hbs. cbn [fst snd seeks length].
    split; [lia|]. split; [rewrite length_fill; [exact Hl | rewrite Hl; lia]|].
    split; [|reflexivity].
    intros H0. destruct bs; [reflexivity | cbn in H0; lia].
  - cbn. repeat split; try lia; auto.
Qed.

Lemma disk_block_read_seeks (d : Disk) (adr : Z) (buf : list byte) :
  (length (seeks (snd (disk_block_read d adr buf))) = 1)%nat /\
  (fst (fst (disk_block_read d adr buf)) < 0 ->
   fst (fst (disk_block_read d adr buf)) = -1).
Proof.
  unfold disk_block_read. destruct (lseek _ <? 0); [split; [reflexivity | cbn [fst]; lia]|].
  destruct (read d _ 1024); split; try reflexivity; cbn [fst]; lia.
Qed.

(** X4: whatever the inode and the image hold, [inode_block_read] returns a
    value from -1 to 1024, leaves a 1024-octet buffer a 1024-octet buffer,
    does not touch it when the value is 0 or -1, and seeks in the image at
    most three times. *)
Theorem inode_block_read_bounds (d : Disk) (g : Garbage) (adr : Z) (ino : Inode)
    (buf : list byte) :
  length buf = 1024%nat ->
  let r := inode_block_read d g adr ino buf in
  -1 <= fst (fst r) <= 1024 /\
  length (snd (fst r)) = 1024%nat /\
  (fst (fst r) <= 0 -> snd (fst r) = buf) /\
  (length (seeks (snd r)) <= 3)%nat.
Proof.
  intros Hl. cbv zeta. unfold inode_block_read.
  assert (Hlast : forall b l0,
            (length (seeks l0) <= 2)%nat ->
            forall e,
            let '(rv, buf', l) := disk_block_read d b buf in
            -1 <= rv <= 1024 /\ length buf' = 1024%nat /\
            (rv <= 0 -> buf' = buf) /\
            (length (seeks (l0 ++ Printf (fst e) (snd e) :: l)) <= 3)%nat).
  { intros b l0 H0 e.
    pose proof (disk_block_read_bounds d b buf Hl) as H. cbv zeta in H.
    destruct (disk_block_read d b buf) as [[rv buf'] l]. cbn [fst snd] in H.
    destruct H as (H1 & H2 & H3 & H4).
    split; [exact H1|]. split; [exact H2|]. split; [exact H3|].
    rewrite seeks_app. cbn [seeks]. rewrite length_app, H4.
    clear - H0. lia. }
  assert (Hfail : forall rv l0,
            rv < 0 -> (rv < 0 -> rv = -1) -> (length (seeks l0) <= 3)%nat ->
            -1 <= rv <= 1024 /\ length buf = 1024%nat /\
            (rv <= 0 -> buf = buf) /\ (length (seeks l0) <= 3)%nat).
  { intros rv l0 Hneg Hm1 H0. rewrite (Hm1 Hneg).
    split; [clear; lia|]. split; [exact Hl|]. split; [reflexivity | exact H0]. }
  destruct (adr <? 10).
  { destruct (_ >? 0).
    - specialize (Hlast (s32 (addr_at ino adr)) [] ltac:(cbn; clear; lia)
                        ("inode_block_read(%d) => disk_block_read(%d)\n",
                         [ArgI adr; ArgI (s32 (addr_at ino adr))])).
      destruct (disk_block_read d _ buf) as [[rv buf'] l].
      cbn [fst snd app] in *. exact Hlast.
    - cbn [fst snd seeks length].
      split; [clear; lia|]. split; [exact Hl|]. split; [reflexivity | clear; lia]. }
  destruct (adr <? 266).
  { destruct (disk_block_read_seeks d (s32 (addr_at ino 10)) (g_indirect_block g))
      as (S1 & M1).
    destruct (disk_block_read d _ (g_indirect_block g)) as [[rv ib] l1].
    cbn [fst snd] in S1, M1.
    destruct (Z.ltb_spec rv 0) as [Hneg|Hpos].
    - cbn [fst snd]. apply Hfail; [exact Hneg | exact M1 | rewrite S1; clear; lia].
    - match goal with
      | |- context [disk_block_read d ?b buf] =>
          match goal with
          | |- context [Printf ?f ?a :: _] =>
              specialize (Hlast b l1 ltac:(rewrite S1; clear; lia) (f, a))
          end;
          destruct (disk_block_read d b buf) as [[rv' buf'] l2]
      end.
      cbn [fst snd] in *. exact Hlast. }
  destruct (adr <? 65802).
  2:{ cbn [fst snd seeks length].
      split; [clear; lia|]. split; [exact Hl|]. split; [reflexivity | clear; lia]. }
  destruct (disk_block_read_seeks d (s32 (addr_at ino 11))
              (g_first_indirect_block g)) as (S1 & M1).
  destruct (disk_block_read d _ (g_first_indirect_block g)) as [[rv ib] l1].
  cbn [fst snd] in S1, M1.
  destruct (Z.ltb_spec rv 0) as [Hneg|Hpos].
  { cbn [fst snd]. apply Hfail; [exact Hneg | exact M1 | rewrite S1; clear; lia]. }
  match goal with
  | |- context [disk_block_read d ?b (g_second_indirect_block g)] =>
      destruct (disk_block_read_seeks d b (g_second_indirect_block g))
        as (S2 & M2);
      destruct (disk_block_read d b (g_second_indirect_block g))
        as [[rv2 ib2] l2]
  end.
  cbn [fst snd] in S2, M2.
  destruct (Z.ltb_spec rv2 0) as [Hneg2|Hpos2].
  { cbn [fst snd]. apply Hfail; [exact Hneg2 | exact M2|].
    rewrite seeks_app, length_app, S1, S2. clear; lia. }
  match goal with
  | |- context [disk_block_read d ?b buf] =>
      match goal with
      | |- context [Printf ?f ?a :: _] =>
          specialize (Hlast b (l1 ++ l2)
                        ltac:(rewrite seeks_app, length_app, S1, S2; clear; lia)
                        (f, a))
      end;
      destruct (disk_block_read d b buf) as [[rv' buf'] l3]
  end.
  cbn [fst snd] in *. rewrite <- app_assoc in Hlast. exact Hlast.
Qed.

(** X4 on inode 5 of the image with indirection, logical block 266, which
    goes through two indirect blocks. *)
Lemma inode_block_read_bounds_witness :
  let r := inode_block_read Fixture.indirect_disk Fixture.garbage0 266
             Fixture.inode5 (repeat xaa 1024) in
  -1 <= fst (fst r) <= 1024 /\
  length (snd (fst r)) = 1024%nat /\
  (fst (fst r) <= 0 -> snd (fst r) = repeat xaa 1024) /\
  (length (seeks (snd r)) <= 3)%nat.
Proof.
  exact (inode_block_read_bounds Fixture.indirect_disk Fixture.garbage0 266
           Fixture.inode5 (repeat xaa 1024) (repeat_length xaa 1024)).
Defined.

(** ** What the copy writes *)

Lemma length_firstn_buffer (osize : Z) (buf : list byte) :
  length buf = 1024%nat -> 0 <= osize <= 1024 ->
  Z.of_nat (length (firstn (Z.to_nat osize) buf)) = osize.
Proof.
  intros Hl Ho. rewrite length_firstn, Hl.
  change 1024%nat with (Z.to_nat 1024). lia.
Qed.

Lemma copy_loop_written (d : Disk) (g : Garbage) (h : Host) (ino : Inode)
    (fuel : nat) :
  wf_inode ino ->
  forall x fileblock buf f r l,
    0 <= x <= size ino -> length buf = 1024%nat ->
    loop fuel (read_copy_body d g h ino) (x, fileblock, buf, f) = Some (r, l) ->
    x + Z.of_nat (length (written l)) <= size ino /\
    Forall (fun n => 0 < n <= 1024) (write_sizes l) /\
    match r with
    | CopyEnd x' _ => x' = size ino /\ x + Z.of_nat (length (written l)) = size ino
    | CopyReturn rv _ => rv = -1
    end.
Proof.
  intros Hwf. assert (HS : 0 <= size ino < 2 ^ 32) by apply Hwf.
  induction fuel as [|fuel IH]; intros x k buf f r l Hx Hl H; [discriminate|].
  rewrite loop_S in H. unfold read_copy_body in H.
  destruct (Z.ltb_spec x (size ino)) as [Hlt|Hge].
  2:{ inversion H; subst. cbn [written write_sizes length].
      split; [lia|]. split; [constructor|]. split; lia. }
  pose proof (inode_block_read_bounds d g k ino buf Hl) as B. cbv zeta in B.
  pose proof (inode_block_read_plain d g k ino buf) as P.
  destruct (inode_block_read d g k ino buf) as [[rv buf'] l0].
  cbn [fst snd] in B, P. destruct B as (Brv & Bl & _ & _).
  pose proof (plain_written _ P) as W0.
  pose proof (plain_write_sizes _ P) as Z0.
  destruct (Z.ltb_spec rv 0) as [Hneg|Hpos].
  { inversion H; subst. rewrite W0, Z0. cbn [length].
    split; [lia|]. split; [constructor | lia]. }
  destruct (Z.eqb_spec rv 0) as [Hz|Hnz].
  { inversion H; subst. rewrite written_app, write_sizes_app, W0, Z0.
    cbn [written write_sizes app length].
    split; [lia|]. split; [constructor | reflexivity]. }
  set (osize := if u32 (size ino - x) <? 1024 then s32 (u32 (size ino - x))
                else 1024) in H.
  assert (Hos : 0 < osize <= 1024 /\ x + osize <= size ino).
  { unfold osize. rewrite (u32_small (size ino - x)) by lia.
    destruct (Z.ltb_spec (size ino - x) 1024).
    - rewrite s32_small by lia. lia.
    - lia. }
  destruct (host_write h f _) as [f'|].
  2:{ inversion H; subst. rewrite written_app, write_sizes_app, W0, Z0.
      cbn [written write_sizes app length].
      split; [lia|]. split; [constructor | reflexivity]. }
  destruct (loop fuel _ _) as [[r1 l1]|] eqn:E; [|discriminate].
  inversion H; subst; clear H.
  rewrite u32_small in E by lia.
  assert (Hx' : 0 <= x + osize <= size ino) by lia.
  destruct (IH _ _ _ _ _ _ Hx' Bl E) as (I1 & I2 & I3).
  pose proof (length_firstn_buffer osize buf' Bl ltac:(lia)) as Hout.
  rewrite !written_app, !write_sizes_app, W0, Z0.
  cbn [written write_sizes app]. rewrite !length_app, !Nat2Z.inj_add, Hout.
  cbn [length].
  split; [lia|]. split.
  - constructor; [lia | exact I2].
  - destruct r; [exact I3 | lia].
Qed.

(** X5: the copy never writes more than the size the inode gives, in writes
    of at most 1024 octets; it returns 0 or -1, and when it returns 0 it has
    written exactly that many octets, whatever the blocks held. *)
Theorem read_copy_writes_size (d : Disk) (g : Garbage) (h : Host) (ino : Inode)
    (f f' : File) (rv : Z) (l : list event) :
  wf_inode ino -> length (g_file_buffer g) = 1024%nat ->
  read_copy d g h ino f = Some (rv, f', l) ->
  Z.of_nat (length (written l)) <= size ino /\
  Forall (fun n => 0 < n <= 1024) (write_sizes l) /\
  (rv = 0 \/ rv = -1) /\
  (rv = 0 -> Z.of_nat (length (written l)) = size ino).
Proof.
  intros Hwf Hl H. assert (HS : 0 <= size ino < 2 ^ 32) by apply Hwf.
  unfold read_copy in H.
  destruct (loop _ _ _) as [[r l0]|] eqn:E; [|discriminate].
  assert (H0 : 0 <= 0 <= size ino) by lia.
  destruct (copy_loop_written d g h ino _ Hwf _ _ _ _ _ _ H0 Hl E)
    as (I1 & I2 & I3).
  destruct r as [rv' f1|x f1]; inversion H; subst; clear H.
  - cbn [written write_sizes]. split; [lia|]. split; [exact I2|].
    split; [right; reflexivity | intros C; discriminate C].
  - cbn [written write_sizes]. rewrite written_app, write_sizes_app.
    cbn [written write_sizes]. rewrite !app_nil_r.
    split; [lia|]. split; [exact I2|]. split; [left; reflexivity|].
    intros _. lia.
Qed.

(** X5 on inode 6 of the image with indirection, whose third block is a
    hole: the copy fails after 2048 of its 3000 octets. *)
Lemma read_copy_writes_size_witness :
  exists f' l,
    read_copy Fixture.indirect_disk Fixture.garbage0 Fixture.host0 Fixture.inode6
              Fixture.file0 = Some (-1, f', l) /\
    Z.of_nat (length (written l)) <= 3000.
Proof.
  destruct (read_copy Fixture.indirect_disk Fixture.garbage0 Fixture.host0
              Fixture.inode6 Fixture.file0) as [[[rv f'] l]|] eqn:E.
  2:{ exfalso.
      assert (C : option_map (fun _ => tt)
                    (read_copy Fixture.indirect_disk Fixture.garbage0
                       Fixture.host0 Fixture.inode6 Fixture.file0) = Some tt)
        by (vm_compute; reflexivity).
      rewrite E in C. discriminate C. }
  assert (Hrv : rv = -1).
  { assert (C : option_map (fun r => fst (fst r))
                  (read_copy Fixture.indirect_disk Fixture.garbage0
                     Fixture.host0 Fixture.inode6 Fixture.file0) = Some (-1))
      by (vm_compute; reflexivity).
    rewrite E in C. cbn in C. congruence. }
  subst rv. exists f', l. split; [reflexivity|].
  assert (Hwf : wf_inode Fixture.inode6) by solve_wf_inode.
  destruct (read_copy_writes_size Fixture.indirect_disk Fixture.garbage0
              Fixture.host0 Fixture.inode6 Fixture.file0 f' (-1) l Hwf
              (repeat_length xaa 1024) E) as (H & _).
  exact H.
Defined.

(** ** The destination after an extraction *)

(** X6: [unix_read] opens the destination before it consults the image.
    When the path does not begin with ['/'] or the destination cannot be
    opened, it returns -1 with the host untouched and the image not
    accessed.  Otherwise the destination exists afterwards, whatever the
    outcome: it holds the octets written, followed by what it held beyond
    them when it was opened (nothing if it was just created). *)
Theorem unix_read_destination (d : Disk) (g : Garbage) (h h' : Host)
    (path : list byte) (rv : Z) (l : list event) :
  unix_read d g h path = Some (rv, h', l) ->
  (hd x00 path <> x2f \/ host_open h [O_RDWR; O_CREAT] = None ->
   h' = h /\ rv = -1 /\ seeks l = [] /\ written l = []) /\
  (hd x00 path = x2f ->
   forall c, host_open h [O_RDWR; O_CREAT] = Some c ->
     dest h' = Some (written l ++ skipn (length (written l)) c)).
Proof.
  intros H. unfold unix_read in H.
  destruct (byte_eqb_spec (hd x00 path) x2f) as [Hhd|Hhd]; cbn [negb] in H.
  2:{ inversion H; subst. split.
      - intros _. repeat split.
      - intros C. contradiction. }
  destruct (host_open h [O_RDWR; O_CREAT]) as [c|] eqn:Hopen.
  2:{ inversion H; subst. split.
      - intros _. repeat split.
      - intros _ c C. discriminate C. }
  split.
  { intros [C|C]; [contradiction | discriminate C]. }
  intros _ c' C. inversion C; subst c'; clear C.
  pose proof (read_inode_plain d g 2) as P.
  destruct (read_inode d g 2) as [[dir_inode|rv0] l0]; cbn [snd] in P.
  2:{ inversion H; subst. rewrite (plain_written _ P). reflexivity. }
  destruct (read_walk _ _ _ _) as [[r1 l1]|] eqn:E; [|discriminate].
  pose proof (read_walk_plain _ _ _ _ _ _ E) as P1.
  destruct r1 as [rv1|st'].
  { inversion H; subst. rewrite written_app, (plain_written _ P),
      (plain_written _ P1). reflexivity. }
  destruct (rs_file_inode_number st' =? 0).
  { inversion H; subst. rewrite !written_app, (plain_written _ P),
      (plain_written _ P1). reflexivity. }
  destruct (read_copy _ _ _ _ _) as [[[rv2 f2] l2]|] eqn:E2; [|discriminate].
  inversion H; subst.
  destruct (read_copy_frame _ _ _ _ c _ _ _ _ E2) as [[Hc _] _].
  { split; reflexivity. }
  rewrite !written_app, (plain_written _ P), (plain_written _ P1).
  cbn [app host_with dest]. rewrite Hc. reflexivity.
Qed.

(** X6 on the path scenario: [/bin/nope] is not found, and the destination,
    which did not exist, is left behind empty. *)
Lemma unix_read_destination_witness :
  exists h' l,
    unix_read Fixture.scenario_disk Fixture.garbage0 Fixture.host0
              (bytes "/bin/nope") = Some (-1, h', l) /\
    dest h' = Some [].
Proof.
  destruct (unix_read Fixture.scenario_disk Fixture.garbage0 Fixture.host0
              (bytes "/bin/nope")) as [[[rv h'] l]|] eqn:E.
  2:{ exfalso. vm_compute in E. discriminate E. }
  assert (C : option_map (fun r => (fst (fst r), written (snd r)))
                (unix_read Fixture.scenario_disk Fixture.garbage0 Fixture.host0
                   (bytes "/bin/nope")) = Some (-1, []))
    by (vm_compute; reflexivity).
  rewrite E in C. cbn [option_map fst snd] in C.
  assert (Hrv : rv = -1) by congruence.
  assert (Hw : written l = []) by congruence.
  subst rv. exists h', l. split; [reflexivity|].
  destruct (unix_read_destination _ _ _ _ _ _ _ E) as (_ & H).
  rewrite (H eq_refl [] eq_refl), Hw. reflexivity.
Defined.

(** ** Extraction, end to end *)

Section Extraction.

Variable d : Disk.
Variable g : Garbage.
Hypothesis no_faults : forall pos, faulty d pos = false.
Hypothesis dir_buffer_length : length (g_dir_buffer g) = 1024%nat.

Variable name : list byte.
Hypothesis name_proper : proper_name name.

Variable path : list byte.
Hypothesis path_slash : hd x00 path = x2f.

Variable number : Z.

(** X7: asking [unix_read] for a directory, the root or a directory of the
    root, is no error to it: it complains that there is no such file,
    returns 0, and leaves the destination as it was opened. *)
Theorem unix_read_directory (h : Host) (c : list byte) :
  host_open h [O_RDWR; O_CREAT] = Some c ->
  strtok_all path = [] \/
  (strtok_all path = [name] /\
   has_entry d (loaded_inode d g 2) name number /\
   type (loaded_inode d g number) = INODE_FT_DIR) ->
  exists l,
    unix_read d g h path = Some (0, host_with h {| contents := c; pos := 0 |}, l) /\
    last l (Lseek 0) = msg_file_read /\ written l = [].
Proof.
  intros Hopen Hcase.
  rewrite (unix_read_walks d g no_faults h c path path_slash Hopen). cbv zeta.
  destruct Hcase as [Hparts | (Hparts & (phys & b & Hent) & Htype)];
    rewrite Hparts.
  - cbn [read_walk read_state0 rs_file_inode_number].
    change (0 =? 0) with true. cbv iota.
    eexists. split; [reflexivity|]. split; reflexivity.
  - destruct (read_walk_dir d g no_faults name name_proper _
                (loaded_inode_wf d g 2) phys b _ number
                (in_dir_root d g dir_buffer_length) Hent Htype)
      as (l1 & st1 & T1 & Hin & Hstep).
    rewrite Hstep. cbn [read_walk].
    destruct Hin as (_ & _ & _ & Hfn). rewrite Hfn.
    change (0 =? 0) with true. cbv iota.
    eexists. split; [reflexivity|]. split.
    + rewrite app_nil_r. last_of_log.
    + rewrite app_nil_r.
      assert (W : forall l, forallb walk_trace l = true -> written l = []).
      { induction l as [|e l IH]; [reflexivity|]. cbn [forallb].
        intros H. apply andb_true_iff in H. destruct H as [He Hl].
        destruct e; try discriminate He; cbn [written]; auto. }
      cbn [app written]. rewrite !written_app, (W _ T1). reflexivity.
Qed.

(** X8: extraction end to end.  When the root holds a regular file under
    [name], the address map of its inode supplies a block for every logical
    block below [ceil (size / 1024)], and the writes to the destination do
    not fail, [unix_read] returns 0, has written exactly the first [size]
    octets of these blocks, and the destination holds them, followed by what
    it held beyond them when it was opened. *)
Theorem unix_read_extracts (h : Host) (c : list byte) (phys : Z -> Z) :
  host_open h [O_RDWR; O_CREAT] = Some c ->
  (forall pos, write_fails h pos = false) ->
  strtok_all path = [name] ->
  has_entry d (loaded_inode d g 2) name number ->
  let file := loaded_inode d g number in
  type file = INODE_FT_FILE ->
  let n := (size file + 1023) / 1024 in
  (forall k, 0 <= k < n -> supplies d file phys k) ->
  exists h' l,
    unix_read d g h path = Some (0, h', l) /\
    written l = firstn (Z.to_nat (size file)) (file_blocks d phys 0 (Z.to_nat n)) /\
    Z.of_nat (length (written l)) = size file /\
    dest h' = Some (written l ++ skipn (Z.to_nat (size file)) c).
Proof.
  intros Hopen Hw Hparts (physd & b & Hent) file Htype n Hsup.
  rewrite (unix_read_walks d g no_faults h c path path_slash Hopen). cbv zeta.
  rewrite Hparts.
  destruct (read_walk_file d g no_faults name name_proper _
              (loaded_inode_wf d g 2) physd b _ number
              (in_dir_root d g dir_buffer_length) Hent Htype)
    as (l1 & st1 & T1 & Hnum & Hfile & Hwalk & _).
  rewrite Hwalk, Hnum, Hfile. fold file.
  destruct (found_in_nonzero d _ physd b name number Hent) as (Hnz & _).
  destruct (Z.eqb_spec number 0); [contradiction|].
  destruct (read_copy_complete d g h file phys c {| contents := c; pos := 0 |}
              (loaded_inode_wf d g number) Hw ltac:(split; reflexivity) Hsup)
    as (f' & l2 & Hcopy & Hwr & Hlen & _ & Hc & _).
  rewrite Hcopy.
  assert (W : forall l, forallb walk_trace l = true -> written l = []).
  { induction l as [|e l IH]; [reflexivity|]. cbn [forallb].
    intros H. apply andb_true_iff in H. destruct H as [He Hl].
    destruct e; try discriminate He; cbn [written]; auto. }
  eexists. eexists. split; [reflexivity|].
  cbn [app written]. rewrite !written_app, (W _ T1). cbn [written app].
  split; [exact Hwr|]. split; [exact Hlen|].
  cbn [host_with dest]. rewrite Hc. f_equal. f_equal. f_equal. lia.
Qed.

End Extraction.

(** X7 on the path scenario: [/bin] is a directory. *)
Lemma unix_read_directory_witness :
  exists l,
    unix_read Fixture.scenario_disk Fixture.garbage0 Fixture.host0 (bytes "/bin")
    = Some (0, host_with Fixture.host0 Fixture.file0, l) /\
    last l (Lseek 0) = msg_file_read /\ written l = [].
Proof.
  assert (P : proper_name (bytes "bin")) by (split; [reflexivity | by_compute]).
  assert (E : has_entry Fixture.scenario_disk
                (loaded_inode Fixture.scenario_disk Fixture.garbage0 2)
                (bytes "bin") 10)
    by (solve_has_entry 5 2%nat).
  apply (unix_read_directory Fixture.scenario_disk Fixture.garbage0
           (fun _ => eq_refl) eq_refl (bytes "bin") P (bytes "/bin") eq_refl 10
           Fixture.host0 [] eq_refl).
  right. split; [reflexivity|]. split; [exact E | reflexivity].
Defined.

(** X8 on the image with indirection: [/big] (inode 5, 11564 octets, ten
    direct blocks and two through the indirect block) is extracted in
    full. *)
Lemma unix_read_extracts_witness :
  let d := Fixture.indirect_disk in
  exists h' l,
    unix_read d Fixture.garbage0 Fixture.host0 (bytes "/big") = Some (0, h', l) /\
    written l = firstn (Z.to_nat 11564) (file_blocks d Fixture.phys5 0 12) /\
    dest h' = Some (written l).
Proof.
  intros d.
  assert (P : proper_name (bytes "big")) by (split; [reflexivity | by_compute]).
  assert (E : has_entry d (loaded_inode d Fixture.garbage0 2) (bytes "big") 5)
    by (solve_has_entry 3 1%nat).
  assert (Hsize : size (loaded_inode d Fixture.garbage0 5) = 11564)
    by by_compute.
  assert (Hsup : forall k, 0 <= k < 12 ->
            supplies d (loaded_inode d Fixture.garbage0 5) Fixture.phys5 k).
  { intros k Hk.
    assert (Hcases : k = 0 \/ k = 1 \/ k = 2 \/ k = 3 \/ k = 4 \/ k = 5 \/
                     k = 6 \/ k = 7 \/ k = 8 \/ k = 9 \/ k = 10 \/ k = 11)
      by lia.
    clear Hk. unfold supplies, maps_to.
    repeat (destruct Hcases as [->|Hcases]); try subst k;
      (split; [|split; [by_compute | solve_readable]]);
      first [ left; split; [lia | by_compute]
            | right; left; split; [lia|]; split; [solve_readable | by_compute] ]. }
  destruct (unix_read_extracts d Fixture.garbage0 (fun _ => eq_refl) eq_refl
              (bytes "big") P (bytes "/big") eq_refl 5 Fixture.host0 []
              Fixture.phys5 eq_refl (fun _ => eq_refl) eq_refl E)
    as (h' & l & Hr & Hw & _ & Hd).
  - by_compute.
  - cbv zeta. rewrite Hsize. exact Hsup.
  - cbv zeta in Hw, Hd. rewrite Hsize in Hw, Hd.
    exists h', l. split; [exact Hr|]. split; [exact Hw|].
    rewrite Hd. rewrite skipn_nil, app_nil_r. reflexivity.
Defined.

(** ** The command line *)

(** X9: [main] tells its commands by their first octets only: any command
    word that begins with [ls] lists, any that begins with [read] extracts,
    and any that begins with [help] or [-?] prints the usage and returns 0
    without opening the image. *)
Theorem main_command_prefix (prog more : list byte) (rest : list (list byte))
    (disk : option Disk) (h : Host) (g : Garbage) :
  main (prog :: (bytes "ls" ++ more) :: rest) disk h g
  = main (prog :: bytes "ls" :: rest) disk h g /\
  main (prog :: (bytes "read" ++ more) :: rest) disk h g
  = main (prog :: bytes "read" :: rest) disk h g /\
  main (prog :: (bytes "help" ++ more) :: rest) disk h g = Some (0, h, usage) /\
  main (prog :: (bytes "-?" ++ more) :: rest) disk h g = Some (0, h, usage).
Proof.
  split; [reflexivity|]. split; [reflexivity|]. split.
  - unfold main. change (negb (sizeof_SuperBlock =? 1024)) with false.
    cbv iota. cbn [nth].
    change (strncmp (bytes "help" ++ more) (bytes "help") 4 =? 0) with true.
    rewrite orb_true_r. reflexivity.
  - unfold main. change (negb (sizeof_SuperBlock =? 1024)) with false.
    cbv iota. cbn [nth].
    change (strncmp (bytes "-?" ++ more) (bytes "-?") 2 =? 0) with true.
    rewrite orb_true_r. reflexivity.
Qed.

(** ** The values returned *)

Lemma read_inode_fail (d : Disk) (g : Garbage) (n rv : Z) (l : list event) :
  read_inode d g n = (Fail rv, l) -> rv = -1.
Proof.
  unfold read_inode. destruct (lseek _ <? 0); [intros H; inversion H; reflexivity|].
  destruct (read d _ _); intros H; inversion H; reflexivity.
Qed.

Lemma inode_block_read_neg (d : Disk) (g : Garbage) (adr : Z) (ino : Inode)
    (buf : list byte) (rv : Z) (buf' : list byte) (l : list event) :
  inode_block_read d g adr ino buf = (rv, buf', l) -> rv < 0 -> rv = -1.
Proof.
  unfold inode_block_read.
  assert (D : forall b bf rv' bf' l',
            disk_block_read d b bf = (rv', bf', l') -> rv' < 0 -> rv' = -1).
  { intros b bf rv' bf' l' E Hneg.
    destruct (disk_block_read_seeks d b bf) as (_ & M). rewrite E in M.
    exact (M Hneg). }
  destruct (adr <? 10).
  { destruct (_ >? 0).
    - destruct (disk_block_read d _ buf) as [[rv' bf'] l'] eqn:E.
      intros Hx; inversion Hx; subst. eapply D; eassumption.
    - intros Hx; inversion Hx; lia. }
  destruct (adr <? 266).
  { destruct (disk_block_read d _ (g_indirect_block g)) as [[rv1 b1] l1] eqn:E1.
    destruct (Z.ltb_spec rv1 0).
    - intros Hx; inversion Hx; subst. intros _. eapply D; eassumption.
    - destruct (disk_block_read d _ buf) as [[rv' bf'] l'] eqn:E.
      intros Hx; inversion Hx; subst. eapply D; eassumption. }
  destruct (adr <? 65802); [|intros Hx; inversion Hx; reflexivity].
  destruct (disk_block_read d _ (g_first_indirect_block g)) as [[rv1 b1] l1] eqn:E1.
  destruct (Z.ltb_spec rv1 0).
  { intros Hx; inversion Hx; subst. intros _. eapply D; eassumption. }
  destruct (disk_block_read d _ (g_second_indirect_block g))
    as [[rv2 b2] l2] eqn:E2.
  destruct (Z.ltb_spec rv2 0).
  { intros Hx; inversion Hx; subst. intros _. eapply D; eassumption. }
  destruct (disk_block_read d _ buf) as [[rv' bf'] l'] eqn:E.
  intros Hx; inversion Hx; subst. eapply D; eassumption.
Qed.

(** What every ending run of the body establishes holds of the result of
    the loop. *)
Lemma loop_post {St R : Type} (body : St -> option (step St R * list event))
    (Post : R -> Prop) :
  (forall s r l, body s = Some (Done r, l) -> Post r) ->
  forall fuel s r l, loop fuel body s = Some (r, l) -> Post r.
Proof.
  intros Hd fuel s r l H.
  apply (loop_inv body (fun _ => True) Post) with (fuel := fuel) (s := s) (l := l);
    [auto | intros s0 r0 l0 _; apply Hd | exact I | exact H].
Qed.

(** Case analysis on one run of a loop body that ends the loop with a value
    to return. *)
Ltac status_cases H :=
  repeat match type of H with
         | context [read_inode ?d ?g ?n] =>
             let E := fresh "E" in
             destruct (read_inode d g n) as [[?|?] ?] eqn:E;
             [|apply read_inode_fail in E]
         | context [inode_block_read ?d ?g ?a ?i ?b] =>
             let E := fresh "E" in
             destruct (inode_block_read d g a i b) as [[? ?] ?] eqn:E;
             pose proof (inode_block_read_neg _ _ _ _ _ _ _ _ E)
         | context [if ?c <? 0 then _ else _] => destruct (Z.ltb_spec c 0)
         | context [if ?c then _ else _] => destruct c
         end.

Ltac status_done H :=
  inversion H; subst; clear H; unfold status; try exact I; auto; lia.

Lemma ls_scan_status (d : Disk) (g : Garbage) (pathpart buf : list byte)
    (dir : Inode) (dirblock : Z) (fuel : nat) (x : Z) r l :
  loop fuel (ls_scan_body d g pathpart buf dir dirblock) x = Some (r, l) ->
  match r with ScanReturn rv => status rv | _ => True end.
Proof.
  apply (loop_post _ (fun r => match r with ScanReturn rv => status rv | _ => True end)).
  intros s r0 l0 H. unfold ls_scan_body in H. status_cases H; status_done H.
Qed.

Lemma read_scan_status (d : Disk) (g : Garbage) (pathpart : list byte)
    (st : read_state) (fuel : nat) (x : Z) r l :
  loop fuel (read_scan_body d g pathpart st) x = Some (r, l) ->
  match r with RScanReturn rv => status rv | _ => True end.
Proof.
  apply (loop_post _ (fun r => match r with RScanReturn rv => status rv | _ => True end)).
  intros s r0 l0 H. unfold read_scan_body in H. status_cases H; status_done H.
Qed.

Lemma ls_print_status (d : Disk) (g : Garbage) (buf : list byte)
    (fuel : nat) (x : Z) r l :
  loop fuel (ls_print_body d g buf) x = Some (r, l) ->
  match r with PrintReturn rv => status rv | _ => True end.
Proof.
  apply (loop_post _ (fun r => match r with PrintReturn rv => status rv | _ => True end)).
  intros s r0 l0 H. unfold ls_print_body in H. status_cases H; status_done H.
Qed.

Lemma ls_block_status (d : Disk) (g : Garbage) (pathpart : list byte)
    (dir : Inode) (fuel : nat) s r l :
  loop fuel (ls_block_body d g pathpart dir) s = Some (r, l) ->
  match r with BlockReturn rv => status rv | _ => True end.
Proof.
  apply (loop_post _ (fun r => match r with BlockReturn rv => status rv | _ => True end)).
  intros [dirblock buf] r0 l0 H. unfold ls_block_body in H.
  status_cases H; try status_done H.
  destruct (loop scan_fuel _ _) as [[scan_r scan_l]|] eqn:Escan; [|discriminate].
  apply ls_scan_status in Escan.
  destruct scan_r; status_cases H; status_done H.
Qed.

Lemma read_block_status (d : Disk) (g : Garbage) (pathpart : list byte)
    (fuel : nat) s r l :
  loop fuel (read_block_body d g pathpart) s = Some (r, l) ->
  match r with RBlockReturn rv => status rv | _ => True end.
Proof.
  apply (loop_post _ (fun r => match r with RBlockReturn rv => status rv | _ => True end)).
  intros st r0 l0 H. unfold read_block_body in H.
  status_cases H; try status_done H.
  destruct (loop scan_fuel _ _) as [[scan_r scan_l]|] eqn:Escan; [|discriminate].
  apply read_scan_status in Escan.
  destruct scan_r; status_cases H; status_done H.
Qed.

Lemma ls_list_status (d : Disk) (g : Garbage) (dir : Inode) (fuel : nat) s rv l :
  loop fuel (ls_list_body d g dir) s = Some (rv, l) -> status rv.
Proof.
  apply (loop_post _ status).
  intros [dirblock buf] r0 l0 H. unfold ls_list_body in H.
  status_cases H; try status_done H.
  destruct (loop scan_fuel _ _) as [[scan_r scan_l]|] eqn:Escan; [|discriminate].
  apply ls_print_status in Escan.
  destruct scan_r; status_cases H; status_done H.
Qed.

Lemma ls_walk_status (d : Disk) (g : Garbage) (parts : list (list byte)) :
  forall dir dirblock buf r l,
    ls_walk d g parts dir dirblock buf = Some (r, l) ->
    match r with LsReturn rv => status rv | _ => True end.
Proof.
  induction parts as [|pathpart parts IH]; intros dir dirblock buf r l H.
  - inversion H. exact I.
  - cbn [ls_walk] in H.
    destruct (loop block_fuel _ _) as [[r1 l1]|] eqn:E1; [|discriminate].
    apply ls_block_status in E1.
    destruct r1 as [rv|n dir' b' buf']; [status_done H|].
    destruct (n =? 0); [status_done H|].
    destruct (ls_walk d g parts dir' b' buf') as [[r2 l2]|] eqn:E2; [|discriminate].
    apply IH in E2. inversion H; subst. exact E2.
Qed.

Lemma read_walk_status (d : Disk) (g : Garbage) (parts : list (list byte)) :
  forall st r l,
    read_walk d g parts st = Some (r, l) ->
    match r with RdReturn rv => status rv | _ => True end.
Proof.
  induction parts as [|pathpart parts IH]; intros st r l H.
  - inversion H. exact I.
  - cbn [read_walk] in H.
    destruct (negb _); [status_done H|].
    destruct (loop block_fuel _ _) as [[r1 l1]|] eqn:E1; [|discriminate].
    apply read_block_status in E1.
    destruct r1 as [rv|st']; [status_done H|].
    destruct (_ && _); [status_done H|].
    destruct (read_walk d g parts st') as [[r2 l2]|] eqn:E2; [|discriminate].
    apply IH in E2. inversion H; subst. exact E2.
Qed.

Lemma read_copy_status (d : Disk) (g : Garbage) (h : Host) (ino : Inode)
    (f f' : File) (rv : Z) (l : list event) :
  read_copy d g h ino f = Some (rv, f', l) -> status rv.
Proof.
  unfold read_copy. intros H.
  destruct (loop _ _ _) as [[r l0]|] eqn:E; [|discriminate].
  assert (P : match r with CopyReturn rv' _ => status rv' | _ => True end).
  { revert E.
    apply (loop_post _ (fun r => match r with
                                 | CopyReturn rv' _ => status rv'
                                 | _ => True
                                 end)).
    intros [[[x k] buf] fl] r0 l1 H0. unfold read_copy_body in H0.
    destruct (x <? size ino); [|status_done H0].
    status_cases H0; try status_done H0;
      destruct (host_write _ _ _); status_done H0. }
  destruct r; status_done H.
Qed.

Lemma unix_ls_status (d : Disk) (g : Garbage) (path : list byte) rv l :
  unix_ls d g path = Some (rv, l) -> status rv.
Proof.
  unfold unix_ls. intros H.
  destruct (negb _); [status_done H|].
  status_cases H; [|status_done H].
  destruct (ls_walk _ _ _ _ _ _) as [[walk_r walk_l]|] eqn:Ewalk; [|discriminate].
  apply ls_walk_status in Ewalk.
  destruct walk_r as [rv1|dir b buf]; [status_done H|].
  destruct (loop block_fuel _ _) as [[list_rv list_l]|] eqn:Elist; [|discriminate].
  apply ls_list_status in Elist. inversion H; subst. exact Elist.
Qed.

Lemma unix_read_status (d : Disk) (g : Garbage) (h h' : Host) (path : list byte)
    rv l :
  unix_read d g h path = Some (rv, h', l) -> status rv.
Proof.
  unfold unix_read. intros H.
  destruct (negb _); [status_done H|].
  destruct (host_open _ _); [|status_done H].
  status_cases H; [|status_done H].
  destruct (read_walk _ _ _ _) as [[walk_r walk_l]|] eqn:Ewalk; [|discriminate].
  apply read_walk_status in Ewalk.
  destruct walk_r as [rv1|st]; [status_done H|].
  destruct (_ =? 0); [status_done H|].
  destruct (read_copy _ _ _ _ _) as [[[copy_rv copy_f] copy_l]|] eqn:Ecopy; [|discriminate].
  apply read_copy_status in Ecopy. inversion H; subst. exact Ecopy.
Qed.

Lemma main_status (argv : list (list byte)) (disk : option Disk) (h h' : Host)
    (g : Garbage) (rv : Z) (l : list event) :
  main argv disk h g = Some (rv, h', l) -> status rv.
Proof.
  unfold main. intros H.
  destruct (negb (sizeof_SuperBlock =? 1024)); [status_done H|].
  destruct (_ || _); [status_done H|].
  destruct (_ <? 3); [status_done H|].
  destruct disk as [d|]; [|status_done H].
  destruct (disk_block_read d 1 _) as [[rv0 sb] l0] eqn:E0.
  destruct (disk_block_read_seeks d 1 (repeat x00 1024)) as (_ & M).
  rewrite E0 in M. cbn [fst] in M.
  destruct (Z.ltb_spec rv0 0); [inversion H; subst; right; auto|].
  destruct (negb (superblock_magic sb =? _)); [status_done H|].
  destruct (strncmp _ _ 2 =? 0).
  - destruct (_ <? 4); [status_done H|].
    destruct (unix_ls d g _) as [[rv1 l1]|] eqn:E1; [|discriminate].
    apply unix_ls_status in E1. inversion H; subst. exact E1.
  - destruct (strncmp _ _ 4 =? 0); [|status_done H].
    destruct (_ <? 4); [status_done H|]. destruct (_ <? 5); [status_done H|].
    destruct (unix_read d g h _) as [[[rv1 h1] l1]|] eqn:E1; [|discriminate].
    apply unix_read_status in E1. inversion H; subst. exact E1.
Qed.

(** X10: whatever the command line, the image, the host and the storage the
    program does not initialise, [main] returns, and the value it returns is
    0 or -1: a count of octets read or a number taken from the image never
    reaches the exit status. *)
Theorem main_returns_status (argv : list (list byte)) (disk : option Disk)
    (h : Host) (g : Garbage) :
  exists rv h' l,
    main argv disk h g = Some (rv, h', l) /\ (rv = 0 \/ rv = -1).
Proof.
  destruct (main_terminates argv disk h g) as (rv & h' & l & E).
  exists rv, h', l. split; [exact E|]. exact (main_status _ _ _ _ _ _ _ E).
Qed.

(** X11: on every image and for every path, [unix_ls] and [unix_read]
    return, and each returns 0 or -1. *)
Theorem unix_returns_status (d : Disk) (g : Garbage) (h : Host)
    (path : list byte) :
  (exists rv l, unix_ls d g path = Some (rv, l) /\ (rv = 0 \/ rv = -1)) /\
  (exists rv h' l,
     unix_read d g h path = Some (rv, h', l) /\ (rv = 0 \/ rv = -1)).
Proof.
  split.
  - destruct (unix_ls_terminates d g path) as (rv & l & E).
    exists rv, l. split; [exact E|]. exact (unix_ls_status _ _ _ _ _ E).
  - destruct (unix_read_terminates d g h path) as (rv & h' & l & E).
    exists rv, h', l. split; [exact E|].
    exact (unix_read_status _ _ _ _ _ _ _ E).
Qed.
